(** * earthkit-data GRIB readers: GridSpec derivation and metadata facades

    A shallow embedding of [earthkit/data/readers/grib/gridspec.py] and
    [earthkit/data/readers/grib/metadata.py].

    Python values are embedded as follows: an [int] is a [Z], a [float] is a
    primitive binary64 [float], a [str] is a [string], [None] is the [None]
    of [option]; a [dict] with string keys is a [gmap string _]; a raised
    exception is the [Err] branch of [result]. *)

From Stdlib Require Import ZArith Floats Ascii String List.
From stdpp Require Import gmap strings list pretty.

Local Open Scope Z_scope.

(** ** Python values and builtins *)

Module Py.

Inductive scalar :=
| VInt (z : Z)
| VFloat (f : float)
| VStr (s : string).

(** The exceptions the two modules raise, with their payload. *)
Inductive exn :=
| UnsupportedGridType (grid_type : option scalar)   (* TypeError, gridspec.py:57 *)
| CouldNotDetermine (desc : string)                 (* ValueError, gridspec.py:78 *)
| NoValidKey (keys : list string)                   (* ValueError, gridspec.py:80 *)
| NoScanningMode                                    (* ValueError, gridspec.py:127 *)
| NotInVocabulary (key : string)                    (* ValueError, gridspec.py:147 *)
| InvalidLabel                                      (* ValueError, gridspec.py:254 *)
| AssertionError
| TypeError                                         (* operand or argument of the wrong type *)
| ZeroDivisionError
| OverflowError
| KeyError (key : string)
| ImportError (name : string)                       (* metadata.py:376 *)
| External (msg : string).                          (* raised by a collaborator *)

Inductive result (A : Type) :=
| Ok (a : A)
| Err (e : exn).
Arguments Ok {A} a.
Arguments Err {A} e.

Definition bind {A B} (r : result A) (k : A -> result B) : result B :=
  match r with
  | Ok a => k a
  | Err e => Err e
  end.

#[global] Instance result_ret : MRet result := @Ok.
#[global] Instance result_bind : MBind result := fun A B k r => bind r k.

(** [PyLong_AsDouble]: the nearest double, ties to even; an [int] that
    rounds beyond the largest double raises [OverflowError]. *)
Definition float_of_Z (n : Z) : result float :=
  let f := SF2Prim (binary_normalize prec emax n 0 false) in
  if PrimFloat.is_infinity f then Err OverflowError else Ok f.

(** Exact comparison of a double with an [int] (Python never rounds the
    [int] for a comparison); [None] when the double is a NaN. *)
Definition float_cmp_Z (f : float) (n : Z) : option comparison :=
  match Prim2SF f with
  | S754_nan => None
  | S754_zero _ => Some (0 ?= n)
  | S754_infinity s => Some (if s then Lt else Gt)
  | S754_finite s m e =>
      let fm := cond_Zopp s (Zpos m) in
      Some (if 0 <=? e then fm * 2 ^ e ?= n else fm ?= n * 2 ^ (- e))
  end.

Definition float_cmp (f g : float) : option comparison :=
  SFcompare (Prim2SF f) (Prim2SF g).

(** Three-way comparison of two scalars where Python orders them:
    [Err TypeError] between a [str] and a number, [Ok None] with a NaN. *)
Definition py_cmp (a b : scalar) : result (option comparison) :=
  match a, b with
  | VInt x, VInt y => Ok (Some (x ?= y))
  | VFloat x, VFloat y => Ok (float_cmp x y)
  | VFloat x, VInt y => Ok (float_cmp_Z x y)
  | VInt x, VFloat y => Ok (CompOpp <$> float_cmp_Z y x)
  | VStr x, VStr y => Ok (Some (String.compare x y))
  | _, _ => Err TypeError
  end.

(** [a == b]; never raises, values of unrelated types are unequal. *)
Definition py_eq (a b : scalar) : bool :=
  match py_cmp a b with
  | Ok (Some Eq) => true
  | _ => false
  end.

(** [a == b] where either side may be [None]. *)
Definition py_eq_opt (a b : option scalar) : bool :=
  match a, b with
  | Some x, Some y => py_eq x y
  | None, None => true
  | _, _ => false
  end.

(** [a > b] and [a < b]; [None] on either side raises. *)
Definition py_gt (a b : option scalar) : result bool :=
  match a, b with
  | Some x, Some y =>
      bind (py_cmp x y) (fun c => Ok match c with Some Gt => true | _ => false end)
  | _, _ => Err TypeError
  end.

Definition py_lt (a b : option scalar) : result bool :=
  match a, b with
  | Some x, Some y =>
      bind (py_cmp x y) (fun c => Ok match c with Some Lt => true | _ => false end)
  | _, _ => Err TypeError
  end.

(** [max(a, b)] keeps [a] unless [b > a]; [min(a, b)] keeps [a] unless
    [b < a]. *)
Definition py_max (a b : option scalar) : result (option scalar) :=
  bind (py_gt b a) (fun g => Ok (if g then b else a)).

Definition py_min (a b : option scalar) : result (option scalar) :=
  bind (py_lt b a) (fun l => Ok (if l then b else a)).

Definition py_abs (a : option scalar) : result scalar :=
  match a with
  | Some (VInt x) => Ok (VInt (Z.abs x))
  | Some (VFloat x) => Ok (VFloat (PrimFloat.abs x))
  | _ => Err TypeError
  end.

Definition to_float (a : option scalar) : result float :=
  match a with
  | Some (VInt x) => float_of_Z x
  | Some (VFloat x) => Ok x
  | _ => Err TypeError
  end.

(** [a - b] *)
Definition py_sub (a b : option scalar) : result scalar :=
  match a, b with
  | Some (VInt x), Some (VInt y) => Ok (VInt (x - y))
  | Some (VStr _), _ | _, Some (VStr _) | None, _ | _, None => Err TypeError
  | _, _ =>
      bind (to_float a) (fun x =>
      bind (to_float b) (fun y => Ok (VFloat (x - y)%float)))
  end.

(** [a - y] with a [float] [y]; the result is a double. *)
Definition py_sub_float (a : option scalar) (y : float) : result float :=
  bind (to_float a) (fun x => Ok (x - y)%float).

(** [a / b] with a [float] divisor [b]: both operands become doubles, then
    a zero divisor raises. *)
Definition py_truediv_float (a : option scalar) (b : float) : result scalar :=
  bind (to_float a) (fun x =>
    if (b =? 0)%float then Err ZeroDivisionError
    else Ok (VFloat (x / b)%float)).

End Py.

(** ** gridspec.py: the GridSpec makers *)

Module GridSpecMaker.
Import Py.

(** The metadata a maker reads: [md.get(key, None)] is [md !! key]. *)
Abbreviation metadata := (gmap string scalar).

(** A value of the GridSpec dict: a scalar, a list whose items may be
    [None], or the [str] made of a label followed by the [repr] of a double
    (the decimal text of a double is not spelled out here). *)
Inductive gval :=
| GScalar (v : scalar)
| GList (l : list (option scalar))
| GLabelRepr (label : string) (N : float).

Abbreviation gridspec := (gmap string gval).

(** grib keys -> gridspec keys *)
Definition vocabulary : gmap string string :=
  list_to_map [
    ("Nx", "nx");
    ("Ny", "ny");
    ("Ni", "ni");
    ("Nj", "nj");
    ("DxInMetres", "dx_in_metres");
    ("DyInMetres", "dy_in_metres");
    ("xDirectionGridLengthInMetres", "dx_in_metres");
    ("yDirectionGridLengthInMetres", "dy_in_metres");
    ("LaDInDegrees", "lad");
    ("LoVInDegrees", "lov");
    ("Latin1InDegrees", "latin1");
    ("Latin2InDegrees", "latin2");
    ("latitudeOfSouthernPoleInDegrees", "lat_south_pole");
    ("longitudeOfSouthernPoleInDegrees", "lon_south_pole");
    ("orientationOfTheGridInDegrees", "orientation");
    ("jPointsAreConsecutive", "j_points_consecutive");
    ("iScansNegatively", "i_scans_negatively");
    ("jScansPositively", "j_scans_positively");
    ("angleOfRotationInDegrees", "angle_of_rotation");
    ("standardParallelInDegrees", "standard_parallel");
    ("centralLongitudeInDegrees", "central_longitude");
    ("shapeOfTheEarth", "shape_of_the_earth");
    ("radius", "radius");
    ("earthMajorAxis", "earth_major_axis");
    ("earthMinorAxis", "earth_minor_axis")
  ]%string.

Definition missing_is_none (x : option scalar) : option scalar :=
  if py_eq_opt x (Some (VInt 2147483647)) then None else x.

(** The concrete maker classes, in the order of the registry loop. *)
Inductive maker :=
| LatLonGridSpecMaker
| ReducedLatLonGridSpecMaker
| RotatedLatLonGridSpecMaker
| RegularGaussianGridSpecMaker
| ReducedGaussianGridSpecMaker
| RegularRotatedGaussianGridSpecMaker
| ReducedRotatedGaussianGridSpecMaker
| MercatorGridSpecMaker
| PolarStereographicGridSpecMaker
| LambertGridSpecMaker
| LambertAEAGridSpecMaker.

Definition GRID_TYPE (g : maker) : string :=
  match g with
  | LatLonGridSpecMaker => "regular_ll"
  | ReducedLatLonGridSpecMaker => "reduced_ll"
  | RotatedLatLonGridSpecMaker => "rotated_ll"
  | RegularGaussianGridSpecMaker => "regular_gg"
  | ReducedGaussianGridSpecMaker => "reduced_gg"
  | RegularRotatedGaussianGridSpecMaker => "rotated_gg"
  | ReducedRotatedGaussianGridSpecMaker => "reduced_rotated_gg"
  | MercatorGridSpecMaker => "mercator"
  | PolarStereographicGridSpecMaker => "polar_stereographic"
  | LambertGridSpecMaker => "lambert"
  | LambertAEAGridSpecMaker => "lambert_azimuthal_equal_area"
  end.

Definition ROTATED (g : maker) : bool :=
  match g with
  | RotatedLatLonGridSpecMaker
  | RegularRotatedGaussianGridSpecMaker
  | ReducedRotatedGaussianGridSpecMaker => true
  | _ => false
  end.

(** Subclasses of [GaussianGridSpecMaker], which overrides [west] and
    [east]. *)
Definition is_gaussian (g : maker) : bool :=
  match g with
  | RegularGaussianGridSpecMaker
  | ReducedGaussianGridSpecMaker
  | RegularRotatedGaussianGridSpecMaker
  | ReducedRotatedGaussianGridSpecMaker => true
  | _ => false
  end.

Definition POSITIVE_SCAN_DIR : Z := 1.
Definition NEGATIVE_SCAN_DIR : Z := -1.

Section Methods.
Variable md : metadata.

(** [md.get(key, default)] with a default other than [None]. *)
Definition get_default (key : string) (default : scalar) : scalar :=
  match md !! key with
  | Some v => v
  | None => default
  end.

(** The label the [__init__] of the Gaussian classes passes on. *)
Definition gaussian_label (g : maker) : string :=
  match g with
  | ReducedGaussianGridSpecMaker
  | ReducedRotatedGaussianGridSpecMaker =>
      let octahedral := py_eq (get_default "isOctahedral" (VInt 0)) (VInt 1) in
      if octahedral then "O" else "N"
  | _ => "F"
  end.

(** [__init__]: the Gaussian classes check their label, every class
    asserts that the metadata carries its own grid type. *)
Definition init (g : maker) : result unit :=
  _ ← (if is_gaussian g
       then (if bool_decide (gaussian_label g ∈ ["F"; "N"; "O"]%string)
             then Ok tt else Err InvalidLabel)
       else Ok tt);
  if py_eq_opt (md !! "gridType") (Some (VStr (GRID_TYPE g)))
  then Ok tt else Err AssertionError.

Fixpoint _get_first_valid (keys : list string) (desc : string)
    (all_keys : list string) : result scalar :=
  match keys with
  | k :: rest =>
      match md !! k with
      | Some v => Ok v
      | None => _get_first_valid rest desc all_keys
      end
  | [] =>
      if bool_decide (desc = ""%string)
      then Err (NoValidKey all_keys)
      else Err (CouldNotDetermine desc)
  end.

Definition first_lon : option scalar := md !! "longitudeOfFirstGridPointInDegrees".
Definition last_lon : option scalar := md !! "longitudeOfLastGridPointInDegrees".
Definition first_lat : option scalar := md !! "latitudeOfFirstGridPointInDegrees".
Definition last_lat : option scalar := md !! "latitudeOfLastGridPointInDegrees".

Definition north : result (option scalar) := py_max first_lat last_lat.
Definition south : result (option scalar) := py_min first_lat last_lat.

Definition x_scan_dir : result Z :=
  match md !! "iScansNegatively" with
  | Some v =>
      Ok (if py_eq v (VInt 0) then POSITIVE_SCAN_DIR else NEGATIVE_SCAN_DIR)
  | None =>
      match md !! "iScansPositively" with
      | Some v =>
          Ok (if py_eq v (VInt 1) then POSITIVE_SCAN_DIR else NEGATIVE_SCAN_DIR)
      | None => Err NoScanningMode
      end
  end.

Definition west (g : maker) : result (option scalar) :=
  if is_gaussian g then Ok first_lon
  else
    dir ← x_scan_dir;
    Ok (if dir =? POSITIVE_SCAN_DIR then first_lon else last_lon).

Definition east (g : maker) : result (option scalar) :=
  if is_gaussian g then Ok last_lon
  else
    dir ← x_scan_dir;
    Ok (if dir =? POSITIVE_SCAN_DIR then last_lon else first_lon).

Definition rotation : list (option scalar) :=
  [md !! "latitudeOfSouthernPoleInDegrees";
   md !! "longitudeOfSouthernPoleInDegrees"].

(** [[self.north(), self.west(), self.south(), self.east()]] *)
Definition area (g : maker) : result gval :=
  n ← north; w ← west g; s ← south; e ← east g;
  Ok (GList [n; w; s; e]).

Definition _add_one (key : string) (d : gridspec) : result gridspec :=
  match md !! key with
  | Some v =>
      match vocabulary !! key with
      | Some k => Ok (<[k := GScalar v]> d)
      | None => Err (NotInVocabulary key)
      end
  | None => Ok d
  end.

Fixpoint _add (keys : list string) (d : gridspec) : result gridspec :=
  match keys with
  | [] => Ok d
  | k :: rest => d' ← _add_one k d; _add rest d'
  end.

Definition _add_rotation (g : maker) (d : gridspec) : result gridspec :=
  if ROTATED g
  then _add_one "angleOfRotationInDegrees" (<["rotation" := GList rotation]> d)
  else Ok d.

Definition _add_scan_mode (d : gridspec) : result gridspec :=
  _add ["jPointsAreConsecutive"; "iScansNegatively"; "jScansPositively"]%string d.

Definition _add_earth (d : gridspec) : result gridspec :=
  _add ["shapeOfTheEarth"; "radius"; "earthMajorAxis"; "earthMinorAxis"]%string d.

(** The increment along one axis when no explicit increment key is set:
    [n = self._get_first_valid(keys, desc)], [range = last - first],
    then [1.0] if [n == 1] and [range / (n - 1.0)] otherwise. *)
Definition derived_increment (keys : list string) (desc : string)
    (first last : option scalar) : result (option scalar) :=
  n ← _get_first_valid keys desc keys;
  range ← py_sub last first;
  if py_eq n (VInt 1) then Ok (Some (VFloat 1))
  else
    divisor ← py_sub_float (Some n) 1;
    q ← py_truediv_float (Some range) divisor;
    Ok (Some q).

Definition derived_dx : result (option scalar) :=
  derived_increment ["numberOfPointsAlongAParallel"; "Ni"]%string
    "number of points in longitude" first_lon last_lon.

Definition derived_dy : result (option scalar) :=
  derived_increment ["numberOfPointsAlongAMeridian"; "Nj"]%string
    "number of points in latitude" first_lat last_lat.

(** [LatLonGridSpecMaker._get_grid] *)
Definition LatLon_get_grid : result (option scalar * option scalar) :=
  let dx := md !! "iDirectionIncrementInDegrees" in
  let dy := md !! "jDirectionIncrementInDegrees" in
  dx ← (if dx is None then derived_dx else Ok dx);
  dy ← (if dy is None then derived_dy else Ok dy);
  Ok (dx, dy).

(** [ReducedLatLonGridSpecMaker._get_grid] *)
Definition ReducedLatLon_get_grid : result (option scalar * option scalar) :=
  let dy := md !! "jDirectionIncrementInDegrees" in
  dy ← (if dy is None then derived_dy else Ok dy);
  Ok (None, dy).

Definition Mercator_get_grid : option scalar * option scalar :=
  (md !! "DiInMetres", md !! "DjInMetres").

(** [_get_grid] of the polar-stereographic and of the Lambert maker *)
Definition Metric_get_grid : option scalar * option scalar :=
  (md !! "DxInMetres", md !! "DyInMetres").

Definition LambertAEA_get_grid : result (scalar * scalar) :=
  dx ← _get_first_valid ["DyInMetres"; "xDirectionGridLengthInMetres"]%string
         "x grid increment in metres"
         ["DyInMetres"; "xDirectionGridLengthInMetres"]%string;
  dy ← _get_first_valid ["DyInMetres"; "yDirectionGridLengthInMetres"]%string
         "y grid increment in metres"
         ["DyInMetres"; "yDirectionGridLengthInMetres"]%string;
  Ok (dx, dy).

(** [[abs(dx), abs(dy)]] *)
Definition abs_pair (dx dy : option scalar) : result gval :=
  ax ← py_abs dx; ay ← py_abs dy; Ok (GList [Some ax; Some ay]).

Definition typed (g : maker) : gridspec :=
  <["type" := GScalar (VStr (GRID_TYPE g))]> ∅.

End Methods.

(** The [str] an f-string [f"{label}{v}"] builds. *)
Definition format_label (label : string) (v : option scalar) : gval :=
  match v with
  | None => GScalar (VStr (label ++ "None"))
  | Some (VInt z) => GScalar (VStr (label ++ pretty z))
  | Some (VStr s) => GScalar (VStr (label ++ s))
  | Some (VFloat f) => GLabelRepr label f
  end.

(** [LatLonGridSpecMaker.make], inherited by the rotated variant. *)
Definition LatLon_make (g : maker) (md : metadata) : result gridspec :=
  let d := typed g in
  '(dx, dy) ← LatLon_get_grid md;
  grid ← abs_pair dx dy;
  let d := <["grid" := grid]> d in
  a ← area md g;
  let d := <["area" := a]> d in
  d ← _add_rotation md g d;
  _add_scan_mode md d.

Definition ReducedLatLon_make (g : maker) (md : metadata) : result gridspec :=
  let d := typed g in
  '(_, dy) ← ReducedLatLon_get_grid md;
  ady ← py_abs dy;
  let d := <["grid" := GScalar ady]> d in
  a ← area md g;
  let d := <["area" := a]> d in
  d ← _add_rotation md g d;
  _add_scan_mode md d.

(** [GaussianGridSpecMaker.make] *)
Definition Gaussian_make (g : maker) (md : metadata) : result gridspec :=
  let d := typed g in
  let N := md !! "N" in
  let global_grid := py_eq (get_default md "global" (VInt 0)) (VInt 1) in
  let d := <["grid" := format_label (gaussian_label md g) N]> d in
  d ← (if negb global_grid then a ← area md g; Ok (<["area" := a]> d) else Ok d);
  d ← _add_rotation md g d;
  _add_scan_mode md d.

Definition Mercator_make (g : maker) (md : metadata) : result gridspec :=
  let d := typed g in
  let '(dx, dy) := Mercator_get_grid md in
  grid ← abs_pair dx dy;
  let d := <["grid" := grid]> d in
  a ← area md g;
  let d := <["area" := a]> d in
  d ← _add md ["Ni"; "Nj"; "LaDInDegrees"; "orientationOfTheGridInDegrees"]%string d;
  _add_scan_mode md d.

Definition PolarStereographic_make (g : maker) (md : metadata) : result gridspec :=
  let d := typed g in
  let '(dx, dy) := Metric_get_grid md in
  grid ← abs_pair dx dy;
  let d := <["grid" := grid]> d in
  let d := <["first_point" := GList [first_lat md; first_lon md]]> d in
  d ← _add md ["Nx"; "Ny"; "LaDInDegrees"; "orientationOfTheGridInDegrees"]%string d;
  _add_scan_mode md d.

Definition Lambert_make (g : maker) (md : metadata) : result gridspec :=
  let d := typed g in
  let '(dx, dy) := Metric_get_grid md in
  grid ← abs_pair dx dy;
  let d := <["grid" := grid]> d in
  let d := <["first_point" := GList [first_lat md; first_lon md]]> d in
  d ← _add md ["Nx"; "Ny"; "LaDInDegrees"; "LoVInDegrees";
               "LatIn1InDegrees"; "LatIn2InDegrees"]%string d;
  _add_scan_mode md d.

Definition LambertAEA_make (g : maker) (md : metadata) : result gridspec :=
  let d := typed g in
  '(dx, dy) ← LambertAEA_get_grid md;
  grid ← abs_pair (Some dx) (Some dy);
  let d := <["grid" := grid]> d in
  let d := <["first_point" := GList [first_lat md; first_lon md]]> d in
  d ← _add md ["Nx"; "Ny"; "standardParallelInDegrees";
               "centralLongitudeInDegrees"]%string d;
  _add_scan_mode md d.

(** [maker(metadata).make()], by method resolution on the class. *)
Definition make (g : maker) (md : metadata) : result gridspec :=
  match g with
  | LatLonGridSpecMaker | RotatedLatLonGridSpecMaker => LatLon_make g md
  | ReducedLatLonGridSpecMaker => ReducedLatLon_make g md
  | RegularGaussianGridSpecMaker | ReducedGaussianGridSpecMaker
  | RegularRotatedGaussianGridSpecMaker | ReducedRotatedGaussianGridSpecMaker =>
      Gaussian_make g md
  | MercatorGridSpecMaker => Mercator_make g md
  | PolarStereographicGridSpecMaker => PolarStereographic_make g md
  | LambertGridSpecMaker => Lambert_make g md
  | LambertAEAGridSpecMaker => LambertAEA_make g md
  end.

(** The registry loop: [grid_specs[g.GRID_TYPE] = g] for each class. *)
Definition grid_specs : gmap string maker :=
  foldl (fun acc g => <[GRID_TYPE g := g]> acc) ∅
    [ LatLonGridSpecMaker;
      ReducedLatLonGridSpecMaker;
      RotatedLatLonGridSpecMaker;
      RegularGaussianGridSpecMaker;
      ReducedGaussianGridSpecMaker;
      RegularRotatedGaussianGridSpecMaker;
      ReducedRotatedGaussianGridSpecMaker;
      MercatorGridSpecMaker;
      PolarStereographicGridSpecMaker;
      LambertGridSpecMaker;
      LambertAEAGridSpecMaker ].

(** [grid_type in grid_specs] and [grid_specs[grid_type]]: only a [str]
    can equal a key of the registry. *)
Definition registered (grid_type : option scalar) : option maker :=
  match grid_type with
  | Some (VStr s) => grid_specs !! s
  | _ => None
  end.

(** [GridSpec(d)]: the class lives in [earthkit.data.core.gridspec]; it is
    a [dict] holding the items of [d]. *)
Definition GridSpec (d : gridspec) : gridspec := d.

Definition make_gridspec (md : metadata) : result gridspec :=
  let grid_type := md !! "gridType" in
  match registered grid_type with
  | Some g =>
      _ ← init md g;
      d ← make g md;
      Ok (GridSpec d)
  | None => Err (UnsupportedGridType grid_type)
  end.

End GridSpecMaker.

(** ** metadata.py: geography, metadata facades and the restricted view *)

Module Metadata.
Import Py GridSpecMaker.

(** The identity of an object. *)
Abbreviation loc := positive.

Definition missing_is_none (x : option scalar) : option scalar :=
  if py_eq_opt x (Some (VInt 2147483647)) then None else x.

(** *** The ecCodes handle (external collaborator)

    A handle owns the keys of one message and its value buffer.  The typed
    accessors, the namespace iterator, [clone] and the setters belong to
    ecCodes; they are variables of the sections below. *)
Record handle := Handle {
  h_keys : gmap string scalar;
  h_values : list float
}.

Inductive ktype := KInt | KFloat | KStr.

Section Facade.
(** [ktype=...] of [GribCodesHandle.get]: the value read as that type. *)
Variable typed_value : ktype -> scalar -> scalar.

(** [handle.get(key, ktype=astype, default=default)], and without a
    [default] when [raise_on_missing] is set. *)
Definition handle_get (h : handle) (key : string) (astype : option ktype)
    (default : option scalar) (raise_on_missing : bool) : result (option scalar) :=
  match h_keys h !! key with
  | Some v => Ok (Some (match astype with Some t => typed_value t v | None => v end))
  | None => if raise_on_missing then Err (KeyError key) else Ok default
  end.

Definition _key_name (key : string) : string :=
  if bool_decide (key = "param"%string) then "shortName"
  else if bool_decide (key = "_param_id"%string) then "paramId"
  else key.

(** [GribMetadata._get] *)
Definition _get (h : handle) (key : string) (default : option scalar)
    (astype : option ktype) (raise_on_missing : bool) : result (option scalar) :=
  let key := _key_name key in
  v ← handle_get h key astype default raise_on_missing;
  if bool_decide (key = "shortName"%string) && py_eq_opt v (Some (VStr "~"))
  then handle_get h "paramId" (Some KStr) default raise_on_missing
  else Ok v.

(** [metadata.get(key, None)] for a key that is no custom accessor. *)
Definition get (h : handle) (key : string) : result (option scalar) :=
  _get h key None None false.

(** [GribFieldGeography.shape]; the tuple is a list. *)
Definition shape (h : handle) : result (list (option scalar)) :=
  Nj ← get h "Nj";
  let Nj := missing_is_none Nj in
  Ni ← get h "Ni";
  let Ni := missing_is_none Ni in
  if bool_decide (Ni = None) || bool_decide (Nj = None) then
    n ← get h "numberOfDataPoints";
    Ok [n]
  else Ok [Nj; Ni].

Definition NAMESPACES : list string :=
  ["default"; "ls"; "geography"; "mars"; "parameter"; "statistics"; "time";
   "vertical"]%string.

Section Namespaces.
(** [GribCodesHandle.as_namespace]: the keys and values ecCodes files under
    a namespace, all keys for [None]. *)
Variable codes_as_namespace : handle -> option string -> gmap string scalar.

(** [GribMetadata.as_namespace]; the argument is a [str] or [None]. *)
Definition as_namespace (h : handle) (namespace : option string)
    : gmap string scalar :=
  let namespace :=
    if bool_decide (namespace = Some "default"%string)
       || bool_decide (namespace = Some ""%string)
    then None else namespace in
  codes_as_namespace h namespace.

Definition namespaces : list string := NAMESPACES.

(** The [namespace] argument of [dump]: the builtin [all], a [str], a list
    of names, or [None]. *)
Inductive dump_arg :=
| DumpAll
| DumpStr (ns : string)
| DumpList (l : list (option string))
| DumpNone.

(** One entry of the list [dump] hands to [format_namespace_dump]. *)
Record group := Group {
  title : string;
  data : gmap string scalar;
  tooltip : string
}.

Definition group_of (ns : option string) (v : gmap string scalar) : group :=
  {| title := match ns with
              | Some s => if bool_decide (s = ""%string) then "default" else s
              | None => "default"
              end;
     data := v;
     tooltip := "Keys in the ecCodes " ++ default "None"%string ns ++ " namespace" |}.

(** The loop of [GribMetadata.dump] over the namespaces [l], for a facade
    whose [as_namespace] method is [as_ns]. *)
Fixpoint dump_loop (as_ns : option string -> gmap string scalar)
    (l : list (option string)) : list group :=
  match l with
  | [] => []
  | ns :: rest =>
      let v := as_ns ns in
      if bool_decide (v = ∅) then dump_loop as_ns rest
      else group_of ns v :: dump_loop as_ns rest
  end.

(** [GribMetadata.dump] up to the final call of [format_namespace_dump],
    which only lays the groups out: the list [r] of groups. *)
Definition dump (h : handle) (namespace : dump_arg) : result (list group) :=
  match namespace with
  | DumpAll => Ok (dump_loop (as_namespace h) (Some <$> namespaces))
  | DumpStr ns => Ok (dump_loop (as_namespace h) [Some ns])
  | DumpList l => Ok (dump_loop (as_namespace h) l)
  | DumpNone => Err TypeError
  end.

End Namespaces.

(** *** Objects and [override]

    Handles and facades are objects: the store maps the identity of each
    live object to its state.  A [GribFieldMetadata] reaches the handle of
    its field, a [StandAloneGribMetadata] owns one. *)

Inductive facade :=
| GribFieldMetadata (field_handle : loc)
| StandAloneGribMetadata (own_handle : loc).

Definition _handle (m : facade) : loc :=
  match m with
  | GribFieldMetadata l => l
  | StandAloneGribMetadata l => l
  end.

Record store := Store {
  handles : gmap loc handle;
  facades : gmap loc facade
}.

(** A value of the patch dict of [override]. *)
Inductive pval :=
| PNone
| PScalar (v : scalar)
| PGridSpec (g : gridspec).

Section Override.
(** [GribCodesHandle.clone(headers_only=...)]: the state of the new handle.
    By the contract of ecCodes, cloning does not change the handle it
    copies, and a setter changes the handle it is called on and no other. *)
Variable clone : bool -> handle -> handle.
(** The setters of a handle; they may raise. *)
Variable set_multiple : gmap string pval -> handle -> result handle.
Variable set_long : string -> scalar -> handle -> result handle.
Variable set_values : list float -> handle -> result handle.
(** [from earthkit.data.readers.grib.gridspec import GridSpecConverter],
    the first statement [override] runs for a patch with a gridspec: it
    raises [ImportError] when that module defines no [GridSpecConverter]
    (the [gridspec.py] of this repository defines none, see
    [gridspec_module_import] below) and returns when it defines one. *)
Variable import_GridSpecConverter : result unit.
(** [GridSpecConverter.to_metadata(gridspec, edition=edition)]: the key
    patch and the new number of values, if it changes. *)
Variable to_metadata : pval -> pval -> result (gmap string pval * option Z).

(** Computations on the store that may raise. *)
Definition M (A : Type) : Type := store -> result A * store.

Definition ret {A} (a : A) : M A := fun σ => (Ok a, σ).
Definition raise {A} (e : exn) : M A := fun σ => (Err e, σ).
Definition lift {A} (r : result A) : M A := fun σ => (r, σ).
Definition mbind' {A B} (c : M A) (k : A -> M B) : M B :=
  fun σ => match c σ with
           | (Ok a, σ') => k a σ'
           | (Err e, σ') => (Err e, σ')
           end.

#[local] Instance M_ret : MRet M := @ret.
#[local] Instance M_bind : MBind M := fun A B k c => mbind' c k.

Definition read_handle (l : loc) : M handle :=
  fun σ => match handles σ !! l with
           | Some h => (Ok h, σ)
           | None => (Err (External "dangling handle"), σ)
           end.

Definition read_facade (l : loc) : M facade :=
  fun σ => match facades σ !! l with
           | Some m => (Ok m, σ)
           | None => (Err (External "dangling metadata object"), σ)
           end.

Definition write_handle (l : loc) (h : handle) : M unit :=
  fun σ => (Ok tt, {| handles := <[l := h]> (handles σ); facades := facades σ |}).

Definition new_handle (h : handle) : M loc :=
  fun σ => let l := fresh (dom (handles σ)) in
           (Ok l, {| handles := <[l := h]> (handles σ); facades := facades σ |}).

Definition new_facade (m : facade) : M loc :=
  fun σ => let l := fresh (dom (facades σ)) in
           (Ok l, {| handles := handles σ; facades := <[l := m]> (facades σ) |}).

(** [self[key]], which the base class turns into [get] with
    [raise_on_missing=True]. *)
Definition getitem (self : loc) (key : string) : M (option scalar) :=
  m ← read_facade self;
  h ← read_handle (_handle m);
  lift (_get h key None None true).

(** [GribMetadata._copy_key] *)
Definition _copy_key (self : loc) (target_handle : loc) (key : string) : M unit :=
  m ← read_facade self;
  h ← read_handle (_handle m);
  t ← read_handle target_handle;
  v_ori ← lift (handle_get h key None None false);
  v_new ← lift (handle_get t key None None false);
  match v_ori, v_new with
  | Some o, Some n =>
      if negb (py_eq o n)
      then t' ← lift (set_long key o t); write_handle target_handle t'
      else ret tt
  | _, _ => ret tt
  end.

Definition zeros (n : Z) : list float := replicate (Z.to_nat n) 0%float.

(** [GribMetadata.override]; [d] is the dict built from the arguments. *)
Definition override (self : loc) (d : gmap string pval)
    (headers_only_clone : bool) : M loc :=
  let gridspec := default PNone (d !! "gridspec") in
  let d := delete "gridspec" d in
  '(d, new_value_size) ←
    (if gridspec is PNone then ret (d, None)
     else
       _ ← lift import_GridSpecConverter;
       ed ← getitem self "edition";
       let edition :=
         default (match ed with Some v => PScalar v | None => PNone end)
                 (d !! "edition") in
       '(md, new_value_size) ← lift (to_metadata gridspec edition);
       ret (md ∪ d, new_value_size));
  m ← read_facade self;
  h ← read_handle (_handle m);
  handle ← new_handle (clone headers_only_clone h);
  _ ← (if bool_decide (d !! "bitsPerValue" = None)
       then _copy_key self handle "bitsPerValue" else ret tt);
  _ ← (if bool_decide (d = ∅) then ret tt
       else
         c ← read_handle handle;
         c' ← lift (set_multiple d c);
         write_handle handle c');
  _ ← (match new_value_size with
       | Some n =>
           if 0 <? n then
             c ← read_handle handle;
             c' ← lift (set_values (zeros n) c);
             write_handle handle c'
           else ret tt
       | None => ret tt
       end);
  (* the clone is a handle of the expected type, so the type check of
     [StandAloneGribMetadata.__init__] passes *)
  new_facade (StandAloneGribMetadata handle).

End Override.

(** The import of [GridSpecConverter] from the [gridspec.py] embedded
    above, which defines [make_gridspec] and the makers and nothing of
    that name. *)
Definition gridspec_module_import : result unit :=
  Err (ImportError "GridSpecConverter").

(** *** RestrictedGribMetadata *)

Definition EKD_NAMESPACE : string := "grib".

Definition INTERNAL_KEYS : list string :=
  ["minimum"; "maximum"; "average"; "standardDeviation"; "skewness";
   "kurtosis"; "min"; "max"; "avg"; "sd"; "skew"; "kurt"; "const";
   "isConstant"; "numberOfMissing"; "numberOfCodedValues"; "bitmapPresent";
   "offsetValuesBy"; "packingError"; "referenceValue"; "referenceValueError";
   "unpackedError"; "values"; "latLonValues"]%string.

Definition INTERNAL_NAMESPACES : list string := ["statistics"]%string.

(** [s.partition(".")] *)
Fixpoint split_at_dot (s : string) : option (string * string) :=
  match s with
  | EmptyString => None
  | String c rest =>
      if Ascii.eqb c "." then Some (EmptyString, rest)
      else match split_at_dot rest with
           | Some (head, tail) => Some (String c head, tail)
           | None => None
           end
  end.

Definition partition (s : string) : string * string * string :=
  match split_at_dot s with
  | Some (head, tail) => (head, ".", tail)%string
  | None => (s, "", "")%string
  end.

(** The view: the wrapped standalone metadata (its handle state) and the
    [hidden] list that [__init__] hands to [WrappedMetadata]. *)
Record restricted := Restricted {
  metadata_handle : handle;
  hidden : list string
}.

(** [RestrictedGribMetadata(md)] *)
Definition restrict (σ : store) (md : loc) : result restricted :=
  match facades σ !! md with
  | Some (StandAloneGribMetadata l) =>
      match handles σ !! l with
      | Some h => Ok {| metadata_handle := h; hidden := INTERNAL_KEYS |}
      | None => Err (External "dangling handle")
      end
  | _ => Err AssertionError
  end.

Definition _is_hidden (self : restricted) (key : string) : bool :=
  let '(ns, _, name) := partition key in
  let '(ns, name) :=
    if bool_decide (name = ""%string) then (""%string, key) else (ns, name) in
  if bool_decide (ns = EKD_NAMESPACE) then false
  else bool_decide (name ∈ hidden self).

Section RestrictedView.
(** [WrappedMetadata.get], the method [super().get] resolves to; the class
    lives in [earthkit.data.core.metadata]. *)
Variable WrappedMetadata_get :
  restricted -> string -> option scalar -> option ktype -> bool ->
  result (option scalar).

(** [RestrictedGribMetadata.get] *)
Definition Restricted_get (self : restricted) (key : string)
    (default : option scalar) (astype : option ktype)
    (raise_on_missing : bool) : result (option scalar) :=
  let '(ns, _, name) := partition key in
  let '(ns, name) :=
    if bool_decide (name = ""%string) then (""%string, key) else (ns, name) in
  let key := if bool_decide (ns = EKD_NAMESPACE) then name else key in
  WrappedMetadata_get self key default astype raise_on_missing.

Variable codes_as_namespace : handle -> option string -> gmap string scalar.

(** [RestrictedGribMetadata.namespaces] *)
Definition Restricted_namespaces : list string :=
  if bool_decide (INTERNAL_NAMESPACES = [])
  then namespaces
  else filter (fun x => x ∉ INTERNAL_NAMESPACES) namespaces.

(** [RestrictedGribMetadata.as_namespace] *)
Definition Restricted_as_namespace (self : restricted)
    (namespace : option string) : gmap string scalar :=
  if (if namespace is Some s then bool_decide (s ∈ INTERNAL_NAMESPACES) else false)
  then ∅
  else
    let r := as_namespace codes_as_namespace (metadata_handle self) namespace in
    filter (fun kv => kv.1 ∉ INTERNAL_KEYS) r.

(** [RestrictedGribMetadata.dump]: the groups the wrapped metadata dumps. *)
Definition Restricted_dump (self : restricted) (namespace : dump_arg)
    : result (list group) :=
  let namespace :=
    if namespace is DumpAll then DumpList (Some <$> Restricted_namespaces)
    else namespace in
  dump codes_as_namespace (metadata_handle self) namespace.

End RestrictedView.
End Facade.
End Metadata.

(** * Properties *)

Import Py GridSpecMaker.

(** ** The registry *)

(** The eleven grid-type tags. *)
Definition grid_type_tags : list string :=
  ["regular_ll"; "reduced_ll"; "rotated_ll"; "regular_gg"; "reduced_gg";
   "rotated_gg"; "reduced_rotated_gg"; "mercator"; "polar_stereographic";
   "lambert"; "lambert_azimuthal_equal_area"]%string.

Lemma grid_specs_lookup (s : string) (g : maker) :
  grid_specs !! s = Some g ↔ s = GRID_TYPE g.
Proof.
  split.
  - unfold grid_specs; simpl.
    repeat (rewrite lookup_insert; destruct (decide _) as [<- | _];
            [ intros [= <-]; reflexivity | ]).
    rewrite lookup_empty. discriminate.
  - intros ->. destruct g; vm_compute; reflexivity.
Qed.

Lemma grid_specs_tags (s : string) :
  is_Some (grid_specs !! s) ↔ s ∈ grid_type_tags.
Proof.
  split.
  - intros [g Hg]. apply grid_specs_lookup in Hg as ->.
    destruct g; unfold grid_type_tags; simpl; set_solver.
  - unfold grid_type_tags. rewrite !elem_of_cons, elem_of_nil.
    intros H; repeat (destruct H as [-> | H]; [ vm_compute; eauto | ]).
    destruct H.
Qed.

Lemma registered_Some (v : option scalar) (g : maker) :
  registered v = Some g ↔ v = Some (VStr (GRID_TYPE g)).
Proof.
  unfold registered. destruct v as [[z | f | s] | ]; try (split; discriminate).
  rewrite grid_specs_lookup. split; [ intros -> | intros [= ->] ]; reflexivity.
Qed.

Lemma registered_None (v : option scalar) :
  registered v = None ↔ ∀ s, s ∈ grid_type_tags → v ≠ Some (VStr s).
Proof.
  split.
  - intros Hv s Hs ->. simpl in Hv.
    apply grid_specs_tags in Hs as [g Hg]. congruence.
  - intros Hv. destruct (registered v) as [g | ] eqn:Hg; [ | reflexivity ].
    apply registered_Some in Hg. exfalso. apply (Hv (GRID_TYPE g)); [ | exact Hg ].
    apply grid_specs_tags. exists g. apply grid_specs_lookup. reflexivity.
Qed.

(** C10. A metadata object whose [gridType] is none of the eleven registered
    tags (a different value, or no value at all) makes [make_gridspec] raise
    the unsupported-grid-type error that carries this value; it returns no
    GridSpec. *)
Theorem make_gridspec_unregistered (md : metadata) :
  (∀ s, s ∈ grid_type_tags → md !! "gridType" ≠ Some (VStr s)) →
  make_gridspec md = Err (UnsupportedGridType (md !! "gridType")).
Proof.
  intros Htag. apply registered_None in Htag.
  unfold make_gridspec. rewrite Htag. reflexivity.
Qed.

Definition md_spectral : metadata := <["gridType" := VStr "sh"]> ∅.

Lemma make_gridspec_unregistered_witness :
  make_gridspec md_spectral = Err (UnsupportedGridType (Some (VStr "sh")))
  ∧ make_gridspec ∅ = Err (UnsupportedGridType None).
Proof.
  split.
  - apply (make_gridspec_unregistered md_spectral).
    intros s Hs. apply registered_None with (s := s); [ | exact Hs ].
    vm_compute. reflexivity.
  - change (@None scalar) with ((∅ : metadata) !! "gridType").
    apply (make_gridspec_unregistered ∅).
    intros s Hs. apply registered_None with (s := s); [ | exact Hs ].
    vm_compute. reflexivity.
Defined.

(** ** Scan direction *)

(** C5. The i-direction scan sign comes from a two-key fallback: a present
    [iScansNegatively] alone decides (equal to 0: positive, otherwise
    negative); without it a present [iScansPositively] decides (equal to 1:
    positive, otherwise negative); without both the scanning-mode error is
    raised. *)
Theorem x_scan_dir_fallback (md : metadata) :
  (∀ v, md !! "iScansNegatively" = Some v →
        x_scan_dir md
        = Ok (if py_eq v (VInt 0) then POSITIVE_SCAN_DIR else NEGATIVE_SCAN_DIR))
  ∧ (∀ v, md !! "iScansNegatively" = None →
          md !! "iScansPositively" = Some v →
          x_scan_dir md
          = Ok (if py_eq v (VInt 1) then POSITIVE_SCAN_DIR else NEGATIVE_SCAN_DIR))
  ∧ (md !! "iScansNegatively" = None →
     md !! "iScansPositively" = None →
     x_scan_dir md = Err NoScanningMode).
Proof.
  unfold x_scan_dir. split; [ | split ].
  - intros v ->. reflexivity.
  - intros v -> ->. reflexivity.
  - intros -> ->. reflexivity.
Qed.

Lemma x_scan_dir_fallback_witness :
  x_scan_dir (<["iScansNegatively" := VInt 0]> (<["iScansPositively" := VInt 0]> ∅))
  = Ok POSITIVE_SCAN_DIR
  ∧ x_scan_dir (<["iScansNegatively" := VInt 1]> ∅) = Ok NEGATIVE_SCAN_DIR
  ∧ x_scan_dir (<["iScansPositively" := VInt 1]> ∅) = Ok POSITIVE_SCAN_DIR
  ∧ x_scan_dir (<["iScansPositively" := VInt 0]> ∅) = Ok NEGATIVE_SCAN_DIR
  ∧ x_scan_dir ∅ = Err NoScanningMode.
Proof.
  split; [ | split; [ | split; [ | split ] ] ].
  - apply (proj1 (x_scan_dir_fallback _) (VInt 0)). vm_compute. reflexivity.
  - apply (proj1 (x_scan_dir_fallback _) (VInt 1)). vm_compute. reflexivity.
  - apply (proj1 (proj2 (x_scan_dir_fallback _)) (VInt 1)); vm_compute; reflexivity.
  - apply (proj1 (proj2 (x_scan_dir_fallback _)) (VInt 0)); vm_compute; reflexivity.
  - apply (proj2 (proj2 (x_scan_dir_fallback _))); vm_compute; reflexivity.
Defined.

(** ** The regular lat-lon scenario *)

Definition md_regular_ll : metadata :=
  list_to_map [
    ("gridType", VStr "regular_ll");
    ("Ni", VInt 2);
    ("Nj", VInt 2);
    ("longitudeOfFirstGridPointInDegrees", VInt 0);
    ("longitudeOfLastGridPointInDegrees", VInt 10);
    ("latitudeOfFirstGridPointInDegrees", VInt 0);
    ("latitudeOfLastGridPointInDegrees", VInt (-10));
    ("iScansNegatively", VInt 0)
  ]%string.

(** [{type: "regular_ll", grid: [10.0, 10.0], area: [0, 0, -10, 10]}] *)
Definition gs_regular_ll : gridspec :=
  list_to_map [
    ("type", GScalar (VStr "regular_ll"));
    ("grid", GList [Some (VFloat 10); Some (VFloat 10)]);
    ("area", GList [Some (VInt 0); Some (VInt 0); Some (VInt (-10)); Some (VInt 10)])
  ]%string.

(** C7, as stated, fails: the GridSpec made from the scenario is not the
    three-key mapping, it also carries the scan-mode flag of the metadata. *)
Lemma regular_ll_scenario_not_three_keys :
  make_gridspec md_regular_ll ≠ Ok gs_regular_ll.
Proof.
  intros H.
  assert (Hk : match make_gridspec md_regular_ll with
               | Ok d => d !! "i_scans_negatively"
               | Err _ => None
               end = gs_regular_ll !! "i_scans_negatively") by (rewrite H; reflexivity).
  vm_compute in Hk. discriminate Hk.
Qed.

(** C7, amended. For the regular lat-lon metadata object with [Ni=2],
    [Nj=2], first/last longitude 0/10, first/last latitude 0/-10 and
    [iScansNegatively=0], [make_gridspec] returns the GridSpec
    [{type: "regular_ll", grid: [10.0, 10.0], area: [0, 0, -10, 10],
    i_scans_negatively: 0}]. *)
Theorem regular_ll_scenario :
  make_gridspec md_regular_ll
  = Ok (<["i_scans_negatively" := GScalar (VInt 0)]> gs_regular_ll).
Proof. vm_compute. reflexivity. Qed.

(** ** The Lambert azimuthal equal-area increments *)

Lemma LambertAEA_dx_from_dy (md : metadata) (v : scalar) :
  md !! "DyInMetres" = Some v → LambertAEA_get_grid md = Ok (v, v).
Proof. intros H. unfold LambertAEA_get_grid. simpl. rewrite H. reflexivity. Qed.

(** A cell of 5000 m by 3000 m; ecCodes serves both spellings of each
    increment. *)
Definition md_laea (dx : Z) : metadata :=
  list_to_map [
    ("gridType", VStr "lambert_azimuthal_equal_area");
    ("Nx", VInt 3);
    ("Ny", VInt 2);
    ("latitudeOfFirstGridPointInDegrees", VInt 60);
    ("longitudeOfFirstGridPointInDegrees", VInt 10);
    ("DxInMetres", VInt dx);
    ("DyInMetres", VInt 3000);
    ("xDirectionGridLengthInMetres", VInt dx);
    ("yDirectionGridLengthInMetres", VInt 3000);
    ("standardParallelInDegrees", VInt 52);
    ("centralLongitudeInDegrees", VInt 10)
  ]%string.

Definition gs_laea : gridspec :=
  list_to_map [
    ("type", GScalar (VStr "lambert_azimuthal_equal_area"));
    ("grid", GList [Some (VInt 3000); Some (VInt 3000)]);
    ("first_point", GList [Some (VInt 60); Some (VInt 10)]);
    ("nx", GScalar (VInt 3));
    ("ny", GScalar (VInt 2));
    ("standard_parallel", GScalar (VInt 52));
    ("central_longitude", GScalar (VInt 10))
  ]%string.

Lemma make_gridspec_laea (dx : Z) : make_gridspec (md_laea dx) = Ok gs_laea.
Proof. reflexivity. Qed.

(** C8 at a grid with [DxInMetres = 5000] and [DyInMetres = 3000]: the
    maker reads the x increment from [DyInMetres], so the GridSpec has
    [grid = [3000, 3000]] where the claim has [[5000, 3000]]. *)
Theorem laea_grid_reads_dy_for_dx :
  md_laea 5000 !! "DxInMetres" = Some (VInt 5000)
  ∧ md_laea 5000 !! "xDirectionGridLengthInMetres" = Some (VInt 5000)
  ∧ md_laea 5000 !! "DyInMetres" = Some (VInt 3000)
  ∧ LambertAEA_get_grid (md_laea 5000) = Ok (VInt 3000, VInt 3000)
  ∧ make_gridspec (md_laea 5000) = Ok gs_laea
  ∧ gs_laea !! "grid" = Some (GList [Some (VInt 3000); Some (VInt 3000)]).
Proof. vm_compute. repeat split. Qed.

(** ** Derive, then reconstitute *)

Lemma laea_pair_same_gridspec (k : string) (to_metadata : gridspec → metadata) :
  (∀ dx, md_laea dx !! k = Some (VInt dx)) →
  ∃ md g gs,
    registered (md !! "gridType") = Some g
    ∧ make_gridspec md = Ok gs
    ∧ to_metadata gs !! k ≠ md !! k.
Proof.
  intros Hk.
  assert (Hpick : ∀ dx, to_metadata gs_laea !! k ≠ Some (VInt dx) →
                   ∃ md g gs,
                     registered (md !! "gridType") = Some g
                     ∧ make_gridspec md = Ok gs
                     ∧ to_metadata gs !! k ≠ md !! k).
  { intros dx Hne. exists (md_laea dx), LambertAEAGridSpecMaker, gs_laea.
    split; [ reflexivity | split; [ apply make_gridspec_laea | ] ].
    rewrite Hk. exact Hne. }
  destruct (to_metadata gs_laea !! k) as [[z | f | s] | ] eqn:Hv.
  - destruct (decide (z = 5000)) as [-> | Hz].
    + apply (Hpick 7000). discriminate.
    + apply (Hpick 5000). congruence.
  - apply (Hpick 5000). discriminate.
  - apply (Hpick 5000). discriminate.
  - apply (Hpick 5000). discriminate.
Qed.

(** C1 cannot hold for any converter: two Lambert azimuthal equal-area
    grids that differ in their x increment have the same GridSpec, so
    whatever key patch [to_metadata] returns for a GridSpec, there is a
    registered metadata object whose x increment it does not reproduce,
    under either spelling of the key. *)
Theorem no_converter_round_trips (to_metadata : gridspec → metadata) :
  Forall (fun k =>
            ∃ md g gs,
              registered (md !! "gridType") = Some g
              ∧ make_gridspec md = Ok gs
              ∧ to_metadata gs !! k ≠ md !! k)
         ["xDirectionGridLengthInMetres"; "DxInMetres"]%string.
Proof.
  repeat constructor; apply laea_pair_same_gridspec; intros dx; reflexivity.
Qed.

(** ** The missing-value sentinel *)

Definition md_sentinel : metadata :=
  <["numberOfPointsAlongAParallel" := VInt 2147483647]> md_regular_ll.

Lemma _get_first_valid_head (md : metadata) k v rest desc all_keys :
  md !! k = Some v → _get_first_valid md (k :: rest) desc all_keys = Ok v.
Proof. intros H. simpl. rewrite H. reflexivity. Qed.

(** C4 at a regular lat-lon grid whose [numberOfPointsAlongAParallel] is the
    sentinel and whose [Ni] is 2: [missing_is_none] maps the sentinel to
    [None], but the point-count lookup of the maker returns the sentinel as
    the valid value, and the x increment becomes [10 / 2147483646.0]
    instead of the [10.0] that [Ni] gives. *)
Theorem sentinel_point_count_is_valid_for_maker :
  GridSpecMaker.missing_is_none (Some (VInt 2147483647)) = None
  ∧ _get_first_valid md_sentinel ["numberOfPointsAlongAParallel"; "Ni"]%string
      "number of points in longitude" ["numberOfPointsAlongAParallel"; "Ni"]%string
    = Ok (VInt 2147483647)
  ∧ LatLon_get_grid md_sentinel
    = Ok (Some (VFloat 0x1.4000000500000p-28), Some (VFloat (-10)))
  ∧ make_gridspec md_sentinel
    = Ok (<["grid" := GList [Some (VFloat 0x1.4000000500000p-28); Some (VFloat 10)]]>
            (<["i_scans_negatively" := GScalar (VInt 0)]> gs_regular_ll)).
Proof.
  split; [ | split; [ | split ] ]; vm_compute; reflexivity.
Qed.

Import Metadata.

Lemma get_plain typed_value (h : handle) (k : string) :
  k ≠ "param"%string → k ≠ "_param_id"%string → k ≠ "shortName"%string →
  get typed_value h k = Ok (h_keys h !! k).
Proof.
  intros H1 H2 H3. unfold get, _get, _key_name, handle_get.
  rewrite (bool_decide_eq_false_2 (k = "param"%string)) by assumption.
  rewrite (bool_decide_eq_false_2 (k = "_param_id"%string)) by assumption.
  rewrite (bool_decide_eq_false_2 (k = "shortName"%string)) by assumption.
  destruct (h_keys h !! k); reflexivity.
Qed.

(** [shape] applies the sentinel: a sentinel [Ni] or [Nj] gives the 1-tuple
    of [numberOfDataPoints]. *)
Lemma shape_sentinel typed_value (h : handle) :
  h_keys h !! "Ni" = Some (VInt 2147483647)
  ∨ h_keys h !! "Nj" = Some (VInt 2147483647) →
  shape typed_value h = Ok [h_keys h !! "numberOfDataPoints"].
Proof.
  intros H. unfold shape. rewrite !get_plain by discriminate. simpl.
  assert (Hs : missing_is_none (Some (VInt 2147483647)) = None) by reflexivity.
  destruct H as [-> | ->]; rewrite Hs; simpl.
  - reflexivity.
  - rewrite orb_true_r. reflexivity.
Qed.

(** ** The restricted view *)

Section RestrictedGet.
Variable WrappedMetadata_get :
  restricted → string → option scalar → option ktype → bool →
  result (option scalar).

Lemma split_at_dot_grib (k : string) :
  split_at_dot ("grib." ++ k) = Some ("grib"%string, k).
Proof. reflexivity. Qed.

(** With the escape prefix the lookup is the base lookup of the bare name. *)
Lemma Restricted_get_escape self k default astype raise_on_missing :
  k ≠ ""%string →
  Restricted_get WrappedMetadata_get self ("grib." ++ k) default astype raise_on_missing
  = WrappedMetadata_get self k default astype raise_on_missing.
Proof.
  intros Hk. unfold Restricted_get, partition. rewrite split_at_dot_grib.
  rewrite bool_decide_eq_false_2 by exact Hk. reflexivity.
Qed.

(** The plain name of a hidden key goes to the base lookup unchanged. *)
Lemma Restricted_get_plain self default astype raise_on_missing :
  Forall (fun k =>
            Restricted_get WrappedMetadata_get self k default astype raise_on_missing
            = WrappedMetadata_get self k default astype raise_on_missing)
         INTERNAL_KEYS.
Proof. unfold INTERNAL_KEYS. repeat constructor. Qed.

Lemma INTERNAL_KEYS_nonempty : Forall (fun k => k ≠ ""%string) INTERNAL_KEYS.
Proof. unfold INTERNAL_KEYS. repeat constructor; discriminate. Qed.

(** C2 at every hidden key [k]: [get("grib." + k)] strips the prefix and
    then makes the very call that [get(k)] makes, so the two lookups return
    the same result, whatever the base class does with a hidden name; the
    claim has the default for one and the stored value for the other. *)
Theorem restricted_get_escape_is_plain_get
    (self : restricted) (default : option scalar) (astype : option ktype)
    (raise_on_missing : bool) :
  Forall (fun k =>
            Restricted_get WrappedMetadata_get self ("grib." ++ k)
              default astype raise_on_missing
            = Restricted_get WrappedMetadata_get self k
                default astype raise_on_missing)
         INTERNAL_KEYS.
Proof.
  pose proof (Restricted_get_plain self default astype raise_on_missing) as Hplain.
  pose proof INTERNAL_KEYS_nonempty as Hne.
  rewrite Forall_forall in *. intros k Hk.
  rewrite (Hplain k Hk). apply Restricted_get_escape, Hne, Hk.
Qed.

(** Hence no hidden key that the wrapped metadata holds can be both absent
    under its plain name and present under the escape prefix. *)
Lemma restricted_get_cannot_hide_and_reveal
    (self : restricted) (k : string) (v : scalar) :
  k ∈ INTERNAL_KEYS →
  ¬ (Restricted_get WrappedMetadata_get self k None None false = Ok None
     ∧ Restricted_get WrappedMetadata_get self ("grib." ++ k) None None false
       = Ok (Some v)).
Proof.
  intros Hk [Hplain Hescape].
  pose proof (Restricted_get_plain self None None false) as Hall.
  pose proof INTERNAL_KEYS_nonempty as Hne.
  rewrite Forall_forall in *.
  rewrite Restricted_get_escape in Hescape by (apply Hne, Hk).
  rewrite (Hall k Hk) in Hplain. congruence.
Qed.

(** If the base lookup answers a name that [_is_hidden] hides with the
    default, the escape prefix reveals nothing: the prefixed lookup of a
    hidden key gives the default as well. *)
Lemma restricted_get_escape_hidden (self : restricted) (default : option scalar)
    (astype : option ktype) :
  hidden self = INTERNAL_KEYS →
  (∀ key, _is_hidden self key = true →
          WrappedMetadata_get self key default astype false = Ok default) →
  Forall (fun k =>
            Restricted_get WrappedMetadata_get self ("grib." ++ k)
              default astype false = Ok default)
         INTERNAL_KEYS.
Proof.
  intros Hhid Hbase.
  pose proof INTERNAL_KEYS_nonempty as Hne.
  assert (Hall : Forall (fun k => _is_hidden self k = true) INTERNAL_KEYS).
  { unfold _is_hidden. rewrite Hhid. unfold INTERNAL_KEYS.
    repeat constructor. }
  rewrite Forall_forall in *. intros k Hk.
  rewrite Restricted_get_escape by (apply Hne, Hk).
  apply Hbase, Hall, Hk.
Qed.

End RestrictedGet.

Section RestrictedNamespaces.
Variable codes_as_namespace : handle → option string → gmap string scalar.

(** [namespaces()] of the view is the list without [statistics]. *)
Lemma Restricted_namespaces_spec :
  Restricted_namespaces
  = ["default"; "ls"; "geography"; "mars"; "parameter"; "time"; "vertical"]%string
  ∧ ∀ ns, ns ∈ Restricted_namespaces ↔ ns ∈ namespaces ∧ ns ∉ INTERNAL_NAMESPACES.
Proof.
  split; [ reflexivity | ].
  intros ns. unfold Restricted_namespaces.
  rewrite bool_decide_eq_false_2 by discriminate.
  rewrite list_elem_of_filter. tauto.
Qed.

(** [as_namespace] of the view is empty for the internal namespace and
    holds no hidden key for any other. *)
Lemma Restricted_as_namespace_spec (self : restricted) :
  (∀ ns, ns ∈ INTERNAL_NAMESPACES →
         Restricted_as_namespace codes_as_namespace self (Some ns) = ∅)
  ∧ (∀ ns k, k ∈ INTERNAL_KEYS →
             Restricted_as_namespace codes_as_namespace self ns !! k = None)
  ∧ (∀ ns k, (∀ s, ns = Some s → s ∉ INTERNAL_NAMESPACES) →
             k ∉ INTERNAL_KEYS →
             Restricted_as_namespace codes_as_namespace self ns !! k
             = as_namespace codes_as_namespace (metadata_handle self) ns !! k).
Proof.
  unfold Restricted_as_namespace. split; [ | split ].
  - intros ns Hns. rewrite bool_decide_eq_true_2 by exact Hns. reflexivity.
  - intros ns k Hk. case_match; [ apply lookup_empty | ].
    apply map_lookup_filter_None. right. intros v _ Hn. exact (Hn Hk).
  - intros ns k Hns Hk.
    destruct ns as [s | ].
    + rewrite bool_decide_eq_false_2 by (apply Hns; reflexivity).
      destruct (as_namespace _ _ _ !! k) as [v | ] eqn:Hv.
      * apply map_lookup_filter_Some. split; [ exact Hv | exact Hk ].
      * apply map_lookup_filter_None. left. exact Hv.
    + destruct (as_namespace _ _ _ !! k) as [v | ] eqn:Hv.
      * apply map_lookup_filter_Some. split; [ exact Hv | exact Hk ].
      * apply map_lookup_filter_None. left. exact Hv.
Qed.

End RestrictedNamespaces.

(** A message with one descriptive and one statistics key; ecCodes files
    [average] under [statistics], and every key under no namespace. *)
Definition h_2t : handle :=
  {| h_keys := list_to_map [("shortName", VStr "2t"); ("average", VFloat 273.5)]%string;
     h_values := [] |}.

Definition ns_2t (h : handle) (namespace : option string) : gmap string scalar :=
  match namespace with
  | None => h_keys h
  | Some ns =>
      if bool_decide (ns = "statistics"%string)
      then filter (fun kv => kv.1 = "average"%string) (h_keys h)
      else if bool_decide (ns = "parameter"%string)
      then filter (fun kv => kv.1 = "shortName"%string) (h_keys h)
      else ∅
  end.

Definition view_2t : restricted :=
  {| metadata_handle := h_2t; hidden := INTERNAL_KEYS |}.

(** C6 at a view over a message that holds [shortName] and [average]:
    [as_namespace] strips the hidden key and empties the internal namespace,
    but [dump()] hands the loop to the wrapped metadata, whose own
    [as_namespace] strips nothing: the [default] group still holds
    [average], and a dump of [statistics] by name returns that namespace. *)
Theorem restricted_dump_keeps_hidden_keys :
  Restricted_as_namespace ns_2t view_2t (Some "default"%string)
  = {[ "shortName"%string := VStr "2t" ]}
  ∧ Restricted_as_namespace ns_2t view_2t (Some "statistics"%string) = ∅
  ∧ Restricted_dump ns_2t view_2t DumpAll
    = Ok [ {| title := "default";
              data := list_to_map [("shortName", VStr "2t");
                                   ("average", VFloat 273.5)]%string;
              tooltip := "Keys in the ecCodes default namespace" |};
           {| title := "parameter";
              data := {[ "shortName"%string := VStr "2t" ]};
              tooltip := "Keys in the ecCodes parameter namespace" |} ]
  ∧ Restricted_dump ns_2t view_2t (DumpStr "statistics")
    = Ok [ {| title := "statistics";
              data := {[ "average"%string := VFloat 273.5 ]};
              tooltip := "Keys in the ecCodes statistics namespace" |} ].
Proof.
  split; [ | split; [ | split ] ]; vm_compute; reflexivity.
Qed.

(** Running a computation on a store in which the lookups are known. *)
Ltac run_store Hm Hc :=
  repeat first [ rewrite Hm | rewrite Hc | rewrite lookup_insert_eq
               | progress cbn [handles facades] | progress cbv beta iota ].

(** ** [override] and the store *)

Section OverrideFrame.
Variable typed_value : ktype → scalar → scalar.
Variable clone : bool → handle → handle.
Variable set_multiple : gmap string pval → handle → result handle.
Variable set_long : string → scalar → handle → result handle.
Variable set_values : list float → handle → result handle.
Variable import_GridSpecConverter : result unit.
Variable to_metadata : pval → pval → result (gmap string pval * option Z).

Abbreviation override_ :=
  (override typed_value clone set_multiple set_long set_values
     import_GridSpecConverter to_metadata).

(** [σ'] keeps every object of [σ] in the state it has in [σ]. *)
Definition preserves (σ σ' : store) : Prop :=
  (∀ l h, handles σ !! l = Some h → handles σ' !! l = Some h)
  ∧ (∀ l m, facades σ !! l = Some m → facades σ' !! l = Some m).

Lemma preserves_refl σ : preserves σ σ.
Proof. split; auto. Qed.

(** A triple for computations on the store: from a state in [P] the
    computation ends in [Q] when it returns and in [E] when it raises. *)
Definition triple {A} (P : store → Prop) (c : M A)
    (Q : A → store → Prop) (E : store → Prop) : Prop :=
  ∀ σ, P σ → match c σ with
             | (Ok a, σ') => Q a σ'
             | (Err _, σ') => E σ'
             end.

Lemma triple_bind {A B} P (c : M A) (k : A → M B) Q R E :
  triple P c Q E → (∀ a, triple (Q a) (k a) R E) → triple P (mbind' c k) R E.
Proof.
  intros Hc Hk σ HP. unfold mbind'. specialize (Hc σ HP).
  destruct (c σ) as [[a | e] σ1]; [ apply (Hk a σ1 Hc) | exact Hc ].
Qed.

Lemma triple_weaken {A} (P P' : store → Prop) (c : M A) (Q Q' : A → store → Prop) E :
  triple P' c Q' E → (∀ σ, P σ → P' σ) → (∀ a σ, Q' a σ → Q a σ) →
  triple P c Q E.
Proof.
  intros Hc HP HQ σ Hσ. specialize (Hc σ (HP σ Hσ)).
  destruct (c σ) as [[a | e] σ1]; auto.
Qed.

Lemma triple_ret {A} (P : store → Prop) (a : A) E :
  triple P (ret a) (fun b σ => b = a ∧ P σ) E.
Proof. intros σ HP. simpl. auto. Qed.

Lemma triple_lift {A} (P E : store → Prop) (r : result A) :
  (∀ σ, P σ → E σ) → triple P (lift r) (fun a σ => r = Ok a ∧ P σ) E.
Proof. intros HE σ HP. unfold lift. destruct r; auto. Qed.

Lemma triple_read_handle (P E : store → Prop) l :
  (∀ σ, P σ → E σ) →
  triple P (read_handle l) (fun h σ => handles σ !! l = Some h ∧ P σ) E.
Proof.
  intros HE σ HP. unfold read_handle.
  destruct (handles σ !! l) eqn:Hl; auto.
Qed.

Lemma triple_read_facade (P E : store → Prop) l :
  (∀ σ, P σ → E σ) →
  triple P (read_facade l) (fun m σ => facades σ !! l = Some m ∧ P σ) E.
Proof.
  intros HE σ HP. unfold read_facade.
  destruct (facades σ !! l) eqn:Hl; auto.
Qed.

(** Computations that only read the store. *)
Definition readonly {A} (c : M A) : Prop := ∀ σ, (c σ).2 = σ.

Lemma readonly_ret {A} (a : A) : readonly (ret a).
Proof. intros σ. reflexivity. Qed.

Lemma readonly_lift {A} (r : result A) : readonly (lift r).
Proof. intros σ. reflexivity. Qed.

Lemma readonly_read_handle l : readonly (read_handle l).
Proof. intros σ. unfold read_handle. destruct (handles σ !! l); reflexivity. Qed.

Lemma readonly_read_facade l : readonly (read_facade l).
Proof. intros σ. unfold read_facade. destruct (facades σ !! l); reflexivity. Qed.

Lemma readonly_bind {A B} (c : M A) (k : A → M B) :
  readonly c → (∀ a, readonly (k a)) → readonly (mbind' c k).
Proof.
  intros Hc Hk σ. unfold mbind'. specialize (Hc σ).
  destruct (c σ) as [[a | e] σ1]; simpl in *; subst; [ apply Hk | reflexivity ].
Qed.

Lemma readonly_getitem self key : readonly (getitem typed_value self key).
Proof.
  unfold getitem, mbind, M_bind.
  apply readonly_bind; [ apply readonly_read_facade | intros m ].
  apply readonly_bind; [ apply readonly_read_handle | intros h ].
  apply readonly_lift.
Qed.

Lemma triple_readonly {A} (P E : store → Prop) (c : M A) :
  readonly c → (∀ σ, P σ → E σ) → triple P c (fun _ => P) E.
Proof.
  intros Hc HE σ HP. specialize (Hc σ).
  destruct (c σ) as [[a | e] σ1]; simpl in *; subst; auto.
Qed.

Section From.
(** The store [override] starts from. *)
Variable σ0 : store.

(** The state while the clone [c] is being patched: the objects of [σ0] are
    as they were, and [c] is a live handle that [σ0] does not have. *)
Definition patching (c : loc) (σ : store) : Prop :=
  preserves σ0 σ ∧ handles σ0 !! c = None ∧ is_Some (handles σ !! c).

Lemma patching_preserves c σ : patching c σ → preserves σ0 σ.
Proof. intros [H _]. exact H. Qed.

Lemma triple_new_handle h :
  triple (preserves σ0) (new_handle h) patching (preserves σ0).
Proof.
  intros σ [Hh Hf]. unfold new_handle. simpl.
  pose proof (is_fresh (dom (handles σ))) as Hfresh.
  set (l := fresh (dom (handles σ))) in *.
  apply not_elem_of_dom in Hfresh.
  assert (Hl0 : handles σ0 !! l = None).
  { destruct (handles σ0 !! l) as [h0 | ] eqn:H0; [ | reflexivity ].
    apply Hh in H0. congruence. }
  split; [ split | split ]; simpl.
  - intros l' h' Hl'. rewrite lookup_insert_ne; [ auto | congruence ].
  - exact Hf.
  - exact Hl0.
  - rewrite lookup_insert_eq. eauto.
Qed.

Lemma triple_write_clone c h :
  triple (patching c) (write_handle c h) (fun _ => patching c) (preserves σ0).
Proof.
  intros σ [[Hh Hf] [Hc0 Hc]]. unfold write_handle. simpl.
  split; [ split | split ]; simpl.
  - intros l' h' Hl'. rewrite lookup_insert_ne; [ auto | congruence ].
  - exact Hf.
  - exact Hc0.
  - rewrite lookup_insert_eq. eauto.
Qed.

(** A setter applied to the clone. *)
Lemma triple_set_clone c (f : handle → result handle) :
  triple (patching c)
    (mbind' (read_handle c) (fun h =>
       mbind' (lift (f h)) (fun h' => write_handle c h')))
    (fun _ => patching c) (preserves σ0).
Proof.
  eapply triple_bind; [ apply triple_read_handle, patching_preserves | ].
  intros h. eapply triple_bind.
  - apply triple_lift. intros σ [_ H]. apply patching_preserves in H. exact H.
  - intros h'. eapply triple_weaken; [ apply triple_write_clone | | ]; simpl; tauto.
Qed.

Lemma triple_copy_key self c key :
  triple (patching c) (_copy_key typed_value set_long self c key)
    (fun _ => patching c) (preserves σ0).
Proof.
  unfold _copy_key, mbind, M_bind.
  eapply triple_bind; [ apply triple_read_facade, patching_preserves | ].
  intros m. eapply triple_bind.
  { apply triple_read_handle. intros σ [_ H]. eapply patching_preserves, H. }
  intros h. eapply triple_bind.
  { apply triple_read_handle. intros σ (_ & _ & H). eapply patching_preserves, H. }
  intros t. eapply triple_bind.
  { apply triple_lift. intros σ (_ & _ & _ & H). eapply patching_preserves, H. }
  intros v_ori. eapply triple_bind.
  { apply triple_lift. intros σ (_ & _ & _ & _ & H). eapply patching_preserves, H. }
  intros v_new.
  assert (Hskip : triple
            (fun σ => handle_get typed_value t key None None false = Ok v_new
                      ∧ handle_get typed_value h key None None false = Ok v_ori
                      ∧ handles σ !! c = Some t
                      ∧ handles σ !! _handle m = Some h
                      ∧ facades σ !! self = Some m ∧ patching c σ)
            (ret tt) (fun _ => patching c) (preserves σ0)).
  { intros σ H. simpl. tauto. }
  destruct v_ori as [o | ]; [ | exact Hskip ].
  destruct v_new as [n | ]; [ | exact Hskip ].
  destruct (negb (py_eq o n)); [ | exact Hskip ].
  eapply triple_bind.
  { apply triple_lift. intros σ (_ & _ & _ & _ & _ & H). eapply patching_preserves, H. }
  intros t'. eapply triple_weaken; [ apply triple_write_clone | | ]; simpl; tauto.
Qed.

(** What [override] on [self] leaves behind when it returns [new]. *)
Definition overridden (self new : loc) (σ : store) : Prop :=
  preserves σ0 σ
  ∧ facades σ0 !! new = None
  ∧ (∃ m h, facades σ0 !! self = Some m ∧ handles σ0 !! _handle m = Some h)
  ∧ ∃ c, facades σ !! new = Some (StandAloneGribMetadata c)
         ∧ handles σ0 !! c = None
         ∧ is_Some (handles σ !! c).

Lemma triple_new_facade (live : Prop) c :
  triple (fun σ => live ∧ patching c σ) (new_facade (StandAloneGribMetadata c))
    (fun new σ => preserves σ0 σ
                  ∧ facades σ0 !! new = None
                  ∧ live
                  ∧ ∃ c, facades σ !! new = Some (StandAloneGribMetadata c)
                         ∧ handles σ0 !! c = None
                         ∧ is_Some (handles σ !! c))
    (preserves σ0).
Proof.
  intros σ [Hlive [[Hh Hf] [Hc0 Hc]]]. unfold new_facade. simpl.
  pose proof (is_fresh (dom (facades σ))) as Hfresh.
  set (l := fresh (dom (facades σ))) in *.
  apply not_elem_of_dom in Hfresh.
  assert (Hl0 : facades σ0 !! l = None).
  { destruct (facades σ0 !! l) as [m0 | ] eqn:H0; [ | reflexivity ].
    apply Hf in H0. congruence. }
  split; [ split | split; [ | split ] ]; simpl.
  - exact Hh.
  - intros l' m' Hl'. rewrite lookup_insert_ne; [ auto | congruence ].
  - exact Hl0.
  - exact Hlive.
  - exists c. rewrite lookup_insert_eq. auto.
Qed.

Lemma triple_frame_pure {A} (φ : Prop) P (c : M A) Q E :
  triple P c Q E →
  triple (fun σ => φ ∧ P σ) c (fun a σ => φ ∧ Q a σ) E.
Proof.
  intros Hc σ [Hφ HP]. specialize (Hc σ HP).
  destruct (c σ) as [[a | e] σ1]; auto.
Qed.

Lemma triple_override self d headers_only_clone :
  triple (fun σ => σ = σ0)
    (override_ self d headers_only_clone)
    (overridden self) (preserves σ0).
Proof.
  assert (Hrefl : ∀ σ, σ = σ0 → preserves σ0 σ)
    by (intros ? ->; apply preserves_refl).
  unfold override, mbind, M_bind.
  eapply triple_bind with (Q := fun _ σ => σ = σ0).
  { apply triple_readonly; [ | exact Hrefl ].
    destruct (default PNone (d !! "gridspec")) as [ | v | g ];
      [ apply readonly_ret | | ];
      (apply readonly_bind; [ apply readonly_lift | intros _ ];
       apply readonly_bind; [ apply readonly_getitem | intros ed ];
       apply readonly_bind; [ apply readonly_lift | intros [md n] ];
       apply readonly_ret). }
  intros [d' new_value_size].
  eapply triple_bind; [ apply triple_read_facade, Hrefl | ].
  intros m.
  eapply triple_bind.
  { apply triple_read_handle. intros σ [_ H]. auto. }
  intros h.
  set (live := ∃ m h, facades σ0 !! self = Some m ∧ handles σ0 !! _handle m = Some h).
  eapply triple_bind with (Q := fun c σ => live ∧ patching c σ).
  { eapply triple_weaken; [ apply (triple_frame_pure live), triple_new_handle | | ].
    - intros σ (Hh & Hm & ->). split; [ exists m, h; auto | apply preserves_refl ].
    - auto. }
  intros c.
  eapply triple_bind with (Q := fun _ σ => live ∧ patching c σ).
  { case_match; [ apply triple_frame_pure, triple_copy_key | ].
    apply triple_readonly; [ apply readonly_ret | ].
    intros σ [_ Hpat]. eapply patching_preserves, Hpat. }
  intros _.
  eapply triple_bind with (Q := fun _ σ => live ∧ patching c σ).
  { case_match; [ | apply triple_frame_pure, triple_set_clone ].
    apply triple_readonly; [ apply readonly_ret | ].
    intros σ [_ Hpat]. eapply patching_preserves, Hpat. }
  intros _.
  eapply triple_bind with (Q := fun _ σ => live ∧ patching c σ).
  { destruct new_value_size as [n | ]; [ destruct (0 <? n) | ];
      [ apply triple_frame_pure, triple_set_clone | | ];
      (apply triple_readonly; [ apply readonly_ret | ];
       intros σ [_ Hpat]; eapply patching_preserves, Hpat). }
  intros _. apply triple_new_facade.
Qed.

End From.

(** *** When [override] returns *)

Definition returns {A} (c : M A) (σ : store) (Q : A → store → Prop) : Prop :=
  ∃ a σ', c σ = (Ok a, σ') ∧ Q a σ'.

Lemma returns_bind {A B} (c : M A) (k : A → M B) σ Q R :
  returns c σ Q → (∀ a σ', Q a σ' → returns (k a) σ' R) →
  returns (mbind' c k) σ R.
Proof.
  intros (a & σ1 & Hc & HQ) Hk. unfold returns, mbind'. rewrite Hc.
  apply (Hk a σ1 HQ).
Qed.

(** The state in which the clone [c] of the handle of [self] can be
    patched without a failing lookup. *)
Definition patchable (self c : loc) (σ : store) : Prop :=
  (∃ m h, facades σ !! self = Some m ∧ handles σ !! _handle m = Some h)
  ∧ is_Some (handles σ !! c).

Lemma returns_write_clone self c h σ :
  patchable self c σ →
  returns (write_handle c h) σ (fun _ => patchable self c).
Proof.
  intros [(m & h0 & Hm & Hh) Hc]. exists tt. eexists. split; [ reflexivity | ].
  split; simpl.
  - exists m. destruct (decide (c = _handle m)) as [-> | Hne].
    + exists h. rewrite lookup_insert_eq. auto.
    + exists h0. rewrite lookup_insert_ne by exact Hne. auto.
  - rewrite lookup_insert_eq. eauto.
Qed.

Lemma returns_set_clone self c (f : handle → result handle) σ :
  (∀ t, ∃ t', f t = Ok t') →
  patchable self c σ →
  returns (mbind' (read_handle c) (fun h =>
             mbind' (lift (f h)) (fun h' => write_handle c h')))
    σ (fun _ => patchable self c).
Proof.
  intros Hf HP. pose proof HP as [_ [t Ht]].
  eapply returns_bind with (Q := fun h σ' => σ' = σ).
  { exists t, σ. unfold read_handle. rewrite Ht. auto. }
  intros h ? ->. destruct (Hf h) as [t' Ht'].
  eapply returns_bind with (Q := fun h σ' => σ' = σ).
  { exists t', σ. unfold lift. rewrite Ht'. auto. }
  intros h' ? ->. apply returns_write_clone, HP.
Qed.

Lemma returns_copy_key self c key σ :
  (∀ k v t, ∃ t', set_long k v t = Ok t') →
  patchable self c σ →
  returns (_copy_key typed_value set_long self c key) σ (fun _ => patchable self c).
Proof.
  intros Hlong HP. pose proof HP as [(m & h & Hm & Hh) [t Ht]].
  unfold _copy_key, mbind, M_bind.
  eapply returns_bind with (Q := fun a σ' => a = m ∧ σ' = σ).
  { exists m, σ. unfold read_facade. rewrite Hm. auto. }
  intros ? ? [-> ->].
  eapply returns_bind with (Q := fun a σ' => σ' = σ).
  { exists h, σ. unfold read_handle. rewrite Hh. auto. }
  intros h1 ? ->.
  eapply returns_bind with (Q := fun a σ' => σ' = σ).
  { exists t, σ. unfold read_handle. rewrite Ht. auto. }
  intros t1 ? ->.
  eapply returns_bind with (Q := fun a σ' => σ' = σ).
  { unfold returns, lift, handle_get. destruct (h_keys h1 !! key); eauto. }
  intros v_ori ? ->.
  eapply returns_bind with (Q := fun a σ' => σ' = σ).
  { unfold returns, lift, handle_get. destruct (h_keys t1 !! key); eauto. }
  intros v_new ? ->.
  assert (Hskip : returns (ret tt) σ (fun _ => patchable self c))
    by (exists tt, σ; auto).
  destruct v_ori as [o | ]; [ | exact Hskip ].
  destruct v_new as [n | ]; [ | exact Hskip ].
  destruct (negb (py_eq o n)); [ | exact Hskip ].
  destruct (Hlong key o t1) as [t' Ht'].
  eapply returns_bind with (Q := fun a σ' => σ' = σ).
  { exists t', σ. unfold lift. rewrite Ht'. auto. }
  intros ? ? ->. apply returns_write_clone, HP.
Qed.

Lemma override_returns σ self d headers_only_clone m h :
  facades σ !! self = Some m →
  handles σ !! _handle m = Some h →
  default PNone (d !! "gridspec") = PNone →
  (∀ k v t, ∃ t', set_long k v t = Ok t') →
  (∀ p t, ∃ t', set_multiple p t = Ok t') →
  returns (override_ self d headers_only_clone) σ (fun _ _ => True).
Proof.
  intros Hm Hh Hgs Hlong Hmult.
  unfold override, mbind, M_bind. rewrite Hgs.
  eapply returns_bind with (Q := fun a σ' => a.2 = None ∧ σ' = σ).
  { eexists _, σ. split; [ reflexivity | auto ]. }
  intros [d' nvs] ? [Hnvs ->]. simpl in Hnvs. subst nvs.
  eapply returns_bind with (Q := fun a σ' => a = m ∧ σ' = σ).
  { exists m, σ. unfold read_facade. rewrite Hm. auto. }
  intros ? ? [-> ->].
  eapply returns_bind with (Q := fun a σ' => σ' = σ).
  { exists h, σ. unfold read_handle. rewrite Hh. auto. }
  intros h1 ? ->.
  eapply returns_bind with (Q := fun c σ' => patchable self c σ').
  { eexists _, _. split; [ reflexivity | ].
    pose proof (is_fresh (dom (handles σ))) as Hfresh.
    set (l := fresh (dom (handles σ))) in *.
    apply not_elem_of_dom in Hfresh.
    split; simpl.
    - exists m, h. rewrite lookup_insert_ne by congruence. auto.
    - rewrite lookup_insert_eq. eauto. }
  intros c σ1 HP.
  eapply returns_bind with (Q := fun _ σ' => patchable self c σ').
  { case_match; [ apply returns_copy_key; assumption | ].
    exists tt, σ1. auto. }
  intros _ σ2 HP2.
  eapply returns_bind with (Q := fun _ σ' => patchable self c σ').
  { case_match; [ exists tt, σ2; auto | ].
    apply returns_set_clone; [ apply Hmult | assumption ]. }
  intros _ σ3 HP3.
  eapply returns_bind with (Q := fun _ σ' => True).
  { exists tt, σ3. auto. }
  intros _ σ4 _. eexists _, _. split; [ reflexivity | exact I ].
Qed.

(** *** The handle [override] makes

    What the new handle holds, as a function of the state [h] of the
    original handle: the clone of [h], patched. *)

(** The clone after [_copy_key]: the key is set again when the original
    and the clone both have it, with values that differ. *)
Definition copy_key (h c : handle) (key : string) : result handle :=
  match h_keys h !! key, h_keys c !! key with
  | Some o, Some n => if negb (py_eq o n) then set_long key o c else Ok c
  | _, _ => Ok c
  end.

(** The keys [set_multiple] is called with and the new number of values:
    the patch without [gridspec], under the keys of the converter when
    there is a gridspec. *)
Definition patch_for (h : handle) (d : gmap string pval)
    : result (gmap string pval * option Z) :=
  let gridspec := default PNone (d !! "gridspec") in
  let d := delete "gridspec" d in
  if gridspec is PNone then Ok (d, None)
  else
    _ ← import_GridSpecConverter;
    ed ← _get typed_value h "edition" None None true;
    let edition :=
      default (match ed with Some v => PScalar v | None => PNone end)
              (d !! "edition") in
    '(md, new_value_size) ← to_metadata gridspec edition;
    Ok (md ∪ d, new_value_size).

(** The clone after the three patching steps. *)
Definition patch_clone (h c : handle) (d : gmap string pval)
    (new_value_size : option Z) : result handle :=
  c ← (if bool_decide (d !! "bitsPerValue" = None)
       then copy_key h c "bitsPerValue" else Ok c);
  c ← (if bool_decide (d = ∅) then Ok c else set_multiple d c);
  match new_value_size with
  | Some n => if 0 <? n then set_values (zeros n) c else Ok c
  | None => Ok c
  end.

Definition patched (h : handle) (d : gmap string pval) (headers_only_clone : bool)
    : result handle :=
  '(d, new_value_size) ← patch_for h d;
  patch_clone h (clone headers_only_clone h) d new_value_size.

Lemma override_patched σ self d headers_only_clone m h :
  facades σ !! self = Some m →
  handles σ !! _handle m = Some h →
  match override_ self d headers_only_clone σ with
  | (Ok new, σ') =>
      ∃ c hf, patched h d headers_only_clone = Ok hf
              ∧ facades σ' !! new = Some (StandAloneGribMetadata c)
              ∧ handles σ' !! c = Some hf
  | (Err e, _) => patched h d headers_only_clone = Err e
  end.
Proof.
  intros Hm Hh.
  pose proof (is_fresh (dom (handles σ))) as Hfresh.
  apply not_elem_of_dom in Hfresh.
  assert (Hne : fresh (dom (handles σ)) ≠ _handle m) by congruence.
  assert (Hc : ∀ x, <[fresh (dom (handles σ)) := x]> (handles σ) !! _handle m = Some h)
    by (intros x; rewrite lookup_insert_ne by exact Hne; exact Hh).
  unfold patched, patch_for, override.
  lazymatch goal with
  | |- match (@mbind _ _ _ _ ?k ?first) σ with _ => _ end =>
      set (K := k); set (F := first)
  end.
  (* the steps after the patch [d'] and the size [n] are known *)
  assert (Htail : ∀ d' n,
    match K (d', n) σ with
    | (Ok new, σ') =>
        ∃ c hf, patch_clone h (clone headers_only_clone h) d' n = Ok hf
                ∧ facades σ' !! new = Some (StandAloneGribMetadata c)
                ∧ handles σ' !! c = Some hf
    | (Err e, _) => patch_clone h (clone headers_only_clone h) d' n = Err e
    end).
  { intros d' n. subst K. unfold patch_clone, copy_key.
    unfold mbind, M_bind, mbind', ret, read_facade, read_handle, new_handle, lift,
      write_handle, new_facade, _copy_key, handle_get.
    cbv beta iota zeta. rewrite Hm. cbv beta iota. rewrite Hh. cbv beta iota.
    unfold mbind, M_bind, mbind', ret, read_facade, read_handle, lift, write_handle,
      result_bind, bind.
    destruct (bool_decide (d' !! "bitsPerValue" = None)); run_store Hm Hc;
      [ destruct (h_keys h !! "bitsPerValue") as [o | ],
          (h_keys (clone headers_only_clone h) !! "bitsPerValue") as [o' | ];
          run_store Hm Hc;
          try (destruct (negb (py_eq o o')); run_store Hm Hc;
               try (destruct (set_long "bitsPerValue" o (clone headers_only_clone h))
                      as [t | e]; run_store Hm Hc));
          try reflexivity | ];
      (destruct (bool_decide (d' = ∅)); run_store Hm Hc;
       try (destruct (set_multiple d' _) as [t' | e']; run_store Hm Hc);
       try reflexivity;
       (destruct n as [n | ]; [ destruct (0 <? n) | ]; run_store Hm Hc;
        try (destruct (set_values (zeros n) _) as [t'' | e'']; run_store Hm Hc);
        try reflexivity;
        eexists _, _; cbn [handles facades]; rewrite !lookup_insert_eq; auto)). }
  assert (Hed : getitem typed_value self "edition" σ
                = (_get typed_value h "edition" None None true, σ)).
  { unfold getitem, mbind, M_bind, mbind', read_facade, read_handle, lift.
    rewrite Hm, Hh. reflexivity. }
  unfold mbind, M_bind, mbind'. subst F. cbv zeta.
  destruct (default PNone (d !! "gridspec")) as [ | v | g ].
  - unfold mbind, result_bind, bind. cbn [ret]. apply Htail.
  - unfold mbind, M_bind, mbind', lift, result_bind, bind.
    destruct import_GridSpecConverter as [[] | e]; [ | reflexivity ].
    rewrite Hed.
    destruct (_get typed_value h "edition" None None true) as [ed | e]; [ | reflexivity ].
    cbv beta iota zeta.
    destruct (to_metadata _ _) as [[md n] | e]; [ | reflexivity ].
    cbn [ret]. apply Htail.
  - unfold mbind, M_bind, mbind', lift, result_bind, bind.
    destruct import_GridSpecConverter as [[] | e]; [ | reflexivity ].
    rewrite Hed.
    destruct (_get typed_value h "edition" None None true) as [ed | e]; [ | reflexivity ].
    cbv beta iota zeta.
    destruct (to_metadata _ _) as [[md n] | e]; [ | reflexivity ].
    cbn [ret]. apply Htail.
Qed.

(** C3. [m.override(patch)] leaves every handle and every metadata object
    of the store in the state it had, also when it raises, so every key of
    [m] and of its handle reads as before; what it returns is a new object,
    a [StandAloneGribMetadata] on a new handle, neither of which existed
    before (so they are neither [m] nor its handle); the new handle holds
    the clone of the handle of [m], patched: [bitsPerValue] copied back
    when the patch does not set it, then the keys of the patch set, then
    the values zeroed when a gridspec changes their number, and an error
    of any of these steps is the error of [override]; and it does return
    when [m] is live, the patch has no [gridspec] and the setters of the
    clone do not raise. *)
Theorem override_immutable (σ : store) (self : loc) (d : gmap string pval)
    (headers_only_clone : bool) :
  let run := override_ self d headers_only_clone σ in
  ((∀ l h, handles σ !! l = Some h → handles run.2 !! l = Some h)
   ∧ (∀ l m, facades σ !! l = Some m → facades run.2 !! l = Some m))
  ∧ (∀ new, run.1 = Ok new →
       new ≠ self
       ∧ facades σ !! new = None
       ∧ ∃ c, facades run.2 !! new = Some (StandAloneGribMetadata c)
              ∧ handles σ !! c = None
              ∧ is_Some (handles run.2 !! c)
              ∧ ∃ m, facades σ !! self = Some m ∧ c ≠ _handle m)
  ∧ (∀ m h, facades σ !! self = Some m → handles σ !! _handle m = Some h →
       (∀ new, run.1 = Ok new →
          ∃ c hf, facades run.2 !! new = Some (StandAloneGribMetadata c)
                  ∧ handles run.2 !! c = Some hf
                  ∧ patched h d headers_only_clone = Ok hf)
       ∧ (∀ e, run.1 = Err e → patched h d headers_only_clone = Err e))
  ∧ (∀ m h, facades σ !! self = Some m → handles σ !! _handle m = Some h →
       default PNone (d !! "gridspec") = PNone →
       (∀ k v t, ∃ t', set_long k v t = Ok t') →
       (∀ p t, ∃ t', set_multiple p t = Ok t') →
       ∃ new, run.1 = Ok new).
Proof.
  intros run.
  pose proof (triple_override σ self d headers_only_clone σ eq_refl) as H.
  fold run in H. split; [ | split; [ | split ] ].
  - destruct run as [[new | e] σ']; [ apply H | exact H ].
  - intros new Hnew. destruct run as [[new' | e] σ']; simpl in *; [ | discriminate ].
    injection Hnew as ->.
    destruct H as (Hp & Hnone & (m & h & Hm & Hh) & c & Hc & Hc0 & Hlive).
    split; [ intros ->; congruence | ].
    split; [ exact Hnone | ].
    exists c. repeat (split; [ assumption | ]).
    exists m. split; [ exact Hm | congruence ].
  - intros m h Hm Hh.
    pose proof (override_patched σ self d headers_only_clone m h Hm Hh) as Hpat.
    fold run in Hpat. clear H.
    destruct run as [[new' | e'] σ']; simpl; split.
    + intros new [= <-]. destruct Hpat as (c & hf & Hp & Hnew & Hc). eauto.
    + intros e [=].
    + intros new [=].
    + intros e [= <-]. exact Hpat.
  - intros m h Hm Hh Hgs Hlong Hmult.
    destruct (override_returns σ self d headers_only_clone m h Hm Hh Hgs Hlong Hmult)
      as (new & σ' & Hrun & _).
    exists new. unfold run. rewrite Hrun. reflexivity.
Qed.

End OverrideFrame.

(** A store with one field metadata object on one handle, and setters that
    store what they are given. *)
Definition h_msl : handle :=
  {| h_keys := list_to_map [("shortName", VStr "msl"); ("bitsPerValue", VInt 16)]%string;
     h_values := [] |}.

Definition σ_msl : store :=
  {| handles := {[ 1%positive := h_msl ]};
     facades := {[ 1%positive := GribFieldMetadata 1 ]} |}.

Definition store_keys (p : gmap string pval) (h : handle) : result handle :=
  Ok {| h_keys := omap (fun v => if v is PScalar x then Some x else None) p ∪ h_keys h;
        h_values := h_values h |}.

Definition store_long (k : string) (v : scalar) (h : handle) : result handle :=
  Ok {| h_keys := <[k := v]> (h_keys h); h_values := h_values h |}.

Definition store_values (vs : list float) (h : handle) : result handle :=
  Ok {| h_keys := h_keys h; h_values := vs |}.

Definition no_converter (g edition : pval)
    : result (gmap string pval * option Z) :=
  Err (External "GridSpecConverter").

Lemma override_immutable_witness :
  let run := override (fun _ v => v) (fun _ h => h) store_keys store_long
               store_values gridspec_module_import no_converter 1%positive
               {[ "shortName"%string := PScalar (VStr "2t") ]} true σ_msl in
  handles run.2 !! 1%positive = Some h_msl
  ∧ facades run.2 !! 1%positive = Some (GribFieldMetadata 1)
  ∧ ∃ new, run.1 = Ok new ∧ new ≠ 1%positive
           ∧ ∃ c hf, facades run.2 !! new = Some (StandAloneGribMetadata c)
                     ∧ handles run.2 !! c = Some hf
                     ∧ h_keys hf !! "shortName" = Some (VStr "2t")
                     ∧ h_keys hf !! "bitsPerValue" = Some (VInt 16).
Proof.
  intros run.
  destruct (override_immutable (fun _ v => v) (fun _ h => h) store_keys store_long
              store_values gridspec_module_import no_converter σ_msl 1%positive
              {[ "shortName"%string := PScalar (VStr "2t") ]} true)
    as ((Hh & Hf) & Hnew & Hstate & Hret).
  fold run in Hh, Hf, Hnew, Hstate, Hret.
  split; [ apply Hh; reflexivity | ].
  split; [ apply Hf; reflexivity | ].
  destruct (Hret (GribFieldMetadata 1) h_msl) as [new Hrun].
  - reflexivity.
  - reflexivity.
  - reflexivity.
  - intros k v t. eexists. reflexivity.
  - intros p t. eexists. reflexivity.
  - exists new. split; [ exact Hrun | ]. split; [ apply (Hnew new Hrun) | ].
    destruct (Hstate (GribFieldMetadata 1) h_msl eq_refl eq_refl) as [Hok _].
    destruct (Hok new Hrun) as (c & hf & Hfac & Hhan & Hpat).
    exists c, hf. split; [ exact Hfac | split; [ exact Hhan | ] ].
    vm_compute in Hpat. injection Hpat as <-. split; vm_compute; reflexivity.
Defined.

(** ** Doubles

    Facts about binary64 rounding, from the specification of the primitive
    doubles ([SpecFloat]): rounding a non-zero mantissa never gives a zero,
    only the integer 1 converts to [1.0], and only [1.0] has a zero
    difference with [1.0]. *)

Module Doubles.

Abbreviation fexp64 := (fexp prec emax).

Lemma fexp64_eq x : fexp64 x = Z.max (x - 53) (-1074).
Proof. reflexivity. Qed.

Lemma digits2_pos_size p : digits2_pos p = Pos.size p.
Proof. induction p; simpl; congruence. Qed.

Lemma Zdigits2_log2 m : 0 < m → Zdigits2 m = Z.log2 m + 1.
Proof.
  destruct m as [ | p | p ]; try lia. intros _. simpl.
  rewrite digits2_pos_size. destruct p; simpl; lia.
Qed.

Lemma shr_m_shr_1 r : 0 <= shr_m r → shr_m (shr_1 r) = shr_m r / 2.
Proof.
  destruct r as [m r s]. simpl. intros Hm.
  destruct m as [ | [p | p | ] | p ]; try lia; cbn [shr_m shr_1].
  - reflexivity.
  - apply Z.div_unique with 1; lia.
  - apply Z.div_unique with 0; lia.
  - reflexivity.
Qed.

Lemma pow2_xO p : 2 ^ Z.pos p~0 = 2 ^ Z.pos p * 2 ^ Z.pos p.
Proof. change (Z.pos p~0) with (2 * Z.pos p). apply Z.pow_twice_r. Qed.

Lemma pow2_xI p : 2 ^ Z.pos p~1 = 2 * (2 ^ Z.pos p * 2 ^ Z.pos p).
Proof.
  change (Z.pos p~1) with (2 * Z.pos p + 1).
  rewrite Z.pow_add_r, Z.pow_twice_r, Z.pow_1_r by lia. lia.
Qed.

Lemma shr_m_iter p : ∀ r, 0 <= shr_m r →
  shr_m (SpecFloat.iter_pos shr_1 p r) = shr_m r / 2 ^ Z.pos p.
Proof.
  induction p as [p IH | p IH | ]; intros r Hr; simpl SpecFloat.iter_pos.
  - assert (H1 : 0 <= shr_m (shr_1 r)) by (rewrite shr_m_shr_1 by lia; apply Z.div_pos; lia).
    assert (H2 : 0 <= shr_m (SpecFloat.iter_pos shr_1 p (shr_1 r)))
      by (rewrite IH by lia; apply Z.div_pos; lia).
    rewrite IH, IH, shr_m_shr_1 by lia.
    rewrite !Z.div_div by lia. rewrite pow2_xI. reflexivity.
  - assert (H2 : 0 <= shr_m (SpecFloat.iter_pos shr_1 p r))
      by (rewrite IH by lia; apply Z.div_pos; lia).
    rewrite IH, IH by lia.
    rewrite !Z.div_div by lia. rewrite pow2_xO. reflexivity.
  - rewrite shr_m_shr_1 by lia. reflexivity.
Qed.

Lemma shr_record_of_loc_m m l : shr_m (shr_record_of_loc m l) = m.
Proof. destruct l as [ | [ | | ] ]; reflexivity. Qed.

(** One [shr_fexp] step on a positive mantissa that has at least the
    digits its exponent allows. *)
Lemma shr_fexp_spec m e l mrs e' :
  0 < m → -1074 <= e → e <= fexp64 (Zdigits2 m + e) →
  shr_fexp prec emax m e l = (mrs, e') →
  0 < shr_m mrs
  ∧ e' = fexp64 (Zdigits2 m + e)
  ∧ Zdigits2 (shr_m mrs) + e' = Zdigits2 m + e.
Proof.
  intros Hm He Hfe. unfold shr_fexp, shr.
  pose proof (Z.log2_nonneg m) as Hlog.
  rewrite (Zdigits2_log2 m Hm) in *. rewrite fexp64_eq in *.
  destruct (Z.max (Z.log2 m + 1 + e - 53) (-1074) - e) as [ | n | n ] eqn:Hn;
    intros [= <- <-].
  - rewrite shr_record_of_loc_m. rewrite (Zdigits2_log2 m Hm). lia.
  - rewrite shr_m_iter by (rewrite shr_record_of_loc_m; lia).
    rewrite shr_record_of_loc_m.
    assert (Hlt : Z.pos n <= Z.log2 m) by lia.
    rewrite <- Z.shiftr_div_pow2 by lia.
    assert (Hl : Z.log2 (Z.shiftr m (Z.pos n)) = Z.log2 m - Z.pos n)
      by (rewrite Z.log2_shiftr by lia; lia).
    assert (Hpos : 0 < Z.shiftr m (Z.pos n)).
    { rewrite Z.shiftr_div_pow2 by lia. apply Z.div_str_pos. split; [ lia | ].
      transitivity (2 ^ Z.log2 m); [ apply Z.pow_le_mono_r; lia | ].
      apply Z.log2_spec; lia. }
    rewrite (Zdigits2_log2 _ Hpos). lia.
  - lia.
Qed.

Lemma round_nearest_even_bounds m l :
  m <= round_nearest_even m l <= m + 1.
Proof.
  unfold round_nearest_even.
  destruct l as [ | [ | | ] ]; try destruct (Z.even m); lia.
Qed.

Lemma fexp64_mono x y : x <= y → fexp64 x <= fexp64 y.
Proof. rewrite !fexp64_eq. lia. Qed.

(** What rounding returns for a positive mantissa: a canonical finite
    number with an exponent no smaller than the one it started from, or an
    infinity; never a zero. *)
Definition rounded (s : bool) (e : Z) (x : spec_float) : Prop :=
  match x with
  | S754_finite s' m' e' =>
      s' = s ∧ canonical_mantissa prec emax m' e' = true
      ∧ e' <= emax - prec ∧ e <= e'
  | S754_infinity s' => s' = s
  | _ => False
  end.

Lemma binary_round_aux_spec s m e l :
  0 < m → -1074 <= e → e <= fexp64 (Zdigits2 m + e) →
  rounded s e (binary_round_aux prec emax s m e l).
Proof.
  intros Hm He Hfe. unfold binary_round_aux.
  destruct (shr_fexp prec emax m e l) as [mrs1 e1] eqn:H1.
  destruct (shr_fexp_spec m e l mrs1 e1 Hm He Hfe H1) as (Hm1 & He1 & Hd1).
  pose proof (round_nearest_even_bounds (shr_m mrs1) (loc_of_shr_record mrs1)) as Hr.
  set (m2 := round_nearest_even (shr_m mrs1) (loc_of_shr_record mrs1)) in *.
  assert (Hm2 : 0 < m2) by lia.
  assert (Hd2 : Zdigits2 (shr_m mrs1) <= Zdigits2 m2).
  { rewrite !Zdigits2_log2 by lia.
    pose proof (Z.log2_le_mono (shr_m mrs1) m2). lia. }
  assert (Hfe2 : e1 <= fexp64 (Zdigits2 m2 + e1)).
  { transitivity (fexp64 (Zdigits2 (shr_m mrs1) + e1)).
    - rewrite Hd1. lia.
    - apply fexp64_mono. lia. }
  destruct (shr_fexp prec emax m2 e1 loc_Exact) as [mrs2 e2] eqn:H2.
  destruct (shr_fexp_spec m2 e1 loc_Exact mrs2 e2 Hm2 ltac:(lia) Hfe2 H2)
    as (Hm3 & He2 & Hd3).
  destruct (shr_m mrs2) as [ | m3 | m3 ] eqn:Hm3'; try lia.
  destruct (e2 <=? emax - prec) eqn:Hle; simpl; [ | reflexivity ].
  split; [ reflexivity | ]. apply Z.leb_le in Hle.
  split; [ | split; [ exact Hle | lia ] ].
  unfold canonical_mantissa. apply Z.eqb_eq.
  change (Z.pos (digits2_pos m3)) with (Zdigits2 (Z.pos m3)).
  rewrite Hd3. lia.
Qed.

Lemma Pos_iter_xO m n : Z.pos (Pos.iter xO m n) = Z.pos m * 2 ^ Z.pos n.
Proof.
  rewrite <- (Pos2Z.inj_pow 2 n), <- Pos2Z.inj_mul. f_equal.
  revert m. induction n as [ | n IH ] using Pos.peano_ind; intros m.
  - simpl. lia.
  - rewrite Pos.iter_succ, IH, Pos.pow_succ_r. lia.
Qed.

Lemma binary_round_spec s m e :
  -1074 <= e →
  rounded s (Z.min e (fexp64 (Z.pos (digits2_pos m) + e)))
    (binary_round prec emax s m e).
Proof.
  intros He. unfold binary_round, shl_align.
  change (Z.pos (digits2_pos m)) with (Zdigits2 (Z.pos m)).
  set (fe := fexp64 (Zdigits2 (Z.pos m) + e)).
  assert (Hfe : -1074 <= fe) by (unfold fe; rewrite fexp64_eq; lia).
  destruct (fe - e) as [ | n | n ] eqn:Hn.
  - replace (Z.min e fe) with e by lia.
    apply binary_round_aux_spec; [ lia | lia | fold fe; lia ].
  - replace (Z.min e fe) with e by lia.
    apply binary_round_aux_spec; [ lia | lia | fold fe; lia ].
  - replace (Z.min e fe) with fe by lia.
    apply binary_round_aux_spec; [ lia | lia | ].
    rewrite Pos_iter_xO.
    rewrite (Zdigits2_log2 (Z.pos m * 2 ^ Z.pos n)) by lia.
    rewrite Z.log2_mul_pow2 by lia.
    replace (Z.pos n + Z.log2 (Z.pos m) + 1 + fe) with (Zdigits2 (Z.pos m) + e)
      by (rewrite (Zdigits2_log2 (Z.pos m)) by lia; lia).
    fold fe. lia.
Qed.

Lemma rounded_valid s e x : rounded s e x → valid_binary x = true.
Proof.
  destruct x as [ | | | s' m' e' ]; simpl; try tauto.
  intros (_ & Hc & Hle & _). unfold bounded. rewrite Hc. simpl.
  apply Z.leb_le. exact Hle.
Qed.

Definition one_sf : spec_float := S754_finite false 4503599627370496 (-52).

Lemma Prim2SF_one : Prim2SF 1 = one_sf.
Proof. vm_compute. reflexivity. Qed.

Lemma Prim2SF_zero : Prim2SF 0 = S754_zero false.
Proof. vm_compute. reflexivity. Qed.

Lemma rounded_not_zero s e x : rounded s e x → SFeqb x (S754_zero false) = false.
Proof. destruct x as [ | [ | ] | | [ | ] m' e' ]; simpl; tauto. Qed.

Lemma binary_normalize_valid z :
  valid_binary (binary_normalize prec emax z 0 false) = true.
Proof.
  destruct z as [ | p | p ]; simpl; [ reflexivity | | ];
    eapply rounded_valid, binary_round_spec; lia.
Qed.

(** Only the integer 1 converts to the double 1.0. *)
Lemma binary_normalize_one z :
  binary_normalize prec emax z 0 false = one_sf → z = 1.
Proof.
  destruct z as [ | p | p ]; simpl; intros H.
  - discriminate.
  - pose proof (binary_round_spec false p 0 ltac:(lia)) as Hr.
    rewrite H in Hr. destruct Hr as (_ & _ & _ & Hmin).
    rewrite fexp64_eq in Hmin.
    destruct p as [ p | p | ]; [ | | reflexivity ];
      simpl in Hmin; lia.
  - pose proof (binary_round_spec true p 0 ltac:(lia)) as Hr.
    rewrite H in Hr. destruct Hr as (Hs & _). discriminate.
Qed.

Lemma shl_align_value m e ez :
  ez <= e → Z.pos (shl_align m e ez).1 = Z.pos m * 2 ^ (e - ez).
Proof.
  intros Hle. unfold shl_align.
  destruct (ez - e) as [ | n | n ] eqn:Hn; simpl.
  - replace (e - ez) with 0 by lia. lia.
  - lia.
  - rewrite Pos_iter_xO. f_equal. f_equal. lia.
Qed.

Lemma valid_finite_exponent s m e :
  valid_binary (S754_finite s m e) = true →
  fexp64 (Zdigits2 (Z.pos m) + e) = e.
Proof.
  simpl. unfold bounded, canonical_mantissa.
  intros [H _]%andb_true_iff. apply Z.eqb_eq in H. exact H.
Qed.

(** A double whose difference with 1.0 is a zero is 1.0. *)
Lemma sub_one_zero (x : float) :
  (x - 1 =? 0)%float = true → Prim2SF x = one_sf.
Proof.
  rewrite FloatAxioms.eqb_spec, sub_spec, Prim2SF_one, Prim2SF_zero.
  pose proof (Prim2SF_valid x) as Hv.
  destruct (Prim2SF x) as [ [ | ] | [ | ] | | s m e ]; try discriminate.
  pose proof (valid_finite_exponent s m e Hv) as He.
  unfold SF64sub, SFsub, one_sf.
  set (ez := Z.min e (-52)).
  assert (Hez : -1074 <= ez) by (rewrite fexp64_eq in He; lia).
  pose proof (shl_align_value m e ez ltac:(lia)) as Ha.
  pose proof (shl_align_value 4503599627370496 (-52) ez ltac:(lia)) as Hb.
  set (a := (shl_align m e ez).1) in *.
  set (b := (shl_align 4503599627370496 (-52) ez).1) in *.
  destruct (cond_Zopp s (Z.pos a) - cond_Zopp false (Z.pos b)) as [ | d | d ] eqn:Hd;
    cbn [binary_normalize].
  - intros _. destruct s; simpl in Hd; [ lia | ].
    assert (Hab : Z.pos m * 2 ^ (e - ez) = 4503599627370496 * 2 ^ (-52 - ez)) by lia.
    assert (Hlog : Z.log2 (Z.pos m) + (e - ez) = 52 + (-52 - ez)).
    { pose proof (Z.log2_mul_pow2 (Z.pos m) (e - ez) ltac:(lia) ltac:(lia)) as H1.
      pose proof (Z.log2_mul_pow2 4503599627370496 (-52 - ez) ltac:(lia) ltac:(lia)) as H2.
      rewrite Hab in H1. change (Z.log2 4503599627370496) with 52 in H2. lia. }
    rewrite Zdigits2_log2, fexp64_eq in He by lia.
    assert (e = -52) by lia. subst e.
    replace ez with (-52) in Hab by lia. simpl in Hab.
    assert (m = 4503599627370496%positive) by lia. subst m. reflexivity.
  - intros H. rewrite (rounded_not_zero _ _ _ (binary_round_spec false d ez Hez)) in H.
    discriminate.
  - intros H. rewrite (rounded_not_zero _ _ _ (binary_round_spec true d ez Hez)) in H.
    discriminate.
Qed.

End Doubles.

(** ** The single-point axis *)

Import Doubles.

(** The divisor [n - 1.0] is not a zero unless [n == 1]. *)
Lemma divisor_nonzero (n : scalar) (b : float) :
  py_eq n (VInt 1) = false →
  py_sub_float (Some n) 1 = Ok b →
  (b =? 0)%float = false.
Proof.
  intros Hne Hb. destruct (b =? 0)%float eqn:Hz; [ exfalso | reflexivity ].
  unfold py_sub_float in Hb. destruct n as [z | f | s]; simpl in Hb.
  - unfold float_of_Z in Hb.
    destruct (is_infinity _); [ discriminate | ]. injection Hb as <-.
    apply sub_one_zero in Hz.
    rewrite Prim2SF_SF2Prim in Hz by apply binary_normalize_valid.
    apply binary_normalize_one in Hz. subst z. discriminate Hne.
  - injection Hb as <-. apply sub_one_zero in Hz.
    unfold py_eq, py_cmp, float_cmp_Z in Hne. rewrite Hz in Hne.
    discriminate Hne.
  - discriminate Hb.
Qed.

(** The computation does not end in [ZeroDivisionError]. *)
Definition no_zero_division {A} (r : result A) : Prop :=
  r ≠ Err ZeroDivisionError.

Lemma nzd_Ok {A} (a : A) : no_zero_division (Ok a).
Proof. discriminate. Qed.

Lemma nzd_bind {A B} (r : result A) (k : A → result B) :
  no_zero_division r →
  (∀ a, r = Ok a → no_zero_division (k a)) →
  no_zero_division (r ≫= k).
Proof.
  intros Hr Hk. destruct r as [a | e]; [ apply Hk; reflexivity | ].
  intros [= ->]. apply Hr. reflexivity.
Qed.

Lemma nzd_bind' {A B} (r : result A) (k : A → result B) :
  no_zero_division r →
  (∀ a, no_zero_division (k a)) →
  no_zero_division (bind r k).
Proof. intros Hr Hk. apply (nzd_bind r k); auto. Qed.

Create HintDb nzd discriminated.

#[local] Hint Resolve nzd_Ok : nzd.
#[local] Hint Extern 1 (no_zero_division (mbind _ _)) =>
  apply nzd_bind'; [ | intros ] : nzd.
#[local] Hint Extern 1 (no_zero_division (bind _ _)) =>
  apply nzd_bind'; [ | intros ] : nzd.
#[local] Hint Extern 2 (no_zero_division (if ?b then _ else _)) => destruct b : nzd.
#[local] Hint Extern 2 (no_zero_division (let '(_, _) := ?p in _)) => destruct p : nzd.
#[local] Hint Extern 5 (no_zero_division (Err _)) => discriminate : nzd.

Lemma nzd_float_of_Z z : no_zero_division (float_of_Z z).
Proof. unfold float_of_Z. auto with nzd. Qed.
#[local] Hint Resolve nzd_float_of_Z : nzd.

Lemma nzd_to_float a : no_zero_division (to_float a).
Proof. destruct a as [[ | | ] | ]; simpl; auto with nzd. Qed.
#[local] Hint Resolve nzd_to_float : nzd.

Lemma nzd_py_sub a b : no_zero_division (py_sub a b).
Proof.
  destruct a as [[ | | ] | ], b as [[ | | ] | ]; simpl; auto 6 with nzd.
Qed.

Lemma nzd_py_sub_float a y : no_zero_division (py_sub_float a y).
Proof. unfold py_sub_float. auto with nzd. Qed.

Lemma nzd_py_abs a : no_zero_division (py_abs a).
Proof. destruct a as [[ | | ] | ]; simpl; auto with nzd. Qed.

Lemma nzd_py_cmp a b : no_zero_division (py_cmp a b).
Proof. destruct a, b; simpl; auto with nzd. Qed.
#[local] Hint Resolve nzd_py_sub nzd_py_sub_float nzd_py_abs nzd_py_cmp : nzd.

Lemma nzd_py_max a b : no_zero_division (py_max a b).
Proof.
  unfold py_max, py_gt. destruct a, b; simpl; auto 6 with nzd.
Qed.

Lemma nzd_py_min a b : no_zero_division (py_min a b).
Proof.
  unfold py_min, py_lt. destruct a, b; simpl; auto 6 with nzd.
Qed.
#[local] Hint Resolve nzd_py_max nzd_py_min : nzd.

Lemma nzd_get_first_valid md keys desc all_keys :
  no_zero_division (_get_first_valid md keys desc all_keys).
Proof.
  induction keys as [ | k rest IH ]; simpl.
  - auto with nzd.
  - destruct (md !! k); auto with nzd.
Qed.
#[local] Hint Resolve nzd_get_first_valid : nzd.

Lemma nzd_derived_increment md keys desc first last :
  no_zero_division (derived_increment md keys desc first last).
Proof.
  unfold derived_increment.
  apply nzd_bind; [ auto with nzd | intros n _ ].
  apply nzd_bind; [ auto with nzd | intros range _ ].
  destruct (py_eq n (VInt 1)) eqn:Hn; [ auto with nzd | ].
  apply nzd_bind; [ auto with nzd | intros divisor Hd ].
  apply nzd_bind; [ | auto with nzd ].
  unfold py_truediv_float. rewrite (divisor_nonzero n divisor Hn Hd).
  auto with nzd.
Qed.
#[local] Hint Resolve nzd_derived_increment : nzd.

Lemma nzd_LatLon_get_grid md : no_zero_division (LatLon_get_grid md).
Proof.
  unfold LatLon_get_grid, derived_dx, derived_dy.
  destruct (md !! "iDirectionIncrementInDegrees"),
           (md !! "jDirectionIncrementInDegrees"); auto 6 with nzd.
Qed.

Lemma nzd_ReducedLatLon_get_grid md : no_zero_division (ReducedLatLon_get_grid md).
Proof.
  unfold ReducedLatLon_get_grid, derived_dy.
  destruct (md !! "jDirectionIncrementInDegrees"); auto 6 with nzd.
Qed.

Lemma nzd_x_scan_dir md : no_zero_division (x_scan_dir md).
Proof.
  unfold x_scan_dir.
  destruct (md !! "iScansNegatively"), (md !! "iScansPositively"); auto with nzd.
Qed.
#[local] Hint Resolve nzd_x_scan_dir : nzd.

Lemma nzd_area md g : no_zero_division (area md g).
Proof. unfold area, north, south, west, east. auto 12 with nzd. Qed.

Lemma nzd_add_one md key d : no_zero_division (_add_one md key d).
Proof.
  unfold _add_one. destruct (md !! key), (vocabulary !! key); auto with nzd.
Qed.
#[local] Hint Resolve nzd_area nzd_add_one : nzd.

Lemma nzd_add md keys : ∀ d, no_zero_division (_add md keys d).
Proof. induction keys as [ | k rest IH ]; intros d; simpl; auto with nzd. Qed.
#[local] Hint Resolve nzd_add : nzd.

Lemma nzd_add_rotation md g d : no_zero_division (_add_rotation md g d).
Proof. unfold _add_rotation. auto with nzd. Qed.

Lemma nzd_add_scan_mode md d : no_zero_division (_add_scan_mode md d).
Proof. unfold _add_scan_mode. auto with nzd. Qed.

Lemma nzd_abs_pair dx dy : no_zero_division (abs_pair dx dy).
Proof. unfold abs_pair. auto 6 with nzd. Qed.

Lemma nzd_init md g : no_zero_division (init md g).
Proof. unfold init. auto 8 with nzd. Qed.

Lemma nzd_LambertAEA_get_grid md : no_zero_division (LambertAEA_get_grid md).
Proof. unfold LambertAEA_get_grid. auto 6 with nzd. Qed.
#[local] Hint Resolve nzd_add_rotation nzd_add_scan_mode nzd_abs_pair nzd_init
  nzd_LambertAEA_get_grid nzd_LatLon_get_grid nzd_ReducedLatLon_get_grid : nzd.

Lemma nzd_make g md : no_zero_division (make g md).
Proof.
  destruct g; unfold make, LatLon_make, ReducedLatLon_make, Gaussian_make,
    Mercator_make, PolarStereographic_make, Lambert_make, LambertAEA_make,
    Mercator_get_grid, Metric_get_grid;
    auto 14 with nzd.
Qed.

Lemma nzd_make_gridspec md : no_zero_division (make_gridspec md).
Proof.
  unfold make_gridspec. destruct (registered _); [ | discriminate ].
  pose proof (nzd_make m md). auto 6 with nzd.
Qed.

Abbreviation nx_of md :=
  (_get_first_valid md ["numberOfPointsAlongAParallel"; "Ni"]%string
     "number of points in longitude"
     ["numberOfPointsAlongAParallel"; "Ni"]%string).

Abbreviation ny_of md :=
  (_get_first_valid md ["numberOfPointsAlongAMeridian"; "Nj"]%string
     "number of points in latitude"
     ["numberOfPointsAlongAMeridian"; "Nj"]%string).

Lemma derived_increment_single md keys desc first last n range :
  _get_first_valid md keys desc keys = Ok n →
  py_eq n (VInt 1) = true →
  py_sub last first = Ok range →
  derived_increment md keys desc first last = Ok (Some (VFloat 1)).
Proof.
  intros Hn H1 Hr.
  unfold derived_increment. rewrite Hn. simpl. rewrite Hr. simpl.
  rewrite H1. reflexivity.
Qed.

(** The range is computed before the number of points is looked at: when
    the subtraction raises, so does the derivation, whatever the number of
    points. *)
Lemma derived_increment_range_first md keys desc first last n e :
  _get_first_valid md keys desc keys = Ok n →
  py_sub last first = Err e →
  derived_increment md keys desc first last = Err e.
Proof.
  intros Hn He. unfold derived_increment. rewrite Hn. simpl. rewrite He. reflexivity.
Qed.

(** One point along each parallel, and no last longitude. *)
Definition md_single_point_no_corner : metadata :=
  list_to_map [
    ("gridType", VStr "regular_ll");
    ("Ni", VInt 1);
    ("Nj", VInt 3);
    ("longitudeOfFirstGridPointInDegrees", VInt 5);
    ("latitudeOfFirstGridPointInDegrees", VInt 7);
    ("latitudeOfLastGridPointInDegrees", VInt 1);
    ("iScansNegatively", VInt 0)
  ]%string.



(** One point in each direction, at 7N 5E. *)
Definition md_single_point : metadata :=
  list_to_map [
    ("gridType", VStr "regular_ll");
    ("Ni", VInt 1);
    ("Nj", VInt 1);
    ("longitudeOfFirstGridPointInDegrees", VInt 5);
    ("longitudeOfLastGridPointInDegrees", VInt 5);
    ("latitudeOfFirstGridPointInDegrees", VInt 7);
    ("latitudeOfLastGridPointInDegrees", VInt 7);
    ("iScansNegatively", VInt 0)
  ]%string.


(** * Further properties of the GridSpec makers *)

(** ** Reading the first valid key *)

(** X1. [_get_first_valid] returns the value of the first key of the list
    that the metadata holds, whatever the later keys hold; when the
    metadata holds none of them it raises, with the description when one is
    given and with the list of keys otherwise. *)
Theorem get_first_valid_first_match (md : metadata) (keys : list string)
    (desc : string) (all_keys : list string) :
  (∀ before k after v,
     keys = before ++ k :: after →
     Forall (fun b => md !! b = None) before →
     md !! k = Some v →
     _get_first_valid md keys desc all_keys = Ok v)
  ∧ (Forall (fun k => md !! k = None) keys →
     _get_first_valid md keys desc all_keys
     = Err (if bool_decide (desc = ""%string)
            then NoValidKey all_keys else CouldNotDetermine desc))
  ∧ (∀ v, _get_first_valid md keys desc all_keys = Ok v →
          ∃ before k after,
            keys = before ++ k :: after
            ∧ Forall (fun b => md !! b = None) before
            ∧ md !! k = Some v).
Proof.
  split; [ | split ].
  - intros before k after v -> Hb Hk.
    induction Hb as [ | b before Hb _ IH ]; simpl.
    + rewrite Hk. reflexivity.
    + rewrite Hb. exact IH.
  - intros Hall. induction Hall as [ | k rest Hk _ IH ]; simpl.
    + destruct (bool_decide (desc = ""%string)); reflexivity.
    + rewrite Hk. exact IH.
  - induction keys as [ | k rest IH ]; simpl; intros v Hv.
    + destruct (bool_decide (desc = ""%string)); discriminate.
    + destruct (md !! k) as [w | ] eqn:Hk.
      * injection Hv as ->. exists [], k, rest. auto.
      * destruct (IH v Hv) as (before & k' & after & -> & Hb & Hk').
        exists (k :: before), k', after. auto.
Qed.

Lemma get_first_valid_first_match_witness :
  _get_first_valid (<["Ni" := VInt 4]> (<["Nj" := VInt 3]> ∅))
    ["numberOfPointsAlongAParallel"; "Ni"; "Nj"]%string "points" [] = Ok (VInt 4)
  ∧ _get_first_valid ∅ ["Ni"; "Nj"]%string "" ["Ni"; "Nj"]%string
    = Err (NoValidKey ["Ni"; "Nj"]%string)
  ∧ ∃ before k after,
      ["numberOfPointsAlongAParallel"; "Ni"]%string = before ++ k :: after
      ∧ Forall (fun b => (<["Ni" := VInt 4]> ∅ : metadata) !! b = None) before
      ∧ (<["Ni" := VInt 4]> ∅ : metadata) !! k = Some (VInt 4).
Proof.
  split; [ | split ].
  - apply (proj1 (get_first_valid_first_match _ _ _ _)
             ["numberOfPointsAlongAParallel"%string] "Ni"%string ["Nj"%string]).
    + reflexivity.
    + repeat constructor.
    + reflexivity.
  - apply (proj1 (proj2 (get_first_valid_first_match ∅ _ ""%string _))).
    repeat constructor.
  - apply (proj2 (proj2 (get_first_valid_first_match (<["Ni" := VInt 4]> ∅)
             ["numberOfPointsAlongAParallel"; "Ni"]%string "points"%string []))).
    reflexivity.
Defined.

(** ** The shape of a GridSpec

    Every [make] first builds the geometry entries ([type], [grid], then
    [area] or [first_point], and [rotation] for a rotated class) and then
    copies metadata keys through the vocabulary. *)

Lemma bind_Ok {A B} (r : result A) (k : A → result B) (b : B) :
  r ≫= k = Ok b → ∃ a, r = Ok a ∧ k a = Ok b.
Proof. destruct r as [a | e]; [ eauto | discriminate ]. Qed.

Ltac inv_bind H :=
  let a := fresh "a" in
  let Ha := fresh "Ha" in
  apply bind_Ok in H as (a & Ha & H).

Definition scan_keys : list string :=
  ["jPointsAreConsecutive"; "iScansNegatively"; "jScansPositively"]%string.

(** The metadata keys a class copies, in the order of the copies. *)
Definition copied (g : maker) : list string :=
  match g with
  | LatLonGridSpecMaker | ReducedLatLonGridSpecMaker
  | RegularGaussianGridSpecMaker | ReducedGaussianGridSpecMaker => scan_keys
  | RotatedLatLonGridSpecMaker | RegularRotatedGaussianGridSpecMaker
  | ReducedRotatedGaussianGridSpecMaker =>
      "angleOfRotationInDegrees"%string :: scan_keys
  | MercatorGridSpecMaker =>
      ["Ni"; "Nj"; "LaDInDegrees"; "orientationOfTheGridInDegrees"]%string ++ scan_keys
  | PolarStereographicGridSpecMaker =>
      ["Nx"; "Ny"; "LaDInDegrees"; "orientationOfTheGridInDegrees"]%string ++ scan_keys
  | LambertGridSpecMaker =>
      ["Nx"; "Ny"; "LaDInDegrees"; "LoVInDegrees"; "LatIn1InDegrees";
       "LatIn2InDegrees"]%string ++ scan_keys
  | LambertAEAGridSpecMaker =>
      ["Nx"; "Ny"; "standardParallelInDegrees";
       "centralLongitudeInDegrees"]%string ++ scan_keys
  end.

Definition with_rotation (g : maker) (md : metadata) (d : gridspec) : gridspec :=
  if ROTATED g then <["rotation" := GList (rotation md)]> d else d.

(** The geometry entries of a GridSpec, before any key is copied. *)
Definition core (g : maker) (md : metadata) : result gridspec :=
  match g with
  | LatLonGridSpecMaker | RotatedLatLonGridSpecMaker =>
      '(dx, dy) ← LatLon_get_grid md;
      grid ← abs_pair dx dy;
      a ← area md g;
      Ok (with_rotation g md (<["area" := a]> (<["grid" := grid]> (typed g))))
  | ReducedLatLonGridSpecMaker =>
      '(_, dy) ← ReducedLatLon_get_grid md;
      ady ← py_abs dy;
      a ← area md g;
      Ok (with_rotation g md (<["area" := a]> (<["grid" := GScalar ady]> (typed g))))
  | RegularGaussianGridSpecMaker | ReducedGaussianGridSpecMaker
  | RegularRotatedGaussianGridSpecMaker | ReducedRotatedGaussianGridSpecMaker =>
      let d := <["grid" := format_label (gaussian_label md g) (md !! "N")]> (typed g) in
      d ← (if negb (py_eq (get_default md "global" (VInt 0)) (VInt 1))
           then a ← area md g; Ok (<["area" := a]> d) else Ok d);
      Ok (with_rotation g md d)
  | MercatorGridSpecMaker =>
      grid ← abs_pair (md !! "DiInMetres") (md !! "DjInMetres");
      a ← area md g;
      Ok (<["area" := a]> (<["grid" := grid]> (typed g)))
  | PolarStereographicGridSpecMaker | LambertGridSpecMaker =>
      grid ← abs_pair (md !! "DxInMetres") (md !! "DyInMetres");
      Ok (<["first_point" := GList [first_lat md; first_lon md]]>
            (<["grid" := grid]> (typed g)))
  | LambertAEAGridSpecMaker =>
      '(dx, dy) ← LambertAEA_get_grid md;
      grid ← abs_pair (Some dx) (Some dy);
      Ok (<["first_point" := GList [first_lat md; first_lon md]]>
            (<["grid" := grid]> (typed g)))
  end.

Lemma _add_app md keys1 keys2 d :
  _add md (keys1 ++ keys2) d = _add md keys1 d ≫= _add md keys2.
Proof.
  revert d. induction keys1 as [ | k rest IH ]; intros d; simpl; [ reflexivity | ].
  destruct (_add_one md k d) as [d' | e]; simpl; [ apply IH | reflexivity ].
Qed.

Lemma make_core (g : maker) (md : metadata) :
  make g md = core g md ≫= _add md (copied g).
Proof.
  destruct g; unfold make, core, copied, LatLon_make, ReducedLatLon_make,
    Gaussian_make, Mercator_make, PolarStereographic_make, Lambert_make,
    LambertAEA_make, Mercator_get_grid, Metric_get_grid, _add_rotation,
    _add_scan_mode, with_rotation, scan_keys; simpl ROTATED; cbv iota;
    repeat match goal with
           | |- context [_add md (?l1 ++ ?l2) ?d] => rewrite (_add_app md l1 l2 d)
           end;
    repeat match goal with
           | |- (?r ≫= _) = _ => destruct r as [? | ?]; simpl; [ | reflexivity ]
           | |- (let '(_, _) := ?p in _) = _ => destruct p; simpl
           | |- context [if ?b then _ else _] => destruct b; simpl
           | |- context [_add_one md ?k ?d] =>
               destruct (_add_one md k d) as [? | ?]; simpl
           end; reflexivity.
Qed.

(** The names of the geometry entries. *)
Definition geometry_names : list string :=
  ["type"; "grid"; "area"; "first_point"; "rotation"]%string.

(** The value copied under the GridSpec name [name] by a run of [_add] over
    [keys]: that of the last key of [keys] that the vocabulary sends to
    [name] and that the metadata holds. *)
Fixpoint copied_value (md : metadata) (keys : list string) (name : string)
    (acc : option scalar) : option scalar :=
  match keys with
  | [] => acc
  | key :: rest =>
      copied_value md rest name
        (if bool_decide (vocabulary !! key = Some name)
         then match md !! key with Some v => Some v | None => acc end
         else acc)
  end.

Lemma copied_value_acc md keys name acc :
  copied_value md keys name acc
  = match copied_value md keys name None with
    | Some v => Some v
    | None => acc
    end.
Proof.
  revert acc. induction keys as [ | key rest IH ]; intros acc; cbn [copied_value];
    [ reflexivity | ].
  rewrite IH. rewrite (IH (if bool_decide _ then _ else _)).
  destruct (copied_value md rest name None); [ reflexivity | ].
  destruct (bool_decide _); [ | reflexivity ].
  destruct (md !! key); reflexivity.
Qed.

Lemma _add_lookup md keys name :
  ∀ d d', _add md keys d = Ok d' →
    d' !! name = match copied_value md keys name None with
                 | Some v => Some (GScalar v)
                 | None => d !! name
                 end.
Proof.
  induction keys as [ | key rest IH ]; intros d d'; cbn [_add copied_value].
  - intros [= <-]. reflexivity.
  - intros H. inv_bind H. rewrite copied_value_acc, (IH _ _ H).
    destruct (copied_value md rest name None); [ reflexivity | ].
    unfold _add_one in Ha.
    destruct (md !! key) as [v | ]; [ | injection Ha as <-; destruct (bool_decide _); reflexivity ].
    destruct (vocabulary !! key) as [k | ] eqn:Hk; [ | discriminate ].
    injection Ha as <-.
    destruct (bool_decide_reflect (Some k = Some name)) as [[= ->] | Hne].
    + apply lookup_insert_eq.
    + apply lookup_insert_ne. congruence.
Qed.

Lemma copied_value_Some md keys name v :
  copied_value md keys name None = Some v →
  ∃ key, key ∈ keys ∧ vocabulary !! key = Some name ∧ md !! key = Some v.
Proof.
  induction keys as [ | key rest IH ]; cbn [copied_value]; [ discriminate | ].
  rewrite copied_value_acc.
  destruct (copied_value md rest name None) as [w | ] eqn:Hrest.
  - intros [= ->]. destruct (IH eq_refl) as (k & Hk & Hv). exists k.
    split; [ right; exact Hk | exact Hv ].
  - destruct (bool_decide_reflect (vocabulary !! key = Some name)) as [Hk | _];
      [ | discriminate ].
    destruct (md !! key) as [w | ] eqn:Hmd; [ | discriminate ].
    intros [= ->]. exists key. split; [ left | auto ].
Qed.

Lemma vocabulary_not_geometry key name :
  vocabulary !! key = Some name → name ∉ geometry_names.
Proof.
  intros H. unfold vocabulary in H. apply elem_of_list_to_map_2 in H.
  rewrite !elem_of_cons, elem_of_nil in H.
  unfold geometry_names. rewrite !not_elem_of_cons.
  repeat (destruct H as [ [= _ ->] | H ];
          [ repeat split; [ discriminate .. | apply not_elem_of_nil ] | ]).
  destruct H.
Qed.

Lemma copied_value_geometry md keys name :
  name ∈ geometry_names → copied_value md keys name None = None.
Proof.
  intros Hg. destruct (copied_value md keys name None) as [v | ] eqn:Hv; [ | reflexivity ].
  apply copied_value_Some in Hv as (key & _ & Hk & _).
  destruct (vocabulary_not_geometry key name Hk Hg).
Qed.

(** The entries of [core] are geometry entries. *)
Lemma core_names g md c name :
  core g md = Ok c → name ∉ geometry_names → c !! name = None.
Proof.
  unfold geometry_names. rewrite !not_elem_of_cons. intros H (? & ? & ? & ? & ? & _).
  destruct g; unfold core, with_rotation, typed in H; simpl ROTATED in H; cbv iota in H;
    repeat match type of H with
           | (let '(_, _) := ?p in _) = _ => destruct p
           | (if ?b then _ else _) ≫= _ = _ => destruct b
           | _ ≫= _ = Ok _ => inv_bind H
           | _ => progress simpl in H
           end;
    repeat match goal with
           | Hx : (let '(_, _) := ?p in _) = _ |- _ => destruct p
           | Hx : _ ≫= _ = Ok _ |- _ => inv_bind Hx
           | Hx : Ok _ = Ok _ |- _ => injection Hx as <-
           end;
    repeat (rewrite lookup_insert_ne by congruence); apply lookup_empty.
Qed.

Lemma make_gridspec_Ok md gs :
  make_gridspec md = Ok gs →
  ∃ g c, registered (md !! "gridType") = Some g
         ∧ md !! "gridType" = Some (VStr (GRID_TYPE g))
         ∧ core g md = Ok c
         ∧ _add md (copied g) c = Ok gs.
Proof.
  unfold make_gridspec, GridSpec.
  destruct (registered (md !! "gridType")) as [g | ] eqn:Hg; [ | discriminate ].
  intros H. apply bind_Ok in H as (u & Hinit & H).
  apply bind_Ok in H as (d & Hmake & H). injection H as ->.
  rewrite make_core in Hmake. apply bind_Ok in Hmake as (c & Hc & Hadd).
  exists g, c. split; [ reflexivity | ].
  split; [ apply registered_Some, Hg | auto ].
Qed.

(** A magnitude: an [int] that is not negative, a double that is not less
    than zero. *)
Definition magnitude (v : scalar) : Prop :=
  match v with
  | VInt z => 0 <= z
  | VFloat f => (f <? 0)%float = false
  | VStr _ => False
  end.

Lemma py_abs_magnitude a v : py_abs a = Ok v → magnitude v.
Proof.
  destruct a as [[z | f | s] | ]; simpl; try discriminate; intros [= <-]; simpl.
  - lia.
  - rewrite ltb_spec, abs_spec, Prim2SF_zero.
    destruct (Prim2SF f) as [ [ | ] | [ | ] | | [ | ] m e ]; reflexivity.
Qed.

Lemma abs_pair_magnitudes dx dy grid :
  abs_pair dx dy = Ok grid →
  ∃ a b, grid = GList [Some a; Some b] ∧ magnitude a ∧ magnitude b.
Proof.
  unfold abs_pair. intros H.
  apply bind_Ok in H as (a & Ha & H). apply bind_Ok in H as (b & Hb & H).
  injection H as <-. exists a, b.
  split; [ reflexivity | split; eapply py_abs_magnitude; eassumption ].
Qed.

(** Classes that describe the grid by its first point. *)
Definition by_first_point (g : maker) : bool :=
  match g with
  | PolarStereographicGridSpecMaker | LambertGridSpecMaker
  | LambertAEAGridSpecMaker => true
  | _ => false
  end.

Definition is_global (md : metadata) : bool :=
  py_eq (get_default md "global" (VInt 0)) (VInt 1).

Ltac inv_core H :=
  repeat match type of H with
         | _ => progress cbn beta iota in H
         | (let '(_, _) := ?p in _) = _ => destruct p
         | (if negb ?b then _ else _) ≫= _ = _ => destruct b; simpl negb in H
         | _ ≫= _ = Ok _ => inv_bind H
         | Ok _ = Ok _ => injection H as <-
         end;
  repeat match goal with
         | Hx : (let '(_, _) := ?p in _) = _ |- _ => destruct p
         | Hx : _ ≫= _ = Ok _ |- _ => inv_bind Hx
         | Hx : Ok _ = Ok _ |- _ => injection Hx as <-
         end.

Lemma core_type g md c :
  core g md = Ok c → c !! "type" = Some (GScalar (VStr (GRID_TYPE g))).
Proof.
  intros H.
  destruct g; unfold core, with_rotation, typed in H; simpl ROTATED in H;
    inv_core H;
    repeat (rewrite lookup_insert_ne by discriminate); apply lookup_insert_eq.
Qed.

Lemma core_rotation g md c :
  core g md = Ok c →
  c !! "rotation" = if ROTATED g then Some (GList (rotation md)) else None.
Proof.
  intros H.
  destruct g; unfold core, with_rotation, typed in H; simpl ROTATED in H;
    inv_core H; simpl ROTATED; cbv iota;
    solve [ apply lookup_insert_eq
          | repeat (rewrite lookup_insert_ne by discriminate); apply lookup_empty ].
Qed.

Lemma core_grid g md c :
  core g md = Ok c →
  ∃ grid, c !! "grid" = Some grid
    ∧ if is_gaussian g then grid = format_label (gaussian_label md g) (md !! "N")
      else match g with
           | ReducedLatLonGridSpecMaker => ∃ a, grid = GScalar a ∧ magnitude a
           | _ => ∃ a b, grid = GList [Some a; Some b] ∧ magnitude a ∧ magnitude b
           end.
Proof.
  intros H.
  destruct g; unfold core, with_rotation, typed in H; simpl ROTATED in H;
    inv_core H; simpl is_gaussian; cbv iota;
    eexists; (split;
      [ repeat (rewrite lookup_insert_ne by discriminate); apply lookup_insert_eq | ]);
    eauto using abs_pair_magnitudes, py_abs_magnitude.
Qed.

Lemma core_area g md c :
  core g md = Ok c →
  (if by_first_point g
   then c !! "first_point" = Some (GList [first_lat md; first_lon md])
        ∧ c !! "area" = None
   else c !! "first_point" = None
        ∧ if is_gaussian g && is_global md then c !! "area" = None
          else ∃ n w s e, area md g = Ok (GList [n; w; s; e])
                          ∧ c !! "area" = Some (GList [n; w; s; e])).
Proof.
  intros H.
  assert (Harea : ∀ a, area md g = Ok a → ∃ n w s e, a = GList [n; w; s; e]).
  { unfold area. intros a Ha. inv_bind Ha. inv_bind Ha. inv_bind Ha. inv_bind Ha.
    injection Ha as <-. eauto. }
  destruct g; unfold core, with_rotation, typed in H; simpl ROTATED in H;
    fold (is_global md) in H; simpl by_first_point; simpl is_gaussian; cbv iota;
    try (destruct (is_global md) eqn:Hglobal; simpl negb in H); simpl andb; cbv iota;
    inv_core H;
    (split; [ solve [ apply lookup_insert_eq
                    | repeat (rewrite lookup_insert_ne by discriminate);
                      apply lookup_empty ] | ]);
    try solve [ repeat (rewrite lookup_insert_ne by discriminate); apply lookup_empty ];
    match goal with
    | Ha : area md _ = Ok ?a |- _ =>
        destruct (Harea a Ha) as (n & w & s & e & ->);
        exists n, w, s, e; split; [ exact Ha | ];
        solve [ apply lookup_insert_eq
              | repeat (rewrite lookup_insert_ne by discriminate);
                apply lookup_insert_eq ]
    end.
Qed.

Lemma gridspec_geometry_lookup md g c gs name :
  _add md (copied g) c = Ok gs → name ∈ geometry_names → gs !! name = c !! name.
Proof.
  intros Hadd Hname. rewrite (_add_lookup _ _ name _ _ Hadd).
  rewrite copied_value_geometry by exact Hname. reflexivity.
Qed.

Ltac geometry_name := unfold geometry_names; set_solver.

(** An example of each family. *)
Definition md_rotated_ll : metadata :=
  list_to_map [
    ("gridType", VStr "rotated_ll");
    ("iDirectionIncrementInDegrees", VFloat 0.5);
    ("jDirectionIncrementInDegrees", VFloat 0.25);
    ("longitudeOfFirstGridPointInDegrees", VInt 10);
    ("longitudeOfLastGridPointInDegrees", VInt 20);
    ("latitudeOfFirstGridPointInDegrees", VInt 50);
    ("latitudeOfLastGridPointInDegrees", VInt 40);
    ("latitudeOfSouthernPoleInDegrees", VInt (-35));
    ("longitudeOfSouthernPoleInDegrees", VInt 15);
    ("angleOfRotationInDegrees", VInt 0);
    ("iScansNegatively", VInt 1);
    ("jScansPositively", VInt 0)
  ]%string.

Definition gs_rotated_ll : gridspec :=
  list_to_map [
    ("type", GScalar (VStr "rotated_ll"));
    ("grid", GList [Some (VFloat 0.5); Some (VFloat 0.25)]);
    ("area", GList [Some (VInt 50); Some (VInt 20); Some (VInt 40); Some (VInt 10)]);
    ("rotation", GList [Some (VInt (-35)); Some (VInt 15)]);
    ("angle_of_rotation", GScalar (VInt 0));
    ("i_scans_negatively", GScalar (VInt 1));
    ("j_scans_positively", GScalar (VInt 0))
  ]%string.

Lemma make_gridspec_rotated_ll : make_gridspec md_rotated_ll = Ok gs_rotated_ll.
Proof. vm_compute. reflexivity. Qed.

Definition md_polar : metadata :=
  list_to_map [
    ("gridType", VStr "polar_stereographic");
    ("DxInMetres", VInt (-2500));
    ("DyInMetres", VInt 2500);
    ("Nx", VInt 4);
    ("latitudeOfFirstGridPointInDegrees", VInt 60);
    ("longitudeOfFirstGridPointInDegrees", VInt 5);
    ("jScansPositively", VInt 1)
  ]%string.

Definition gs_polar : gridspec :=
  list_to_map [
    ("type", GScalar (VStr "polar_stereographic"));
    ("grid", GList [Some (VInt 2500); Some (VInt 2500)]);
    ("first_point", GList [Some (VInt 60); Some (VInt 5)]);
    ("nx", GScalar (VInt 4));
    ("j_scans_positively", GScalar (VInt 1))
  ]%string.

Lemma make_gridspec_polar : make_gridspec md_polar = Ok gs_polar.
Proof. vm_compute. reflexivity. Qed.

(** X2. Every GridSpec that [make_gridspec] returns has a [type] entry,
    which is the [gridType] of the metadata and one of the eleven
    registered tags, and a [grid] entry. *)
Theorem gridspec_has_type_and_grid (md : metadata) (gs : gridspec) :
  make_gridspec md = Ok gs →
  ∃ tag, tag ∈ grid_type_tags
         ∧ md !! "gridType" = Some (VStr tag)
         ∧ gs !! "type" = Some (GScalar (VStr tag))
         ∧ is_Some (gs !! "grid").
Proof.
  intros H. apply make_gridspec_Ok in H as (g & c & Hreg & Htype & Hc & Hadd).
  exists (GRID_TYPE g). split; [ | split; [ exact Htype | split ] ].
  - apply grid_specs_tags. exists g. apply grid_specs_lookup. reflexivity.
  - rewrite (gridspec_geometry_lookup md g c gs) by (first [ exact Hadd | geometry_name ]).
    apply (core_type g md c Hc).
  - rewrite (gridspec_geometry_lookup md g c gs) by (first [ exact Hadd | geometry_name ]).
    destruct (core_grid g md c Hc) as (grid & -> & _). eauto.
Qed.

Lemma gridspec_has_type_and_grid_witness :
  ∃ tag, tag ∈ grid_type_tags
         ∧ md_rotated_ll !! "gridType" = Some (VStr tag)
         ∧ gs_rotated_ll !! "type" = Some (GScalar (VStr tag))
         ∧ is_Some (gs_rotated_ll !! "grid").
Proof.
  apply (gridspec_has_type_and_grid md_rotated_ll gs_rotated_ll).
  vm_compute. reflexivity.
Defined.

(** X3. The increments of a GridSpec are magnitudes: for every class but
    the Gaussian ones, [grid] is a pair of values that are not negative
    (one such value for a reduced lat-lon grid), whatever the sign of the
    increments in the metadata; for a Gaussian class it is the label
    followed by [N]. *)
Theorem gridspec_grid_magnitudes (md : metadata) (gs : gridspec) (g : maker) :
  make_gridspec md = Ok gs →
  registered (md !! "gridType") = Some g →
  if is_gaussian g
  then gs !! "grid" = Some (format_label (gaussian_label md g) (md !! "N"))
  else match g with
       | ReducedLatLonGridSpecMaker =>
           ∃ a, gs !! "grid" = Some (GScalar a) ∧ magnitude a
       | _ =>
           ∃ a b, gs !! "grid" = Some (GList [Some a; Some b])
                  ∧ magnitude a ∧ magnitude b
       end.
Proof.
  intros H Hg. apply make_gridspec_Ok in H as (g' & c & Hreg & Htype & Hc & Hadd).
  assert (g' = g) by congruence. subst g'.
  rewrite (gridspec_geometry_lookup md g c gs) by (first [ exact Hadd | geometry_name ]).
  destruct (core_grid g md c Hc) as (grid & -> & Hform).
  destruct (is_gaussian g); [ congruence | ].
  destruct g; try (destruct Hform as (a & b & -> & Ha & Hb); eauto);
    destruct Hform as (a & -> & Ha); eauto.
Qed.

Lemma gridspec_grid_magnitudes_witness :
  ∃ a b, gs_polar !! "grid" = Some (GList [Some a; Some b])
         ∧ magnitude a ∧ magnitude b.
Proof.
  apply (gridspec_grid_magnitudes md_polar gs_polar PolarStereographicGridSpecMaker).
  - vm_compute. reflexivity.
  - vm_compute. reflexivity.
Defined.

(** X4. Which of [area] and [first_point] a GridSpec has is fixed by the
    class: the polar stereographic and the two Lambert classes give
    [first_point], the first latitude and longitude, and no [area]; the
    others give no [first_point] and an [area] of four entries, except a
    Gaussian grid flagged [global], which has neither. *)
Theorem gridspec_area_or_first_point (md : metadata) (gs : gridspec) (g : maker) :
  make_gridspec md = Ok gs →
  registered (md !! "gridType") = Some g →
  if by_first_point g
  then gs !! "first_point" = Some (GList [first_lat md; first_lon md])
       ∧ gs !! "area" = None
  else gs !! "first_point" = None
       ∧ if is_gaussian g && is_global md then gs !! "area" = None
         else ∃ n w s e, area md g = Ok (GList [n; w; s; e])
                         ∧ gs !! "area" = Some (GList [n; w; s; e]).
Proof.
  intros H Hg. apply make_gridspec_Ok in H as (g' & c & Hreg & Htype & Hc & Hadd).
  assert (g' = g) by congruence. subst g'.
  rewrite !(gridspec_geometry_lookup md g c gs) by (first [ exact Hadd | geometry_name ]).
  apply core_area, Hc.
Qed.

Lemma gridspec_area_or_first_point_witness :
  (gs_polar !! "first_point" = Some (GList [first_lat md_polar; first_lon md_polar])
   ∧ gs_polar !! "area" = None)
  ∧ (gs_rotated_ll !! "first_point" = None
     ∧ ∃ n w s e, area md_rotated_ll RotatedLatLonGridSpecMaker = Ok (GList [n; w; s; e])
                  ∧ gs_rotated_ll !! "area" = Some (GList [n; w; s; e])).
Proof.
  split.
  - apply (gridspec_area_or_first_point md_polar gs_polar PolarStereographicGridSpecMaker);
      vm_compute; reflexivity.
  - apply (gridspec_area_or_first_point md_rotated_ll gs_rotated_ll
             RotatedLatLonGridSpecMaker); vm_compute; reflexivity.
Defined.

(** ** What is copied, and from where *)

Lemma copied_value_filter md keys name :
  ∀ acc, copied_value md keys name acc
         = foldl (λ acc k, match md !! k with Some v => Some v | None => acc end) acc
             (filter (λ k, vocabulary !! k = Some name) keys).
Proof.
  induction keys as [ | key rest IH ]; intros acc; cbn [copied_value];
    [ reflexivity | ].
  rewrite filter_cons, IH.
  destruct (decide (vocabulary !! key = Some name)) as [Hk | Hk].
  - rewrite bool_decide_eq_true_2 by exact Hk. reflexivity.
  - rewrite bool_decide_eq_false_2 by exact Hk. reflexivity.
Qed.

Lemma copied_value_single md keys name key :
  filter (λ k, vocabulary !! k = Some name) keys = [key] →
  copied_value md keys name None = md !! key.
Proof.
  intros H. rewrite copied_value_filter, H. simpl. destruct (md !! key); reflexivity.
Qed.

(** [_add] returns exactly when every key it finds in the metadata is in
    the vocabulary. *)
Lemma _add_Ok_vocabulary md keys :
  ∀ d d', _add md keys d = Ok d' →
    ∀ key, key ∈ keys → is_Some (md !! key) → is_Some (vocabulary !! key).
Proof.
  induction keys as [ | k rest IH ]; intros d d' H key Hkey Hmd.
  - apply elem_of_nil in Hkey as [].
  - cbn [_add] in H. apply bind_Ok in H as (d1 & H1 & H).
    apply elem_of_cons in Hkey as [-> | Hkey]; [ | exact (IH _ _ H key Hkey Hmd) ].
    unfold _add_one in H1. destruct Hmd as [v Hv]. rewrite Hv in H1.
    destruct (vocabulary !! k); [ eauto | discriminate ].
Qed.

Lemma _add_total md keys :
  (∀ key, key ∈ keys → is_Some (md !! key) → is_Some (vocabulary !! key)) →
  ∀ d, ∃ d', _add md keys d = Ok d'.
Proof.
  induction keys as [ | k rest IH ]; intros Hvoc d; cbn [_add]; [ eauto | ].
  assert (H1 : ∃ d1, _add_one md k d = Ok d1).
  { unfold _add_one. destruct (md !! k) as [v | ] eqn:Hv; [ | eauto ].
    destruct (Hvoc k) as [name ->]; [ left | eauto | eauto ]. }
  destruct H1 as [d1 ->]. apply IH. intros key Hkey. apply Hvoc. right. exact Hkey.
Qed.

(** X6. Beside the five geometry entries, a GridSpec holds nothing but
    scalars copied from the metadata: an entry under any other name is the
    value of a metadata key that the vocabulary sends to that name, and the
    name is one of thirteen.  No GridSpec has an entry for the shape of the
    earth, for [dx_in_metres] or [dy_in_metres], or for [latin1] or
    [latin2], whatever the metadata holds. *)
Theorem gridspec_entries_are_copies (md : metadata) (gs : gridspec)
    (name : string) (v : gval) :
  make_gridspec md = Ok gs →
  gs !! name = Some v →
  name ∉ geometry_names →
  (∃ key w, v = GScalar w ∧ md !! key = Some w ∧ vocabulary !! key = Some name)
  ∧ name ∈ ["nx"; "ny"; "ni"; "nj"; "lad"; "lov"; "orientation";
            "standard_parallel"; "central_longitude"; "angle_of_rotation";
            "j_points_consecutive"; "i_scans_negatively";
            "j_scans_positively"]%string.
Proof.
  intros H Hv Hname.
  apply make_gridspec_Ok in H as (g & c & _ & _ & Hc & Hadd).
  rewrite (_add_lookup _ _ name _ _ Hadd) in Hv.
  destruct (copied_value md (copied g) name None) as [w | ] eqn:Hw.
  - injection Hv as <-.
    apply copied_value_Some in Hw as (key & Hkey & Hvoc & Hmd).
    split; [ eauto | ].
    clear -Hkey Hvoc.
    destruct g; unfold copied, scan_keys in Hkey; cbn [app] in Hkey;
      rewrite ?elem_of_cons, elem_of_nil in Hkey;
      repeat (destruct Hkey as [-> | Hkey];
              [ vm_compute in Hvoc; first [ discriminate Hvoc | injection Hvoc as <- ];
                set_solver | ]);
      destruct Hkey.
  - rewrite (core_names g md c name Hc Hname) in Hv. discriminate.
Qed.

Lemma gridspec_entries_are_copies_witness :
  (∃ key w, GScalar (VInt 4) = GScalar w ∧ md_polar !! key = Some w
            ∧ vocabulary !! key = Some "nx"%string)
  ∧ "nx"%string ∈ ["nx"; "ny"; "ni"; "nj"; "lad"; "lov"; "orientation";
                   "standard_parallel"; "central_longitude"; "angle_of_rotation";
                   "j_points_consecutive"; "i_scans_negatively";
                   "j_scans_positively"]%string.
Proof.
  apply (gridspec_entries_are_copies md_polar gs_polar "nx" (GScalar (VInt 4))).
  - vm_compute. reflexivity.
  - vm_compute. reflexivity.
  - unfold geometry_names. rewrite !not_elem_of_cons.
    repeat split; [ discriminate .. | apply not_elem_of_nil ].
Defined.

Lemma copied_scan_keys g :
  filter (λ k, vocabulary !! k = Some "j_points_consecutive"%string) (copied g)
  = ["jPointsAreConsecutive"%string]
  ∧ filter (λ k, vocabulary !! k = Some "i_scans_negatively"%string) (copied g)
    = ["iScansNegatively"%string]
  ∧ filter (λ k, vocabulary !! k = Some "j_scans_positively"%string) (copied g)
    = ["jScansPositively"%string].
Proof. destruct g; vm_compute; auto. Qed.

(** X7. Every class copies the three scanning flags as they are: the
    GridSpec has [j_points_consecutive], [i_scans_negatively] and
    [j_scans_positively] exactly when the metadata has the key, with the
    value of the key. *)
Theorem gridspec_scan_mode (md : metadata) (gs : gridspec) :
  make_gridspec md = Ok gs →
  gs !! "j_points_consecutive" = GScalar <$> md !! "jPointsAreConsecutive"
  ∧ gs !! "i_scans_negatively" = GScalar <$> md !! "iScansNegatively"
  ∧ gs !! "j_scans_positively" = GScalar <$> md !! "jScansPositively".
Proof.
  intros H. apply make_gridspec_Ok in H as (g & c & _ & _ & Hc & Hadd).
  destruct (copied_scan_keys g) as (Hj & Hi & Hp).
  assert (Hcopy : ∀ name key,
             name ∉ geometry_names →
             filter (λ k, vocabulary !! k = Some name) (copied g) = [key] →
             gs !! name = GScalar <$> md !! key).
  { intros name key Hname Hkey. rewrite (_add_lookup _ _ name _ _ Hadd).
    rewrite (copied_value_single md _ name key Hkey).
    destruct (md !! key); [ reflexivity | ].
    apply (core_names g md c name Hc Hname). }
  split; [ | split ]; apply Hcopy; try assumption;
    unfold geometry_names; rewrite !not_elem_of_cons;
    (repeat split; [ discriminate .. | apply not_elem_of_nil ]).
Qed.

Lemma gridspec_scan_mode_witness :
  gs_rotated_ll !! "j_points_consecutive"
  = GScalar <$> md_rotated_ll !! "jPointsAreConsecutive"
  ∧ gs_rotated_ll !! "i_scans_negatively" = GScalar <$> md_rotated_ll !! "iScansNegatively"
  ∧ gs_rotated_ll !! "j_scans_positively" = GScalar <$> md_rotated_ll !! "jScansPositively".
Proof.
  apply (gridspec_scan_mode md_rotated_ll gs_rotated_ll). vm_compute. reflexivity.
Defined.

Lemma copied_angle g :
  filter (λ k, vocabulary !! k = Some "angle_of_rotation"%string) (copied g)
  = if ROTATED g then ["angleOfRotationInDegrees"%string] else [].
Proof. destruct g; vm_compute; reflexivity. Qed.

(** X5. A GridSpec has a [rotation] entry exactly for the three rotated
    classes; it is the pair of the south-pole latitude and longitude of the
    metadata, either of which may be [None].  The angle of rotation is
    copied for these classes and for no other. *)
Theorem gridspec_rotation (md : metadata) (gs : gridspec) (g : maker) :
  make_gridspec md = Ok gs →
  registered (md !! "gridType") = Some g →
  gs !! "rotation"
  = (if ROTATED g
     then Some (GList [md !! "latitudeOfSouthernPoleInDegrees";
                       md !! "longitudeOfSouthernPoleInDegrees"])
     else None)
  ∧ gs !! "angle_of_rotation"
    = (if ROTATED g then GScalar <$> md !! "angleOfRotationInDegrees" else None).
Proof.
  intros H Hg. apply make_gridspec_Ok in H as (g' & c & Hreg & Htype & Hc & Hadd).
  assert (g' = g) by congruence. subst g'. split.
  - rewrite (gridspec_geometry_lookup md g c gs) by (first [ exact Hadd | geometry_name ]).
    apply core_rotation, Hc.
  - rewrite (_add_lookup _ _ "angle_of_rotation" _ _ Hadd).
    rewrite copied_value_filter, copied_angle.
    assert (Hnone : c !! "angle_of_rotation" = None).
    { apply (core_names g md c _ Hc). unfold geometry_names.
      rewrite !not_elem_of_cons.
      repeat split; [ discriminate .. | apply not_elem_of_nil ]. }
    destruct (ROTATED g); simpl; [ | exact Hnone ].
    destruct (md !! "angleOfRotationInDegrees"); [ reflexivity | exact Hnone ].
Qed.

Lemma gridspec_rotation_witness :
  (gs_rotated_ll !! "rotation" = Some (GList [Some (VInt (-35)); Some (VInt 15)])
   ∧ gs_rotated_ll !! "angle_of_rotation"
     = GScalar <$> md_rotated_ll !! "angleOfRotationInDegrees")
  ∧ (gs_polar !! "rotation" = None ∧ gs_polar !! "angle_of_rotation" = None).
Proof.
  split.
  - apply (gridspec_rotation md_rotated_ll gs_rotated_ll RotatedLatLonGridSpecMaker);
      vm_compute; reflexivity.
  - apply (gridspec_rotation md_polar gs_polar PolarStereographicGridSpecMaker);
      vm_compute; reflexivity.
Defined.

(** ** When [make_gridspec] returns, and how it fails *)

(** The checks of [__init__] pass for the class the registry gives. *)
Lemma init_Ok md g : registered (md !! "gridType") = Some g → init md g = Ok tt.
Proof.
  intros Hg. apply registered_Some in Hg. unfold init. rewrite Hg.
  destruct g; simpl is_gaussian; cbv iota; unfold gaussian_label;
    try destruct (py_eq _ _); reflexivity.
Qed.

Lemma make_gridspec_registered md g :
  registered (md !! "gridType") = Some g →
  make_gridspec md = core g md ≫= _add md (copied g).
Proof.
  intros Hg. unfold make_gridspec, GridSpec. rewrite Hg, (init_Ok md g Hg), make_core.
  cbn [mbind result_bind bind].
  destruct (core g md ≫= _add md (copied g)); reflexivity.
Qed.

Lemma _add_Err md keys1 key keys2 d :
  (∀ k, k ∈ keys1 → is_Some (md !! k) → is_Some (vocabulary !! k)) →
  is_Some (md !! key) → vocabulary !! key = None →
  _add md (keys1 ++ key :: keys2) d = Err (NotInVocabulary key).
Proof.
  intros H1 [v Hv] Hvoc. rewrite _add_app.
  destruct (_add_total md keys1 H1 d) as [d' ->].
  cbn [mbind result_bind bind _add]. unfold _add_one. rewrite Hv, Hvoc. reflexivity.
Qed.

Definition is_number (a : option scalar) : Prop :=
  match a with
  | Some (VInt _) | Some (VFloat _) => True
  | _ => False
  end.

Lemma abs_pair_numbers dx dy :
  is_number dx → is_number dy → ∃ grid, abs_pair dx dy = Ok grid.
Proof.
  intros Hx Hy.
  destruct dx as [[ | | ] | ], dy as [[ | | ] | ]; simpl in *; try contradiction; eauto.
Qed.

(** X8. The Lambert class copies its standard parallels under the keys
    [LatIn1InDegrees] and [LatIn2InDegrees], which the vocabulary does not
    have (it has [Latin1InDegrees] and [Latin2InDegrees]): for metadata of
    grid type [lambert] that holds either key, [make_gridspec] returns no
    GridSpec, and when the two increments are numbers it raises the error of
    [_add_one] for the first of the two keys the metadata holds. *)
Theorem lambert_parallels_not_in_vocabulary (md : metadata) :
  md !! "gridType" = Some (VStr "lambert") →
  is_Some (md !! "LatIn1InDegrees") ∨ is_Some (md !! "LatIn2InDegrees") →
  (∀ gs, make_gridspec md ≠ Ok gs)
  ∧ (is_number (md !! "DxInMetres") → is_number (md !! "DyInMetres") →
     make_gridspec md
     = Err (NotInVocabulary (if md !! "LatIn1InDegrees" is Some _
                             then "LatIn1InDegrees" else "LatIn2InDegrees"))).
Proof.
  intros Htype Hlat.
  assert (Hg : registered (md !! "gridType") = Some LambertGridSpecMaker)
    by (rewrite Htype; vm_compute; reflexivity).
  assert (Hvoc : ∀ k, k ∈ ["Nx"; "Ny"; "LaDInDegrees"; "LoVInDegrees"]%string →
                      is_Some (vocabulary !! k)).
  { intros k Hk. rewrite !elem_of_cons, elem_of_nil in Hk.
    repeat (destruct Hk as [-> | Hk]; [ vm_compute; eauto | ]). destruct Hk. }
  split.
  - intros gs H. apply make_gridspec_Ok in H as (g & c & Hg' & _ & _ & Hadd).
    assert (g = LambertGridSpecMaker) by congruence. subst g.
    assert (Hnone : ∀ key, key ∈ copied LambertGridSpecMaker → is_Some (md !! key) →
                           vocabulary !! key = None → False).
    { intros key Hkey Hmd Hk.
      destruct (_add_Ok_vocabulary md _ _ _ Hadd key Hkey Hmd) as [name Hname].
      congruence. }
    destruct Hlat as [Hlat | Hlat];
      [ apply (Hnone "LatIn1InDegrees"%string) | apply (Hnone "LatIn2InDegrees"%string) ];
      first [ exact Hlat | vm_compute; reflexivity
            | unfold copied, scan_keys; cbn [app]; rewrite !elem_of_cons; tauto ].
  - intros Hdx Hdy. rewrite (make_gridspec_registered md _ Hg).
    destruct (abs_pair_numbers _ _ Hdx Hdy) as [grid Hgrid].
    unfold core. rewrite Hgrid. cbn [mbind result_bind bind]. unfold copied.
    destruct (md !! "LatIn1InDegrees") as [v | ] eqn:H1.
    + apply (_add_Err md ["Nx"; "Ny"; "LaDInDegrees"; "LoVInDegrees"]%string
               "LatIn1InDegrees"); [ auto | eauto | vm_compute; reflexivity ].
    + destruct Hlat as [[v Hv] | Hlat]; [ discriminate | ].
      apply (_add_Err md ["Nx"; "Ny"; "LaDInDegrees"; "LoVInDegrees";
                          "LatIn1InDegrees"]%string "LatIn2InDegrees");
        [ | exact Hlat | vm_compute; reflexivity ].
      intros k Hk Hmd. rewrite !elem_of_cons, elem_of_nil in Hk.
      destruct Hk as [-> | [-> | [-> | [-> | [-> | []]]]]];
        try (vm_compute; eauto; fail).
      rewrite H1 in Hmd. destruct Hmd as [? [=]].
Qed.

Definition md_lambert : metadata :=
  list_to_map [
    ("gridType", VStr "lambert");
    ("DxInMetres", VInt 2500);
    ("DyInMetres", VInt 2500);
    ("Nx", VInt 10);
    ("Ny", VInt 8);
    ("LatIn2InDegrees", VFloat 46.5)
  ]%string.

Lemma lambert_parallels_not_in_vocabulary_witness :
  (∀ gs, make_gridspec md_lambert ≠ Ok gs)
  ∧ (is_number (md_lambert !! "DxInMetres") → is_number (md_lambert !! "DyInMetres") →
     make_gridspec md_lambert
     = Err (NotInVocabulary (if md_lambert !! "LatIn1InDegrees" is Some _
                             then "LatIn1InDegrees" else "LatIn2InDegrees"))).
Proof.
  apply (lambert_parallels_not_in_vocabulary md_lambert).
  - vm_compute. reflexivity.
  - right. vm_compute. eauto.
Defined.

(** ** The ways [make_gridspec] fails *)

(** Every error of [r] satisfies [P]. *)
Definition only {A} (P : exn → Prop) (r : result A) : Prop :=
  ∀ e, r = Err e → P e.

Lemma only_Ok {A} (P : exn → Prop) (a : A) : only P (Ok a).
Proof. intros e [=]. Qed.

Lemma only_bind {A B} (P : exn → Prop) (r : result A) (k : A → result B) :
  only P r → (∀ a, r = Ok a → only P (k a)) → only P (r ≫= k).
Proof.
  intros Hr Hk. destruct r as [a | e]; [ apply Hk; reflexivity | ].
  intros e' [= <-]. apply Hr. reflexivity.
Qed.

Lemma only_mono {A} (P Q : exn → Prop) (r : result A) :
  (∀ e, P e → Q e) → only P r → only Q r.
Proof. intros HPQ Hr e He. apply HPQ, Hr, He. Qed.

(** An error of the arithmetic or of a comparison. *)
Definition operand_error (e : exn) : Prop :=
  e = TypeError ∨ e = OverflowError ∨ e = ZeroDivisionError.

Ltac only_step :=
  match goal with
  | |- only _ (Ok _) => apply only_Ok
  | |- only _ (Err _) => intros ? [= <-]
  | |- only _ (_ ≫= _) => apply only_bind; [ | intros ? ? ]
  | |- only _ (bind _ _) => apply only_bind; [ | intros ? ? ]
  | |- only _ (let '(_, _) := ?p in _) => destruct p
  | |- only _ (if ?b then _ else _) => destruct b
  end.

Lemma only_float_of_Z z : only operand_error (float_of_Z z).
Proof. unfold float_of_Z. repeat only_step. right; left; reflexivity. Qed.

Lemma only_to_float a : only operand_error (to_float a).
Proof.
  destruct a as [[ | | ] | ]; simpl; try apply only_float_of_Z;
    repeat only_step; left; reflexivity.
Qed.

Lemma only_py_cmp a b : only (eq TypeError) (py_cmp a b).
Proof. destruct a, b; simpl; repeat only_step; reflexivity. Qed.

Lemma only_py_gt a b : only operand_error (py_gt a b).
Proof.
  destruct a as [a | ], b as [b | ]; simpl; repeat only_step;
    try (left; reflexivity).
  eapply only_mono; [ | apply only_py_cmp ]. intros e <-. left. reflexivity.
Qed.

Lemma only_py_lt a b : only operand_error (py_lt a b).
Proof.
  destruct a as [a | ], b as [b | ]; simpl; repeat only_step;
    try (left; reflexivity).
  eapply only_mono; [ | apply only_py_cmp ]. intros e <-. left. reflexivity.
Qed.

Lemma only_py_max a b : only operand_error (py_max a b).
Proof. unfold py_max. repeat only_step. apply only_py_gt. Qed.

Lemma only_py_min a b : only operand_error (py_min a b).
Proof. unfold py_min. repeat only_step. apply only_py_lt. Qed.

Lemma only_py_abs a : only operand_error (py_abs a).
Proof.
  destruct a as [[ | | ] | ]; simpl; repeat only_step; left; reflexivity.
Qed.

Lemma only_py_sub a b : only operand_error (py_sub a b).
Proof.
  destruct a as [[ | | ] | ], b as [[ | | ] | ]; simpl;
    repeat first [ apply only_float_of_Z | only_step ]; left; reflexivity.
Qed.

Lemma only_py_sub_float a y : only operand_error (py_sub_float a y).
Proof. unfold py_sub_float. repeat first [ apply only_to_float | only_step ]. Qed.

Lemma only_py_truediv_float a b : only operand_error (py_truediv_float a b).
Proof.
  unfold py_truediv_float. repeat first [ apply only_to_float | only_step ].
  right; right; reflexivity.
Qed.

Lemma only_abs_pair dx dy : only operand_error (abs_pair dx dy).
Proof. unfold abs_pair. repeat first [ apply only_py_abs | only_step ]. Qed.

(** The descriptions [_get_first_valid] is called with, each with the keys
    whose absence makes it raise. *)
Definition undetermined : list (string * list string) :=
  [ ("number of points in longitude",
     ["iDirectionIncrementInDegrees"; "numberOfPointsAlongAParallel"; "Ni"]);
    ("number of points in latitude",
     ["jDirectionIncrementInDegrees"; "numberOfPointsAlongAMeridian"; "Nj"]);
    ("x grid increment in metres", ["DyInMetres"; "xDirectionGridLengthInMetres"]);
    ("y grid increment in metres", ["DyInMetres"; "yDirectionGridLengthInMetres"])
  ]%string.

(** The errors of [make_gridspec], each with its cause in the metadata. *)
Definition gridspec_error (md : metadata) (e : exn) : Prop :=
  match e with
  | UnsupportedGridType t => t = md !! "gridType" ∧ registered t = None
  | CouldNotDetermine desc =>
      ∃ keys, (desc, keys) ∈ undetermined ∧ Forall (λ k, md !! k = None) keys
  | NoScanningMode =>
      md !! "iScansNegatively" = None ∧ md !! "iScansPositively" = None
  | NotInVocabulary key =>
      md !! "gridType" = Some (VStr "lambert")
      ∧ key ∈ ["LatIn1InDegrees"; "LatIn2InDegrees"]%string
      ∧ is_Some (md !! key)
  | TypeError | OverflowError => True
  | NoValidKey _ | InvalidLabel | AssertionError | ZeroDivisionError
  | KeyError _ | ImportError _ | External _ => False
  end.

(** The same for [make] of the class [g], before the division by zero is
    ruled out. *)
Definition make_error (md : metadata) (g : maker) (e : exn) : Prop :=
  operand_error e
  ∨ (e = NoScanningMode
     ∧ md !! "iScansNegatively" = None ∧ md !! "iScansPositively" = None)
  ∨ (∃ desc keys, e = CouldNotDetermine desc ∧ (desc, keys) ∈ undetermined
                  ∧ Forall (λ k, md !! k = None) keys)
  ∨ (∃ key, e = NotInVocabulary key ∧ g = LambertGridSpecMaker
            ∧ key ∈ ["LatIn1InDegrees"; "LatIn2InDegrees"]%string
            ∧ is_Some (md !! key)).

Lemma only_operand md g {A} (r : result A) :
  only operand_error r → only (make_error md g) r.
Proof. apply only_mono. intros e He. left. exact He. Qed.

Lemma _get_first_valid_Err md keys desc all_keys e :
  desc ≠ ""%string →
  _get_first_valid md keys desc all_keys = Err e →
  e = CouldNotDetermine desc ∧ Forall (λ k, md !! k = None) keys.
Proof.
  intros Hdesc. induction keys as [ | k rest IH ]; cbn [_get_first_valid].
  - rewrite bool_decide_eq_false_2 by exact Hdesc. intros [= <-]. auto.
  - destruct (md !! k) eqn:Hk; [ discriminate | ].
    intros H. destruct (IH H) as [-> Hrest]. auto.
Qed.

Lemma only_derived_increment md g keys desc first last key :
  desc ≠ ""%string →
  (desc, key :: keys) ∈ undetermined →
  md !! key = None →
  only (make_error md g) (derived_increment md keys desc first last).
Proof.
  intros Hdesc Hin Hkey. unfold derived_increment.
  apply only_bind.
  { intros e He. apply _get_first_valid_Err in He as [-> Hnone]; [ | exact Hdesc ].
    right; right; left. exists desc, (key :: keys). auto. }
  intros n _.
  repeat first [ apply only_operand;
                 first [ apply only_py_sub | apply only_py_sub_float
                       | apply only_py_truediv_float ]
               | only_step ].
Qed.

Lemma only_LatLon_get_grid md g : only (make_error md g) (LatLon_get_grid md).
Proof.
  unfold LatLon_get_grid, derived_dx, derived_dy.
  apply only_bind.
  { destruct (md !! "iDirectionIncrementInDegrees") eqn:Hdx; [ apply only_Ok | ].
    eapply only_derived_increment; [ discriminate | | exact Hdx ].
    unfold undetermined. set_solver. }
  intros dx _. apply only_bind; [ | intros; apply only_Ok ].
  destruct (md !! "jDirectionIncrementInDegrees") eqn:Hdy; [ apply only_Ok | ].
  eapply only_derived_increment; [ discriminate | | exact Hdy ].
  unfold undetermined. set_solver.
Qed.

Lemma only_ReducedLatLon_get_grid md g :
  only (make_error md g) (ReducedLatLon_get_grid md).
Proof.
  unfold ReducedLatLon_get_grid, derived_dy.
  apply only_bind; [ | intros; apply only_Ok ].
  destruct (md !! "jDirectionIncrementInDegrees") eqn:Hdy; [ apply only_Ok | ].
  eapply only_derived_increment; [ discriminate | | exact Hdy ].
  unfold undetermined. set_solver.
Qed.

Lemma only_LambertAEA_get_grid md g :
  only (make_error md g) (LambertAEA_get_grid md).
Proof.
  unfold LambertAEA_get_grid.
  apply only_bind; [ | intros dx _; apply only_bind; [ | intros; apply only_Ok ] ];
    intros e He; (apply _get_first_valid_Err in He as [-> Hnone]; [ | discriminate ]);
    right; right; left; do 2 eexists;
    (split; [ reflexivity | split; [ | exact Hnone ] ]);
    unfold undetermined; set_solver.
Qed.

Lemma only_x_scan_dir md g : only (make_error md g) (x_scan_dir md).
Proof.
  unfold x_scan_dir.
  destruct (md !! "iScansNegatively") eqn:Hn; [ apply only_Ok | ].
  destruct (md !! "iScansPositively") eqn:Hp; [ apply only_Ok | ].
  intros e [= <-]. right; left. auto.
Qed.

Lemma only_area md g : only (make_error md g) (area md g).
Proof.
  unfold area, north, south, west, east.
  repeat first [ apply only_x_scan_dir
               | apply only_operand; first [ apply only_py_max | apply only_py_min ]
               | only_step ].
Qed.

Lemma only_core md g : only (make_error md g) (core g md).
Proof.
  destruct g; unfold core;
    repeat first [ apply only_LatLon_get_grid | apply only_ReducedLatLon_get_grid
                 | apply only_LambertAEA_get_grid | apply only_area
                 | apply only_operand; first [ apply only_abs_pair | apply only_py_abs ]
                 | only_step ].
Qed.

Lemma _add_Err_key md keys :
  ∀ d e, _add md keys d = Err e →
    ∃ key, e = NotInVocabulary key ∧ key ∈ keys ∧ is_Some (md !! key)
           ∧ vocabulary !! key = None.
Proof.
  induction keys as [ | k rest IH ]; intros d e; cbn [_add]; [ discriminate | ].
  destruct (_add_one md k d) as [d1 | e1] eqn:H1; cbn [mbind result_bind bind].
  - intros H. destruct (IH _ _ H) as (key & -> & Hkey & Hrest).
    exists key. split; [ reflexivity | split; [ right; exact Hkey | exact Hrest ] ].
  - intros [= <-]. unfold _add_one in H1.
    destruct (md !! k) as [v | ] eqn:Hv; [ | discriminate ].
    destruct (vocabulary !! k) eqn:Hk; [ discriminate | ].
    injection H1 as <-. exists k. split; [ reflexivity | ].
    split; [ left | eauto ].
Qed.

Lemma only_add_copied md g d : only (make_error md g) (_add md (copied g) d).
Proof.
  intros e He. apply _add_Err_key in He as (key & -> & Hkey & Hmd & Hvoc).
  right; right; right. exists key.
  destruct g; unfold copied, scan_keys in Hkey; cbn [app] in Hkey;
    rewrite ?elem_of_cons, elem_of_nil in Hkey;
    repeat (destruct Hkey as [-> | Hkey];
            [ first [ discriminate Hvoc
                    | split; [ reflexivity | split; [ reflexivity | split;
                        [ rewrite !elem_of_cons; tauto | exact Hmd ] ] ] ] | ]);
    destruct Hkey.
Qed.

(** X10. The errors of [make_gridspec] and their causes.  It raises the
    unsupported-type error only for a [gridType] outside the registry;
    the "could not determine" error names a missing number of points or
    metric increment, and then none of the keys that would give it is in the
    metadata; the scanning-mode error means both [iScansNegatively] and
    [iScansPositively] are missing; the vocabulary error arises only for a
    Lambert grid that holds [LatIn1InDegrees] or [LatIn2InDegrees]; what is
    left is the [TypeError] or [OverflowError] of an operand.  It never
    fails the assertion of [__init__], never rejects a Gaussian label,
    never raises the "none of the keys" error and never divides by zero. *)
Theorem make_gridspec_errors (md : metadata) (e : exn) :
  make_gridspec md = Err e → gridspec_error md e.
Proof.
  intros H.
  destruct (registered (md !! "gridType")) as [g | ] eqn:Hg.
  - pose proof (nzd_make_gridspec md) as Hnzd.
    assert (Hmake : make_error md g e).
    { rewrite (make_gridspec_registered md g Hg) in H. revert e H.
      fold (only (make_error md g) (core g md ≫= _add md (copied g))).
      apply only_bind; [ apply only_core | intros c _; apply only_add_copied ]. }
    destruct Hmake as [[-> | [-> | ->]] | [(-> & Hn & Hp) | [(desc & keys & -> & Hin & Hnone)
                      | (key & -> & -> & Hkey & Hmd)]]]; simpl.
    + exact I.
    + exact I.
    + apply Hnzd, H.
    + auto.
    + eauto.
    + split; [ apply registered_Some in Hg; exact Hg | auto ].
  - unfold make_gridspec in H. rewrite Hg in H. injection H as <-. simpl. auto.
Qed.

Definition md_no_counts : metadata :=
  list_to_map [
    ("gridType", VStr "regular_ll");
    ("jDirectionIncrementInDegrees", VFloat 0.25);
    ("longitudeOfFirstGridPointInDegrees", VInt 0);
    ("longitudeOfLastGridPointInDegrees", VInt 90);
    ("latitudeOfFirstGridPointInDegrees", VInt 60);
    ("latitudeOfLastGridPointInDegrees", VInt 30);
    ("iScansNegatively", VInt 0)
  ]%string.

Lemma make_gridspec_errors_witness :
  gridspec_error md_no_counts (CouldNotDetermine "number of points in longitude").
Proof.
  apply (make_gridspec_errors md_no_counts). vm_compute. reflexivity.
Defined.

(** ** The bounding box *)

Lemma SFcompare_antisym x y : SFcompare x y = CompOpp <$> SFcompare y x.
Proof.
  destruct x as [ [ | ] | [ | ] | | [ | ] m1 e1 ], y as [ [ | ] | [ | ] | | [ | ] m2 e2 ];
    simpl; try reflexivity;
    rewrite (Z.compare_antisym e1 e2); destruct (e1 ?= e2); simpl; try reflexivity;
    fold (Pos.compare m1 m2); fold (Pos.compare m2 m1);
    rewrite (Pos.compare_antisym m1 m2); destruct (m1 ?= m2)%positive; reflexivity.
Qed.

Lemma string_compare_antisym (s t : string) :
  String.compare s t = CompOpp (String.compare t s).
Proof. apply String.compare_antisym. Qed.

(** The order of Python is antisymmetric where it is defined. *)
Lemma py_cmp_antisym a b :
  py_cmp a b = match py_cmp b a with
               | Ok c => Ok (CompOpp <$> c)
               | Err e => Err e
               end.
Proof.
  destruct a as [x | x | x], b as [y | y | y]; simpl; try reflexivity.
  - rewrite (Z.compare_antisym y x). reflexivity.
  - destruct (float_cmp_Z x y) as [[ | | ] | ]; reflexivity.
  - unfold float_cmp. rewrite SFcompare_antisym. reflexivity.
  - rewrite string_compare_antisym. reflexivity.
Qed.

Lemma py_lt_asym a b : py_lt a b = Ok true → py_lt b a = Ok false.
Proof.
  destruct a as [a | ], b as [b | ]; simpl; try discriminate.
  rewrite (py_cmp_antisym b a).
  destruct (py_cmp a b) as [[[ | | ] | ] | ]; simpl; congruence.
Qed.

Lemma py_lt_irrefl a b : py_lt a a = Ok b → b = false.
Proof.
  destruct a as [a | ]; simpl; [ | discriminate ].
  pose proof (py_cmp_antisym a a) as H.
  destruct (py_cmp a a) as [[[ | | ] | ] | ]; simpl in *; congruence.
Qed.

Lemma py_gt_lt a b : py_gt a b = py_lt b a.
Proof.
  destruct a as [a | ], b as [b | ]; simpl; try reflexivity.
  rewrite (py_cmp_antisym a b).
  destruct (py_cmp b a) as [[[ | | ] | ] | ]; reflexivity.
Qed.

(** [max] and [min] of the same two values are never in the wrong order. *)
Lemma py_max_min_ordered a b n s :
  py_max a b = Ok n → py_min a b = Ok s →
  (n = a ∨ n = b) ∧ (s = a ∨ s = b) ∧ py_lt n s = Ok false.
Proof.
  unfold py_max, py_min. intros Hn Hs.
  apply bind_Ok in Hn as (gt & Hgt & Hn). apply bind_Ok in Hs as (lt & Hlt & Hs).
  injection Hn as <-. injection Hs as <-. rewrite py_gt_lt in Hgt.
  destruct gt, lt; (split; [ auto | split; [ auto | ] ]).
  - rewrite (py_lt_asym _ _ Hlt) in Hgt. discriminate.
  - apply py_lt_asym, Hgt.
  - apply py_lt_asym, Hlt.
  - destruct (py_lt a a) as [[ | ] | ] eqn:Haa.
    + apply py_lt_irrefl in Haa. discriminate.
    + reflexivity.
    + destruct a as [a | ], b as [b | ]; try discriminate.
      simpl in Haa, Hlt. rewrite (py_cmp_antisym b a) in Hlt.
      destruct a, b; simpl in *; try discriminate;
        first [ destruct (_ ?= _); discriminate | idtac ].
Qed.

Lemma make_gridspec_area md gs g :
  make_gridspec md = Ok gs →
  registered (md !! "gridType") = Some g →
  if by_first_point g then gs !! "area" = None
  else if is_gaussian g && is_global md then gs !! "area" = None
       else ∃ n w s e, area md g = Ok (GList [n; w; s; e])
                       ∧ gs !! "area" = Some (GList [n; w; s; e]).
Proof.
  intros H Hg. apply make_gridspec_Ok in H as (g' & c & Hreg & Htype & Hc & Hadd).
  assert (g' = g) by congruence. subst g'.
  rewrite !(gridspec_geometry_lookup md g c gs) by (first [ exact Hadd | geometry_name ]).
  pose proof (core_area g md c Hc) as Hbox.
  destruct (by_first_point g); [ apply Hbox | apply Hbox ].
Qed.

(** [max] and [min] of the same two values, exactly. *)
Lemma py_max_min_exact a b n s :
  py_max a b = Ok n → py_min a b = Ok s →
  ∃ f l c, a = Some f ∧ b = Some l ∧ py_cmp l f = Ok c
           ∧ (n, s) = match c with
                      | Some Gt => (Some l, Some f)
                      | Some Lt => (Some f, Some l)
                      | _ => (Some f, Some f)
                      end.
Proof.
  unfold py_max, py_min, py_gt, py_lt.
  destruct a as [f | ], b as [l | ]; try discriminate.
  destruct (py_cmp l f) as [c | e] eqn:Hc; [ | discriminate ].
  cbn [bind]. intros [= <-] [= <-]. exists f, l, c.
  split; [ reflexivity | split; [ reflexivity | split; [ exact Hc | ] ] ].
  destruct c as [[ | | ] | ]; reflexivity.
Qed.

(** X11. The [area] of a GridSpec is a box the right way up.  Both corner
    latitudes are there and can be compared; the north is the larger and
    the south the smaller of the first and the last latitude, whichever
    way the rows are stored; when neither is larger (the two are equal, or
    one is a NaN) north and south are both the first latitude; so the
    north is never below the south.  The west is the first longitude and
    the east the last for a Gaussian class, whatever the scanning flags
    say, and for any other class when the i direction scans positively;
    when it scans negatively the two are swapped. *)
Theorem gridspec_area_box (md : metadata) (gs : gridspec) (g : maker)
    (n w s e : option scalar) :
  make_gridspec md = Ok gs →
  registered (md !! "gridType") = Some g →
  gs !! "area" = Some (GList [n; w; s; e]) →
  (∃ f l c, first_lat md = Some f ∧ last_lat md = Some l ∧ py_cmp l f = Ok c
            ∧ (n, s) = match c with
                       | Some Gt => (Some l, Some f)
                       | Some Lt => (Some f, Some l)
                       | _ => (Some f, Some f)
                       end)
  ∧ py_lt n s = Ok false
  ∧ (if is_gaussian g then w = first_lon md ∧ e = last_lon md
     else ∃ dir, x_scan_dir md = Ok dir
                 ∧ (w, e) = if dir =? POSITIVE_SCAN_DIR
                            then (first_lon md, last_lon md)
                            else (last_lon md, first_lon md)).
Proof.
  intros H Hg Harea.
  pose proof (make_gridspec_area md gs g H Hg) as Hbox.
  destruct (by_first_point g); [ congruence | ].
  destruct (is_gaussian g && is_global md); [ congruence | ].
  destruct Hbox as (n' & w' & s' & e' & Ha & Hgs).
  rewrite Hgs in Harea. injection Harea as -> -> -> ->.
  unfold area in Ha.
  apply bind_Ok in Ha as (n0 & Hn & Ha). apply bind_Ok in Ha as (w0 & Hw & Ha).
  apply bind_Ok in Ha as (s0 & Hs & Ha). apply bind_Ok in Ha as (e0 & He & Ha).
  injection Ha as <- <- <- <-.
  destruct (py_max_min_ordered _ _ _ _ Hn Hs) as (_ & _ & Hlt).
  split; [ exact (py_max_min_exact _ _ _ _ Hn Hs) | split; [ exact Hlt | ] ].
  unfold west, east in Hw, He. destruct (is_gaussian g).
  - injection Hw as <-. injection He as <-. auto.
  - apply bind_Ok in Hw as (dir & Hdir & Hw). rewrite Hdir in He.
    cbn [mbind result_bind bind] in He. injection Hw as <-. injection He as <-.
    exists dir. split; [ exact Hdir | ]. destruct (dir =? POSITIVE_SCAN_DIR); reflexivity.
Qed.

Lemma gridspec_area_box_witness :
  (∃ f l c, first_lat md_rotated_ll = Some f ∧ last_lat md_rotated_ll = Some l
            ∧ py_cmp l f = Ok c
            ∧ (Some (VInt 50), Some (VInt 40))
              = match c with
                | Some Gt => (Some l, Some f)
                | Some Lt => (Some f, Some l)
                | _ => (Some f, Some f)
                end)
  ∧ py_lt (Some (VInt 50)) (Some (VInt 40)) = Ok false
  ∧ ∃ dir, x_scan_dir md_rotated_ll = Ok dir
           ∧ (Some (VInt 20), Some (VInt 10))
             = if dir =? POSITIVE_SCAN_DIR
               then (first_lon md_rotated_ll, last_lon md_rotated_ll)
               else (last_lon md_rotated_ll, first_lon md_rotated_ll).
Proof.
  apply (gridspec_area_box md_rotated_ll gs_rotated_ll RotatedLatLonGridSpecMaker);
    vm_compute; reflexivity.
Defined.

(** ** The keys a GridSpec depends on *)

(** The metadata keys the makers read. *)
Definition geometry_keys : list string :=
  ["gridType"; "N"; "isOctahedral"; "global";
   "latitudeOfFirstGridPointInDegrees"; "longitudeOfFirstGridPointInDegrees";
   "latitudeOfLastGridPointInDegrees"; "longitudeOfLastGridPointInDegrees";
   "iScansNegatively"; "iScansPositively"; "jScansPositively";
   "jPointsAreConsecutive";
   "latitudeOfSouthernPoleInDegrees"; "longitudeOfSouthernPoleInDegrees";
   "angleOfRotationInDegrees";
   "iDirectionIncrementInDegrees"; "jDirectionIncrementInDegrees";
   "numberOfPointsAlongAParallel"; "numberOfPointsAlongAMeridian";
   "Ni"; "Nj"; "Nx"; "Ny";
   "DiInMetres"; "DjInMetres"; "DxInMetres"; "DyInMetres";
   "xDirectionGridLengthInMetres"; "yDirectionGridLengthInMetres";
   "LaDInDegrees"; "LoVInDegrees"; "orientationOfTheGridInDegrees";
   "LatIn1InDegrees"; "LatIn2InDegrees";
   "standardParallelInDegrees"; "centralLongitudeInDegrees"]%string.

Ltac agree_on H md md' :=
  unfold geometry_keys in H;
  repeat match type of H with
         | Forall _ (_ :: _) =>
             let Hk := fresh "Hk" in
             apply Forall_cons in H as [Hk H];
             cbv beta in Hk; rewrite ?Hk; clear Hk
         end;
  clear H.

(** X12. A GridSpec depends on thirty-six metadata keys and on no other:
    two metadata that agree on these keys get the same GridSpec, or the
    same error.  The keys of the shape of the earth are not among them,
    nor are [Latin1InDegrees] and [Latin2InDegrees]. *)
Theorem make_gridspec_reads_geometry_keys (md md' : metadata) :
  Forall (λ k, md !! k = md' !! k) geometry_keys →
  make_gridspec md = make_gridspec md'.
Proof.
  intros H. unfold make_gridspec.
  assert (Htype : md !! "gridType" = md' !! "gridType").
  { unfold geometry_keys in H. apply Forall_cons in H as [Hk _]. exact Hk. }
  rewrite <- Htype.
  destruct (registered (md !! "gridType")) as [g | ] eqn:Hg; [ | reflexivity ].
  assert (Hg' : registered (md' !! "gridType") = Some g) by (rewrite <- Htype; exact Hg).
  rewrite (init_Ok md g Hg), (init_Ok md' g Hg'). f_equal.
  cbn [mbind result_bind bind].
  destruct g;
    unfold make, LatLon_make, ReducedLatLon_make, Gaussian_make, Mercator_make,
      PolarStereographic_make, Lambert_make, LambertAEA_make,
      LatLon_get_grid, ReducedLatLon_get_grid, Mercator_get_grid, Metric_get_grid,
      LambertAEA_get_grid, derived_dx, derived_dy, derived_increment,
      area, north, south, west, east, x_scan_dir, first_lat, first_lon, last_lat,
      last_lon, _add_rotation, _add_scan_mode, rotation, gaussian_label, get_default;
    cbn [_add _get_first_valid ROTATED is_gaussian]; unfold _add_one;
    agree_on H md md'; reflexivity.
Qed.

Lemma make_gridspec_reads_geometry_keys_witness :
  make_gridspec md_polar
  = make_gridspec (<["shapeOfTheEarth" := VInt 6]> (<["shortName" := VStr "2t"]> md_polar)).
Proof.
  apply (make_gridspec_reads_geometry_keys md_polar).
  unfold geometry_keys. repeat constructor.
Defined.

(** * Further properties of the metadata facade *)

(** ** [GribFieldGeography] *)

Module Geography.

(** [sub in s] for two [str]. *)
Fixpoint contains (sub s : string) : bool :=
  String.prefix sub s
  || match s with
     | EmptyString => false
     | String _ rest => contains sub rest
     end.

(** The order of two tuples of [int]. *)
Fixpoint tuple_compare (a b : list Z) : comparison :=
  match a, b with
  | [], [] => Eq
  | [], _ :: _ => Lt
  | _ :: _, [] => Gt
  | x :: a', y :: b' =>
      match x ?= y with
      | Eq => tuple_compare a' b'
      | c => c
      end
  end.

Definition tuple_ge (a b : list Z) : bool :=
  match tuple_compare a b with
  | Lt => false
  | _ => true
  end.

(** What a call of the constructor ends in; [RuntimeError] is raised by
    [check_rotated_support] alone. *)
Inductive outcome (A : Type) :=
| Returned (a : A)
| Raised (e : exn)
| RaisedRuntimeError (msg : string).
Arguments Returned {A} a.
Arguments Raised {A} e.
Arguments RaisedRuntimeError {A} msg.

Section Geography.
Variable typed_value : ktype → scalar → scalar.
(** [ECC_FEATURES.version], the version of ecCodes as a tuple. *)
Variable version : list Z.

(** [self.metadata.get(key)] *)
Abbreviation md_get h key := (get typed_value h key).

(** [GribFieldGeography.mars_grid]: a list of the two increments, or the
    name of the grid. *)
Definition mars_grid (h : handle)
    : result (list (option scalar) + option scalar) :=
  s ← shape typed_value h;
  if (length s =? 2)%nat then
    dx ← md_get h "iDirectionIncrementInDegrees";
    dy ← md_get h "jDirectionIncrementInDegrees";
    Ok (inl [dx; dy])
  else
    name ← md_get h "gridName";
    Ok (inr name).

Definition mars_area (h : handle) : result (list (option scalar)) :=
  north ← md_get h "latitudeOfFirstGridPointInDegrees";
  south ← md_get h "latitudeOfLastGridPointInDegrees";
  west ← md_get h "longitudeOfFirstGridPointInDegrees";
  east ← md_get h "longitudeOfLastGridPointInDegrees";
  Ok [north; west; south; east].

(** [GribFieldGeography.rotated]: [in] wants a [str] on its right. *)
Definition rotated (h : handle) : result bool :=
  grid_type ← md_get h "gridType";
  match grid_type with
  | Some (VStr s) => Ok (contains "rotated" s)
  | _ => Err TypeError
  end.

Definition check_rotated_support (h : handle) : outcome unit :=
  match rotated h with
  | Err e => Raised e
  | Ok r =>
      match (if r then md_get h "gridType" else Ok None) with
      | Err e => Raised e
      | Ok grid_type =>
          if r && py_eq_opt grid_type (Some (VStr "reduced_rotated_gg"))
          then
            if negb (tuple_ge version [2; 35; 0])
            then RaisedRuntimeError
                   "gridType=rotated_reduced_gg requires ecCodes >= 2.35.0"
            else Returned tt
          else Returned tt
      end
  end.

(** [GribFieldGeography(metadata)] *)
Definition init (h : handle) : outcome unit := check_rotated_support h.

(** [GribFieldGeography.gridspec]: the makers read the facade with
    [get(key, default)], which for each key they read is the lookup in the
    handle ([geometry_keys_plain] below). *)
Definition gridspec (h : handle) : result GridSpecMaker.gridspec :=
  make_gridspec (h_keys h).

End Geography.
End Geography.

Section GeographyFacts.
Variable typed_value : ktype → scalar → scalar.

(** None of the keys the makers read is an alias or [shortName]. *)
Lemma geometry_keys_plain (h : handle) :
  Forall (λ k, get typed_value h k = Ok (h_keys h !! k)) geometry_keys.
Proof. unfold geometry_keys. repeat constructor; apply get_plain; discriminate. Qed.

Lemma contains_rotated (g : maker) :
  Geography.contains "rotated" (GRID_TYPE g) = ROTATED g.
Proof. destruct g; reflexivity. Qed.

(** X13. The [rotated] flag of the geography, a substring test on
    [gridType], agrees with the [ROTATED] attribute of the maker class on
    each of the eleven registered grid types; without a [gridType], or with
    one that is no [str], it raises [TypeError]. *)
Theorem rotated_agrees_with_maker (h : handle) :
  (∀ g, h_keys h !! "gridType" = Some (VStr (GRID_TYPE g)) →
        Geography.rotated typed_value h = Ok (ROTATED g))
  ∧ ((∀ s, h_keys h !! "gridType" ≠ Some (VStr s)) →
     Geography.rotated typed_value h = Err TypeError).
Proof.
  unfold Geography.rotated. rewrite get_plain by discriminate.
  cbn [mbind result_bind bind]. split.
  - intros g ->. rewrite contains_rotated. reflexivity.
  - intros Hs. destruct (h_keys h !! "gridType") as [[z | f | s] | ]; try reflexivity.
    destruct (Hs s). reflexivity.
Qed.

(** X14. The constructor of the geography, which runs
    [check_rotated_support]: it raises [TypeError] when the metadata has no
    [gridType] or one that is no [str]; it raises [RuntimeError] exactly
    when [gridType] is [reduced_rotated_gg] and the version of ecCodes is
    below 2.35.0; in every other case it returns. *)
Theorem geography_init (version : list Z) (h : handle) :
  Geography.init typed_value version h
  = match h_keys h !! "gridType" with
    | Some (VStr s) =>
        if bool_decide (s = "reduced_rotated_gg"%string)
           && negb (Geography.tuple_ge version [2; 35; 0])
        then Geography.RaisedRuntimeError
               "gridType=rotated_reduced_gg requires ecCodes >= 2.35.0"
        else Geography.Returned tt
    | _ => Geography.Raised TypeError
    end.
Proof.
  unfold Geography.init, Geography.check_rotated_support, Geography.rotated.
  rewrite get_plain by discriminate. cbn [mbind result_bind bind].
  destruct (h_keys h !! "gridType") as [[z | f | s] | ]; try reflexivity.
  destruct (bool_decide_reflect (s = "reduced_rotated_gg"%string)) as [-> | Hs].
  - reflexivity.
  - destruct (Geography.contains "rotated" s); [ | reflexivity ].
    cbn [andb py_eq_opt]. 
    assert (Hne : py_eq (VStr s) (VStr "reduced_rotated_gg") = false).
    { unfold py_eq, py_cmp.
      destruct (String.compare s "reduced_rotated_gg") eqn:Hc; try reflexivity.
      apply String.compare_eq_iff in Hc. contradiction. }
    rewrite Hne. reflexivity.
Qed.
End GeographyFacts.

Definition h_rotated_gg : handle :=
  {| h_keys := list_to_map [("gridType", VStr "rotated_gg"); ("N", VInt 320)]%string;
     h_values := [] |}.

Lemma rotated_agrees_with_maker_witness :
  Geography.rotated (λ _ v, v) h_rotated_gg = Ok true
  ∧ Geography.rotated (λ _ v, v) {| h_keys := ∅; h_values := [] |} = Err TypeError.
Proof.
  split.
  - apply (proj1 (rotated_agrees_with_maker (λ _ v, v) h_rotated_gg)
             RegularRotatedGaussianGridSpecMaker).
    reflexivity.
  - apply (proj2 (rotated_agrees_with_maker (λ _ v, v) {| h_keys := ∅; h_values := [] |})).
    intros s. discriminate.
Defined.

(** ** Reading a key *)

Section GetFacts.
Variable typed_value : ktype → scalar → scalar.

(** The value as [handle.get] returns it for [ktype=astype]. *)
Definition as_type (astype : option ktype) (v : scalar) : scalar :=
  match astype with
  | Some t => typed_value t v
  | None => v
  end.

(** X15. [GribMetadata._get]: [param] is an alias of [shortName] and
    [_param_id] of [paramId]; without [raise_on_missing] the lookup never
    raises; with it the only error is the [KeyError] of a key that the
    handle does not have, the key asked for (after the aliases) or
    [paramId] when [shortName] was asked for; a key other than [shortName]
    gives its value when the handle has it and the default when not; a
    [shortName] of ["~"] gives [paramId] read as [str]. *)
Theorem get_aliases_and_missing_keys (h : handle) (key : string)
    (default : option scalar) (astype : option ktype) :
  (∀ r, _get typed_value h "param" default astype r
        = _get typed_value h "shortName" default astype r)
  ∧ (∀ r, _get typed_value h "_param_id" default astype r
          = _get typed_value h "paramId" default astype r)
  ∧ (∃ v, _get typed_value h key default astype false = Ok v)
  ∧ (∀ e, _get typed_value h key default astype true = Err e →
          ∃ k, e = KeyError k ∧ h_keys h !! k = None
               ∧ (k = _key_name key
                  ∨ k = "paramId"%string ∧ _key_name key = "shortName"%string))
  ∧ (_key_name key ≠ "shortName"%string →
     ∀ r, _get typed_value h key default astype r
          = match h_keys h !! _key_name key with
            | Some v => Ok (Some (as_type astype v))
            | None => if r then Err (KeyError (_key_name key)) else Ok default
            end)
  ∧ (h_keys h !! "shortName" = Some (VStr "~") →
     ∀ r, _get typed_value h "shortName" default None r
          = handle_get typed_value h "paramId" (Some KStr) default r).
Proof.
  split; [ reflexivity | split; [ reflexivity | ] ].
  unfold _get, handle_get. split; [ | split; [ | split ] ].
  - destruct (h_keys h !! _key_name key) as [v | ]; cbn [mbind result_bind bind];
      destruct (_ && _); try destruct (h_keys h !! "paramId"); eauto.
  - intros e.
    destruct (h_keys h !! _key_name key) as [v | ] eqn:Hkey; cbn [mbind result_bind bind].
    + destruct (bool_decide_reflect (_key_name key = "shortName"%string)) as [Hs | Hs];
        cbn [andb]; [ | discriminate ].
      destruct (py_eq_opt _ _); [ | discriminate ].
      destruct (h_keys h !! "paramId") eqn:Hp; [ discriminate | ].
      intros [= <-]. exists "paramId"%string. auto.
    + intros [= <-]. exists (_key_name key). auto.
  - intros Hs r. rewrite (bool_decide_eq_false_2 _ Hs).
    destruct (h_keys h !! _key_name key) as [v | ]; cbn [mbind result_bind bind andb];
      [ reflexivity | destruct r; reflexivity ].
  - intros Hs r. change (_key_name "shortName") with "shortName"%string. rewrite Hs.
    reflexivity.
Qed.

(** ** The shape and the MARS grid *)

(** A number of points that is there and is not the sentinel. *)
Definition counted (x : option scalar) : bool :=
  match x with
  | Some v => negb (py_eq v (VInt 2147483647))
  | None => false
  end.

Lemma missing_is_none_counted x :
  Metadata.missing_is_none x = if counted x then x else None.
Proof.
  unfold Metadata.missing_is_none, counted, py_eq_opt.
  destruct x as [v | ]; [ | reflexivity ]. destruct (py_eq v _); reflexivity.
Qed.

(** X16. [shape] and [mars_grid] never raise.  When [Ni] and [Nj] are
    both in the metadata and neither equals the sentinel 2147483647, the
    shape is [(Nj, Ni)] and the MARS grid the list of the two increments in
    degrees; in every other case the shape is the 1-tuple of
    [numberOfDataPoints] and the MARS grid is [gridName]. *)
Theorem shape_and_mars_grid (h : handle) :
  if counted (h_keys h !! "Ni") && counted (h_keys h !! "Nj")
  then shape typed_value h = Ok [h_keys h !! "Nj"; h_keys h !! "Ni"]
       ∧ Geography.mars_grid typed_value h
         = Ok (inl [h_keys h !! "iDirectionIncrementInDegrees";
                    h_keys h !! "jDirectionIncrementInDegrees"])
  else shape typed_value h = Ok [h_keys h !! "numberOfDataPoints"]
       ∧ Geography.mars_grid typed_value h = Ok (inr (h_keys h !! "gridName")).
Proof.
  unfold Geography.mars_grid, shape. rewrite !get_plain by discriminate.
  cbn [mbind result_bind bind]. rewrite !missing_is_none_counted.
  destruct (counted (h_keys h !! "Ni")) eqn:Hi, (counted (h_keys h !! "Nj")) eqn:Hj;
    cbn [andb].
  - destruct (h_keys h !! "Ni"); [ | discriminate Hi ].
    destruct (h_keys h !! "Nj"); [ | discriminate Hj ].
    rewrite !bool_decide_eq_false_2 by discriminate. auto.
  - rewrite (bool_decide_eq_true_2 (None = None)) by reflexivity.
    rewrite orb_true_r. auto.
  - rewrite (bool_decide_eq_true_2 (None = None)) by reflexivity. auto.
  - rewrite (bool_decide_eq_true_2 (None = None)) by reflexivity. auto.
Qed.

End GetFacts.

Definition h_unnamed : handle :=
  {| h_keys := list_to_map [("shortName", VStr "~"); ("paramId", VInt 260999)]%string;
     h_values := [] |}.

Lemma get_aliases_and_missing_keys_witness :
  (∃ k, KeyError "level" = KeyError k ∧ h_keys h_unnamed !! k = None
        ∧ (k = _key_name "level"
           ∨ k = "paramId"%string ∧ _key_name "level" = "shortName"%string))
  ∧ _get (λ _ v, v) h_unnamed "shortName" None None false
    = handle_get (λ _ v, v) h_unnamed "paramId" (Some KStr) None false.
Proof.
  split.
  - apply (proj1 (proj2 (proj2 (proj2
             (get_aliases_and_missing_keys (λ _ v, v) h_unnamed "level" None None))))).
    reflexivity.
  - apply (proj2 (proj2 (proj2 (proj2 (proj2
             (get_aliases_and_missing_keys (λ _ v, v) h_unnamed "shortName" None None)))))).
    reflexivity.
Defined.


(** ** Namespaces and the dump *)

Section DumpFacts.
Variable codes_as_namespace : handle → option string → gmap string scalar.

Abbreviation as_ns := (as_namespace codes_as_namespace).

Lemma dump_loop_groups (f : option string → gmap string scalar) (l : list (option string)) :
  Forall (λ g, data g ≠ ∅ ∧ title g ≠ ""%string
               ∧ ∃ ns, ns ∈ l ∧ g = group_of ns (f ns))
         (dump_loop f l).
Proof.
  induction l as [ | ns rest IH ]; cbn [dump_loop]; [ constructor | ].
  assert (IH' : Forall (λ g, data g ≠ ∅ ∧ title g ≠ ""%string
                             ∧ ∃ ns', ns' ∈ ns :: rest
                                      ∧ g = group_of ns' (f ns'))
                  (dump_loop f rest)).
  { eapply Forall_impl; [ exact IH | ].
    intros g (Hd & Ht & ns' & Hin & Hg). split; [ exact Hd | split; [ exact Ht | ] ].
    exists ns'. split; [ right; exact Hin | exact Hg ]. }
  destruct (bool_decide_reflect (f ns = ∅)) as [He | Hne]; [ exact IH' | ].
  constructor; [ | exact IH' ].
  split; [ exact Hne | split ].
  - unfold group_of. cbn [title]. destruct ns as [s | ]; [ | discriminate ].
    destruct (bool_decide_reflect (s = ""%string)); [ discriminate | assumption ].
  - exists ns. split; [ left | reflexivity ].
Qed.

Lemma dump_loop_titles (f : option string → gmap string scalar) (l : list string) :
  Forall (λ s, s ≠ ""%string) l →
  title <$> dump_loop f (Some <$> l) `sublist_of` l.
Proof.
  induction 1 as [ | s rest Hs _ IH ]; cbn [fmap list_fmap dump_loop]; [ constructor | ].
  destruct (bool_decide (f (Some s) = ∅)); [ apply sublist_cons, IH | ].
  cbn [fmap list_fmap]. unfold group_of at 1. cbn [title].
  rewrite (bool_decide_eq_false_2 _ Hs). apply sublist_skip, IH.
Qed.

(** The group [dump] makes for the namespace [ns] when [as_namespace]
    is [f]. *)
Definition group_for (f : option string → gmap string scalar) (ns : option string)
    : group :=
  {| title := match ns with
              | Some s => if bool_decide (s = ""%string) then "default"%string else s
              | None => "default"%string
              end;
     data := f ns;
     tooltip := "Keys in the ecCodes " ++ default "None"%string ns ++ " namespace" |}.

(** The loop of [dump]: one group for each namespace that has keys, in
    the order of the list. *)
Lemma dump_loop_filter (f : option string → gmap string scalar) (l : list (option string)) :
  dump_loop f l = group_for f <$> filter (λ ns, f ns ≠ ∅) l.
Proof.
  induction l as [ | ns rest IH ]; cbn [dump_loop]; [ reflexivity | ].
  rewrite filter_cons.
  destruct (bool_decide_reflect (f ns = ∅)) as [He | Hne].
  - rewrite decide_False by (intros Hn; exact (Hn He)). exact IH.
  - rewrite decide_True by exact Hne. cbn [fmap list_fmap]. rewrite <- IH. reflexivity.
Qed.

(** X17. [GribMetadata.as_namespace] gives the same keys for ["default"],
    for the empty [str] and for [None].  [dump] raises [TypeError] for
    [None].  For every other argument the list of groups it hands to
    [format_namespace_dump] has exactly one group for each namespace asked
    for that has keys, in the order asked, and no other group: the
    namespaces asked for are [NAMESPACES] for [all], the one name for a
    [str], and the items of a list.  The group of a namespace holds what
    [as_namespace] gives for it, under the name of the namespace, or under
    [default] when the name is empty or [None].  So no group is without
    keys or without a title, and the titles of a dump of [all] follow the
    order of [NAMESPACES]. *)
Theorem dump_groups (h : handle) :
  (as_ns h (Some "default"%string) = as_ns h None
   ∧ as_ns h (Some ""%string) = as_ns h None)
  ∧ dump codes_as_namespace h DumpNone = Err TypeError
  ∧ dump codes_as_namespace h DumpAll
    = Ok (group_for (as_ns h) <$> filter (λ ns, as_ns h ns ≠ ∅) (Some <$> NAMESPACES))
  ∧ (∀ s, dump codes_as_namespace h (DumpStr s)
          = Ok (group_for (as_ns h) <$> filter (λ ns, as_ns h ns ≠ ∅) [Some s]))
  ∧ (∀ l, dump codes_as_namespace h (DumpList l)
          = Ok (group_for (as_ns h) <$> filter (λ ns, as_ns h ns ≠ ∅) l))
  ∧ (∀ arg groups, dump codes_as_namespace h arg = Ok groups →
       Forall (λ g, data g ≠ ∅ ∧ title g ≠ ""%string) groups)
  ∧ (∀ groups, dump codes_as_namespace h DumpAll = Ok groups →
       title <$> groups `sublist_of` NAMESPACES).
Proof.
  split; [ split; reflexivity | split; [ reflexivity | ] ].
  split; [ unfold dump; rewrite dump_loop_filter; reflexivity | ].
  split; [ intros s; unfold dump; rewrite dump_loop_filter; reflexivity | ].
  split; [ intros l; unfold dump; rewrite dump_loop_filter; reflexivity | ].
  split.
  - intros arg groups Hd.
    assert (Hl : ∃ l, groups = dump_loop (as_ns h) l).
    { destruct arg as [ | s | l | ]; unfold dump in Hd;
        [ exists (Some <$> namespaces) | exists [Some s] | exists l | discriminate ];
        congruence. }
    destruct Hl as [l ->]. eapply Forall_impl; [ apply dump_loop_groups | ].
    intros g (Hdata & Htitle & _). auto.
  - intros groups Hd. unfold dump, namespaces in Hd.
    assert (groups = dump_loop (as_ns h) (Some <$> NAMESPACES)) as -> by congruence.
    apply dump_loop_titles. unfold NAMESPACES.
    repeat constructor; discriminate.
Qed.

End DumpFacts.

Definition h_t2m : handle :=
  {| h_keys := list_to_map [("shortName", VStr "2t"); ("level", VInt 2);
                            ("maximum", VFloat 310.5)]%string;
     h_values := [] |}.

(** An ecCodes that files [shortName] under [parameter], [level] under
    [vertical] and [maximum] under [statistics]. *)
Definition ns_t2m (h : handle) (namespace : option string) : gmap string scalar :=
  match namespace with
  | None => h_keys h
  | Some ns =>
      filter (λ kv, (ns, kv.1) ∈ [("parameter", "shortName"); ("vertical", "level");
                                  ("statistics", "maximum")]%string) (h_keys h)
  end.

Lemma dump_groups_witness :
  dump ns_t2m h_t2m (DumpList [Some "statistics"; Some "mars"; Some "vertical"]%string)
  = Ok [ {| title := "statistics";
            data := {[ "maximum"%string := VFloat 310.5 ]};
            tooltip := "Keys in the ecCodes statistics namespace" |};
         {| title := "vertical";
            data := {[ "level"%string := VInt 2 ]};
            tooltip := "Keys in the ecCodes vertical namespace" |} ].
Proof.
  rewrite (proj1 (proj2 (proj2 (proj2 (proj2 (dump_groups ns_t2m h_t2m)))))).
  vm_compute. reflexivity.
Defined.

(** ** The restricted view *)

Section RestrictedFacts.
Variable codes_as_namespace : handle → option string → gmap string scalar.

(** X18. The restricted view lists the namespaces of the wrapped
    metadata in their order, without [statistics].  Its [as_namespace] is
    empty for [statistics]; for any other namespace it is what the wrapped
    metadata gives, less the internal keys: it holds none of them, and
    every other key with the value it has there. *)
Theorem restricted_view_namespaces (self : restricted) :
  Restricted_namespaces `sublist_of` namespaces
  ∧ (∀ ns, ns ∈ Restricted_namespaces ↔ ns ∈ namespaces ∧ ns ≠ "statistics"%string)
  ∧ Restricted_as_namespace codes_as_namespace self (Some "statistics"%string) = ∅
  ∧ (∀ ns, Restricted_as_namespace codes_as_namespace self ns
           ⊆ as_namespace codes_as_namespace (metadata_handle self) ns)
  ∧ (∀ ns k, k ∈ INTERNAL_KEYS →
             Restricted_as_namespace codes_as_namespace self ns !! k = None)
  ∧ (∀ ns k, ns ≠ Some "statistics"%string → k ∉ INTERNAL_KEYS →
             Restricted_as_namespace codes_as_namespace self ns !! k
             = as_namespace codes_as_namespace (metadata_handle self) ns !! k).
Proof.
  destruct (Restricted_as_namespace_spec codes_as_namespace self) as (Hint & Hkey & Hother).
  split; [ | split; [ | split; [ | split; [ | split ] ] ] ].
  - unfold Restricted_namespaces. rewrite bool_decide_eq_false_2 by discriminate.
    apply sublist_filter.
  - intros ns. rewrite (proj2 Restricted_namespaces_spec ns).
    unfold INTERNAL_NAMESPACES. rewrite list_elem_of_singleton. reflexivity.
  - apply Hint. left.
  - intros ns. unfold Restricted_as_namespace.
    destruct (match ns with Some s => _ | None => _ end);
      [ apply map_empty_subseteq | apply map_filter_subseteq ].
  - exact Hkey.
  - intros ns k Hns Hk. apply Hother; [ | exact Hk ].
    intros s -> Hs. apply Hns. unfold INTERNAL_NAMESPACES in Hs.
    apply list_elem_of_singleton in Hs as ->. reflexivity.
Qed.

End RestrictedFacts.

Lemma restricted_view_namespaces_witness :
  Restricted_as_namespace ns_t2m {| metadata_handle := h_t2m; hidden := INTERNAL_KEYS |}
    None !! "shortName"
  = as_namespace ns_t2m h_t2m None !! "shortName".
Proof.
  apply (proj2 (proj2 (proj2 (proj2 (proj2
           (restricted_view_namespaces ns_t2m
              {| metadata_handle := h_t2m; hidden := INTERNAL_KEYS |})))))).
  - discriminate.
  - unfold INTERNAL_KEYS. rewrite !not_elem_of_cons.
    repeat split; [ discriminate .. | apply not_elem_of_nil ].
Defined.

(** A name without a dot. *)
Fixpoint dotless (s : string) : bool :=
  match s with
  | EmptyString => true
  | String c rest => negb (Ascii.eqb c ".") && dotless rest
  end.

Lemma split_at_dot_dotless s : dotless s = true → split_at_dot s = None.
Proof.
  induction s as [ | c rest IH ]; cbn [dotless split_at_dot]; [ reflexivity | ].
  destruct (Ascii.eqb c "."); cbn [negb andb]; [ discriminate | ].
  intros H. rewrite (IH H). reflexivity.
Qed.

Lemma split_at_dot_qualified ns tail :
  dotless ns = true → split_at_dot (ns ++ String "." tail) = Some (ns, tail).
Proof.
  induction ns as [ | c rest IH ]; simpl.
  - reflexivity.
  - destruct (Ascii.eqb c "."); simpl; [ discriminate | ].
    intros H. rewrite (IH H). reflexivity.
Qed.

(** X19. [_is_hidden] goes by the bare name.  A key without a dot is
    hidden when it is in the hidden list.  A key [ns.name] is hidden when
    [name], all that follows the first dot, is in the list, whatever the
    namespace [ns], except that nothing is hidden under [grib].  A key
    that ends in its first dot counts as a key without a namespace. *)
Theorem is_hidden_by_bare_name (self : restricted) (ns name : string) :
  dotless ns = true →
  _is_hidden self ns = bool_decide (ns ∈ hidden self)
  ∧ _is_hidden self (ns ++ ".") = bool_decide ((ns ++ ".")%string ∈ hidden self)
  ∧ (name ≠ ""%string →
     _is_hidden self (ns ++ String "." name)
     = if bool_decide (ns = "grib"%string) then false
       else bool_decide (name ∈ hidden self)).
Proof.
  intros Hns. unfold _is_hidden, partition. split; [ | split ].
  - rewrite (split_at_dot_dotless ns Hns). reflexivity.
  - rewrite (split_at_dot_qualified ns "" Hns). reflexivity.
  - intros Hname. rewrite (split_at_dot_qualified ns name Hns).
    rewrite (bool_decide_eq_false_2 _ Hname). reflexivity.
Qed.

Lemma is_hidden_by_bare_name_witness :
  _is_hidden {| metadata_handle := h_t2m; hidden := INTERNAL_KEYS |} "mars"
  = bool_decide ("mars"%string ∈ INTERNAL_KEYS)
  ∧ _is_hidden {| metadata_handle := h_t2m; hidden := INTERNAL_KEYS |} "mars."
    = bool_decide ("mars."%string ∈ INTERNAL_KEYS)
  ∧ ("maximum"%string ≠ ""%string →
     _is_hidden {| metadata_handle := h_t2m; hidden := INTERNAL_KEYS |} "mars.maximum"
     = if bool_decide ("mars"%string = "grib"%string) then false
       else bool_decide ("maximum"%string ∈ INTERNAL_KEYS)).
Proof.
  apply (is_hidden_by_bare_name {| metadata_handle := h_t2m; hidden := INTERNAL_KEYS |}
           "mars" "maximum").
  reflexivity.
Defined.

(** ** The MARS area and the area of the GridSpec *)

(** X20. [mars_area] lists the corner points as they are stored, the
    GridSpec orders them.  The two agree for a field whose rows run from
    north to south (the last latitude is less than the first) and whose i
    direction scans positively, or whose grid is Gaussian: then the [area]
    of the GridSpec is the list [mars_area] returns. *)
Theorem mars_area_is_gridspec_area (typed_value : ktype → scalar → scalar)
    (h : handle) (gs : gridspec) (g : maker) (a : gval) :
  Geography.gridspec h = Ok gs →
  registered (h_keys h !! "gridType") = Some g →
  gs !! "area" = Some a →
  py_lt (last_lat (h_keys h)) (first_lat (h_keys h)) = Ok true →
  (is_gaussian g = false → x_scan_dir (h_keys h) = Ok POSITIVE_SCAN_DIR) →
  ∃ l, Geography.mars_area typed_value h = Ok l ∧ a = GList l.
Proof.
  unfold Geography.gridspec. intros H Hg Ha Hlat Hscan.
  pose proof (make_gridspec_area _ gs g H Hg) as Hbox.
  destruct (by_first_point g); [ congruence | ].
  destruct (is_gaussian g && is_global (h_keys h)); [ congruence | ].
  destruct Hbox as (n & w & s & e & Harea & Hgs).
  rewrite Hgs in Ha. injection Ha as <-.
  unfold Geography.mars_area. rewrite !get_plain by discriminate.
  cbn [mbind result_bind bind]. eexists. split; [ reflexivity | ].
  unfold area, north, south, west, east, py_max, py_min in Harea.
  rewrite py_gt_lt, (py_lt_asym _ _ Hlat), Hlat in Harea.
  cbn [mbind result_bind bind] in Harea.
  destruct (is_gaussian g).
  - cbn [mbind result_bind bind] in Harea. injection Harea as <- <- <- <-. reflexivity.
  - rewrite (Hscan eq_refl) in Harea. cbn [mbind result_bind bind] in Harea.
    injection Harea as <- <- <- <-. reflexivity.
Qed.

Definition h_regular_ll : handle :=
  {| h_keys := list_to_map [
       ("gridType", VStr "regular_ll");
       ("iDirectionIncrementInDegrees", VFloat 0.5);
       ("jDirectionIncrementInDegrees", VFloat 0.5);
       ("latitudeOfFirstGridPointInDegrees", VInt 60);
       ("longitudeOfFirstGridPointInDegrees", VInt (-10));
       ("latitudeOfLastGridPointInDegrees", VInt 30);
       ("longitudeOfLastGridPointInDegrees", VInt 25);
       ("iScansNegatively", VInt 0)
     ]%string;
     h_values := [] |}.

Lemma mars_area_is_gridspec_area_witness :
  ∃ l, Geography.mars_area (λ _ v, v) h_regular_ll = Ok l
       ∧ GList [Some (VInt 60); Some (VInt (-10)); Some (VInt 30); Some (VInt 25)] = GList l.
Proof.
  apply (mars_area_is_gridspec_area (λ _ v, v) h_regular_ll
           (list_to_map [
              ("type", GScalar (VStr "regular_ll"));
              ("grid", GList [Some (VFloat 0.5); Some (VFloat 0.5)]);
              ("area", GList [Some (VInt 60); Some (VInt (-10)); Some (VInt 30);
                              Some (VInt 25)]);
              ("i_scans_negatively", GScalar (VInt 0))
            ]%string)
           LatLonGridSpecMaker).
  - vm_compute. reflexivity.
  - vm_compute. reflexivity.
  - vm_compute. reflexivity.
  - vm_compute. reflexivity.
  - intros _. vm_compute. reflexivity.
Defined.

(** ** Wrapping the result of [override] *)

Section HideFacts.
Variable typed_value : ktype → scalar → scalar.
Variable clone : bool → handle → handle.
Variable set_multiple : gmap string pval → handle → result handle.
Variable set_long : string → scalar → handle → result handle.
Variable set_values : list float → handle → result handle.
Variable import_GridSpecConverter : result unit.
Variable to_metadata : pval → pval → result (gmap string pval * option Z).

Abbreviation override' :=
  (override typed_value clone set_multiple set_long set_values
     import_GridSpecConverter to_metadata).

(** [RestrictedGribMetadata.override] on a view of the metadata [md]:
    [RestrictedGribMetadata(self.metadata.override(...))]. *)
Definition Restricted_override (md : loc) (d : gmap string pval)
    (headers_only_clone : bool) : M restricted :=
  λ σ, match override' md d headers_only_clone σ with
       | (Ok r, σ') => (restrict σ' r, σ')
       | (Err e, σ') => (Err e, σ')
       end.

(** [GribFieldMetadata._hide_internal_keys]:
    [RestrictedGribMetadata(self.override())]. *)
Definition GribFieldMetadata_hide_internal_keys (self : loc) : M restricted :=
  λ σ, match override' self ∅ true σ with
       | (Ok r, σ') => (restrict σ' r, σ')
       | (Err e, σ') => (Err e, σ')
       end.

(** [StandAloneGribMetadata._hide_internal_keys]:
    [RestrictedGribMetadata(self)]. *)
Definition StandAloneGribMetadata_hide_internal_keys (self : loc) : M restricted :=
  λ σ, (restrict σ self, σ).

(** X21. [RestrictedGribMetadata] asserts that it wraps a
    [StandAloneGribMetadata].  On the result of [override] the assertion
    always holds: whenever [override] returns, the override of a
    restricted view returns a view again, over the new handle, which
    hides the internal keys, and every object that was there before is
    as it was; an error of [override] is passed on.  The same holds when
    the metadata of a field hides its internal keys, which wraps a clone
    and never the handle of the field: wrapping the metadata of a field
    directly fails the assertion.  A standalone metadata is wrapped as it
    is, on its own handle, and the store does not change. *)
Theorem restricted_wraps_override (σ0 : store) (md : loc) (d : gmap string pval)
    (headers_only_clone : bool) :
  match override' md d headers_only_clone σ0 with
  | (Ok new, σ) =>
      ∃ c h, facades σ !! new = Some (StandAloneGribMetadata c)
             ∧ handles σ0 !! c = None
             ∧ handles σ !! c = Some h
             ∧ preserves σ0 σ
             ∧ Restricted_override md d headers_only_clone σ0
               = (Ok {| metadata_handle := h; hidden := INTERNAL_KEYS |}, σ)
  | (Err e, σ) =>
      preserves σ0 σ
      ∧ Restricted_override md d headers_only_clone σ0 = (Err e, σ)
  end
  ∧ GribFieldMetadata_hide_internal_keys md σ0 = Restricted_override md ∅ true σ0
  ∧ (∀ f, facades σ0 !! md = Some (GribFieldMetadata f) →
          restrict σ0 md = Err AssertionError)
  ∧ (∀ l h, facades σ0 !! md = Some (StandAloneGribMetadata l) →
            handles σ0 !! l = Some h →
            StandAloneGribMetadata_hide_internal_keys md σ0
            = (Ok {| metadata_handle := h; hidden := INTERNAL_KEYS |}, σ0)).
Proof.
  split; [ | split; [ reflexivity | split ] ].
  - pose proof (triple_override typed_value clone set_multiple set_long set_values
                  import_GridSpecConverter to_metadata σ0 md d headers_only_clone σ0
                  eq_refl) as H.
    unfold Restricted_override.
    destruct (override' md d headers_only_clone σ0) as [[new | e] σ].
    + destruct H as (Hpres & _ & _ & c & Hnew & Hc0 & [h Hc]).
      exists c, h. unfold restrict. rewrite Hnew, Hc. auto.
    + auto.
  - intros f Hf. unfold restrict. rewrite Hf. reflexivity.
  - intros l h Hl Hh. unfold StandAloneGribMetadata_hide_internal_keys, restrict.
    rewrite Hl, Hh. reflexivity.
Qed.

End HideFacts.

Lemma restricted_wraps_override_witness :
  ∃ view σ,
    GribFieldMetadata_hide_internal_keys (λ _ v, v) (λ _ h, h) store_keys store_long
      store_values gridspec_module_import no_converter 1%positive σ_msl = (Ok view, σ)
    ∧ hidden view = INTERNAL_KEYS
    ∧ preserves σ_msl σ.
Proof.
  destruct (restricted_wraps_override (λ _ v, v) (λ _ h, h) store_keys store_long
              store_values gridspec_module_import no_converter σ_msl 1%positive ∅ true)
    as (H & Hhide & _).
  destruct (override_returns (λ _ v, v) (λ _ h, h) store_keys store_long store_values
              gridspec_module_import no_converter σ_msl 1%positive ∅ true
              (GribFieldMetadata 1) h_msl)
    as (new & σ & Hrun & _).
  - reflexivity.
  - reflexivity.
  - reflexivity.
  - intros k v t. eexists. reflexivity.
  - intros p t. eexists. reflexivity.
  - rewrite Hrun in H. destruct H as (c & h & _ & _ & _ & Hpres & Hview).
    rewrite Hhide, Hview. eexists _, σ. split; [ reflexivity | ].
    split; [ reflexivity | exact Hpres ].
Defined.

(** ** Metadata for which [make_gridspec] returns *)

Lemma py_cmp_numbers a b :
  is_number (Some a) → is_number (Some b) → ∃ c, py_cmp a b = Ok c.
Proof. destruct a, b; simpl; try contradiction; eauto. Qed.

Lemma py_max_numbers a b :
  is_number a → is_number b → ∃ n, py_max a b = Ok n.
Proof.
  intros Ha Hb. destruct a as [a | ], b as [b | ]; try contradiction.
  unfold py_max, py_gt. destruct (py_cmp_numbers b a Hb Ha) as [c ->]. simpl. eauto.
Qed.

Lemma py_min_numbers a b :
  is_number a → is_number b → ∃ n, py_min a b = Ok n.
Proof.
  intros Ha Hb. destruct a as [a | ], b as [b | ]; try contradiction.
  unfold py_min, py_lt. destruct (py_cmp_numbers b a Hb Ha) as [c ->]. simpl. eauto.
Qed.

(** Both corner latitudes are numbers. *)
Definition latitudes_given (md : metadata) : Prop :=
  is_number (first_lat md) ∧ is_number (last_lat md).

(** One of the two flags of the i direction is there. *)
Definition scanning_given (md : metadata) : Prop :=
  is_Some (md !! "iScansNegatively") ∨ is_Some (md !! "iScansPositively").

Lemma area_given md g :
  latitudes_given md → is_gaussian g = true ∨ scanning_given md →
  ∃ a, area md g = Ok a.
Proof.
  intros [Hf Hl] Hscan. unfold area, north, south, west, east.
  destruct (py_max_numbers _ _ Hf Hl) as [n ->].
  destruct (py_min_numbers _ _ Hf Hl) as [s ->].
  cbn [mbind result_bind bind].
  destruct (is_gaussian g); [ cbn [mbind result_bind bind]; eauto | ].
  destruct Hscan as [[=] | Hscan].
  assert (Hdir : ∃ dir, x_scan_dir md = Ok dir).
  { unfold x_scan_dir. destruct Hscan as [[v ->] | [v Hv]]; [ eauto | ].
    rewrite Hv. destruct (md !! "iScansNegatively"); eauto. }
  destruct Hdir as [dir ->]. cbn [mbind result_bind bind]. eauto.
Qed.

(** Metadata that are enough, class by class, for a GridSpec to be made;
    a GridSpec is also made from others (a lat-lon grid whose increments
    are derived from the numbers of points, say). *)
Definition sufficient (g : maker) (md : metadata) : Prop :=
  match g with
  | LatLonGridSpecMaker | RotatedLatLonGridSpecMaker =>
      is_number (md !! "iDirectionIncrementInDegrees")
      ∧ is_number (md !! "jDirectionIncrementInDegrees")
      ∧ latitudes_given md ∧ scanning_given md
  | ReducedLatLonGridSpecMaker =>
      is_number (md !! "jDirectionIncrementInDegrees")
      ∧ latitudes_given md ∧ scanning_given md
  | RegularGaussianGridSpecMaker | ReducedGaussianGridSpecMaker
  | RegularRotatedGaussianGridSpecMaker | ReducedRotatedGaussianGridSpecMaker =>
      is_global md = true ∨ latitudes_given md
  | MercatorGridSpecMaker =>
      is_number (md !! "DiInMetres") ∧ is_number (md !! "DjInMetres")
      ∧ latitudes_given md ∧ scanning_given md
  | PolarStereographicGridSpecMaker =>
      is_number (md !! "DxInMetres") ∧ is_number (md !! "DyInMetres")
  | LambertGridSpecMaker =>
      is_number (md !! "DxInMetres") ∧ is_number (md !! "DyInMetres")
      ∧ md !! "LatIn1InDegrees" = None ∧ md !! "LatIn2InDegrees" = None
  | LambertAEAGridSpecMaker =>
      is_number (md !! "DyInMetres")
  end.

Lemma core_sufficient g md : sufficient g md → ∃ c, core g md = Ok c.
Proof.
  destruct g; unfold sufficient, core.
  - intros (Hdx & Hdy & Hlat & Hscan). unfold LatLon_get_grid.
    destruct (md !! "iDirectionIncrementInDegrees") as [dx | ]; [ | destruct Hdx ].
    destruct (md !! "jDirectionIncrementInDegrees") as [dy | ]; [ | destruct Hdy ].
    cbn [mbind result_bind bind].
    destruct (abs_pair_numbers _ _ Hdx Hdy) as [grid ->].
    destruct (area_given md LatLonGridSpecMaker Hlat (or_intror Hscan)) as [a ->].
    cbn [mbind result_bind bind]. eauto.
  - intros (Hdy & Hlat & Hscan). unfold ReducedLatLon_get_grid.
    destruct (md !! "jDirectionIncrementInDegrees") as [dy | ]; [ | destruct Hdy ].
    cbn [mbind result_bind bind].
    assert (Habs : ∃ v, py_abs (Some dy) = Ok v)
      by (destruct dy; simpl in *; try contradiction; eauto).
    destruct Habs as [v ->].
    destruct (area_given md ReducedLatLonGridSpecMaker Hlat (or_intror Hscan)) as [a ->].
    cbn [mbind result_bind bind]. eauto.
  - intros (Hdx & Hdy & Hlat & Hscan). unfold LatLon_get_grid.
    destruct (md !! "iDirectionIncrementInDegrees") as [dx | ]; [ | destruct Hdx ].
    destruct (md !! "jDirectionIncrementInDegrees") as [dy | ]; [ | destruct Hdy ].
    cbn [mbind result_bind bind].
    destruct (abs_pair_numbers _ _ Hdx Hdy) as [grid ->].
    destruct (area_given md RotatedLatLonGridSpecMaker Hlat (or_intror Hscan)) as [a ->].
    cbn [mbind result_bind bind]. eauto.
  - intros H. fold (is_global md). destruct (is_global md); cbn [negb]; [ eauto | ].
    destruct H as [[=] | Hlat].
    destruct (area_given md RegularGaussianGridSpecMaker Hlat (or_introl eq_refl)) as [a ->].
    cbn [mbind result_bind bind]. eauto.
  - intros H. fold (is_global md). destruct (is_global md); cbn [negb]; [ eauto | ].
    destruct H as [[=] | Hlat].
    destruct (area_given md ReducedGaussianGridSpecMaker Hlat (or_introl eq_refl)) as [a ->].
    cbn [mbind result_bind bind]. eauto.
  - intros H. fold (is_global md). destruct (is_global md); cbn [negb]; [ eauto | ].
    destruct H as [[=] | Hlat].
    destruct (area_given md RegularRotatedGaussianGridSpecMaker Hlat (or_introl eq_refl))
      as [a ->].
    cbn [mbind result_bind bind]. eauto.
  - intros H. fold (is_global md). destruct (is_global md); cbn [negb]; [ eauto | ].
    destruct H as [[=] | Hlat].
    destruct (area_given md ReducedRotatedGaussianGridSpecMaker Hlat (or_introl eq_refl))
      as [a ->].
    cbn [mbind result_bind bind]. eauto.
  - intros (Hdx & Hdy & Hlat & Hscan).
    destruct (abs_pair_numbers _ _ Hdx Hdy) as [grid ->].
    destruct (area_given md MercatorGridSpecMaker Hlat (or_intror Hscan)) as [a ->].
    cbn [mbind result_bind bind]. eauto.
  - intros (Hdx & Hdy). destruct (abs_pair_numbers _ _ Hdx Hdy) as [grid ->].
    cbn [mbind result_bind bind]. eauto.
  - intros (Hdx & Hdy & _). destruct (abs_pair_numbers _ _ Hdx Hdy) as [grid ->].
    cbn [mbind result_bind bind]. eauto.
  - intros Hdy. unfold LambertAEA_get_grid. cbn [_get_first_valid].
    destruct (md !! "DyInMetres") as [dy | ]; [ | destruct Hdy ].
    cbn [mbind result_bind bind].
    destruct (abs_pair_numbers _ _ Hdy Hdy) as [grid ->].
    cbn [mbind result_bind bind]. eauto.
Qed.

Lemma py_abs_number a v : py_abs a = Ok v → is_number a.
Proof. destruct a as [[ | | ] | ]; simpl; try discriminate; intros _; exact I. Qed.

Lemma abs_pair_Ok_numbers dx dy grid :
  abs_pair dx dy = Ok grid → is_number dx ∧ is_number dy.
Proof.
  unfold abs_pair. intros H.
  apply bind_Ok in H as (a & Ha & H). apply bind_Ok in H as (b & Hb & _).
  split; eapply py_abs_number; eassumption.
Qed.

(** X9. Metadata that are enough for [make_gridspec] to return, for each
    registered class.  For a Gaussian grid: the flag [global], or two
    numeric corner latitudes; no scanning flag is needed.  For the lat-lon
    classes and the Mercator class: numeric increments, numeric corner
    latitudes and one of the flags of the i direction; the longitudes may
    be missing.  For the polar stereographic class: its two increments
    being numbers.  For the Lambert class: the same, with
    [LatIn1InDegrees] and [LatIn2InDegrees] absent.  For the Lambert
    azimuthal class: a numeric [DyInMetres].  For the polar stereographic
    and the Lambert class these conditions are also necessary; for the
    other classes they are stated as sufficient only. *)
Theorem make_gridspec_returns (md : metadata) (g : maker) :
  registered (md !! "gridType") = Some g →
  (sufficient g md → ∃ gs, make_gridspec md = Ok gs)
  ∧ (g = PolarStereographicGridSpecMaker ∨ g = LambertGridSpecMaker →
     (∃ gs, make_gridspec md = Ok gs) → sufficient g md).
Proof.
  intros Hg. split.
  - intros Hs. rewrite (make_gridspec_registered md g Hg).
    destruct (core_sufficient g md Hs) as [c ->]. cbn [mbind result_bind bind].
    apply _add_total. intros key Hkey Hmd.
    destruct g; unfold copied, scan_keys in Hkey; cbn [app] in Hkey;
      rewrite !elem_of_cons, elem_of_nil in Hkey;
      repeat (destruct Hkey as [-> | Hkey];
              [ first [ vm_compute; eauto; fail
                      | destruct Hs as (_ & _ & H1 & H2); destruct Hmd as [v Hv];
                        congruence ] | ]);
      destruct Hkey.
  - intros Hclass [gs Hgs].
    rewrite (make_gridspec_registered md g Hg) in Hgs.
    apply bind_Ok in Hgs as (c & Hcore & Hadd).
    destruct Hclass as [-> | ->]; unfold core in Hcore;
      apply bind_Ok in Hcore as (grid & Hgrid & _);
      destruct (abs_pair_Ok_numbers _ _ _ Hgrid) as [Hdx Hdy].
    + split; assumption.
    + split; [ exact Hdx | split; [ exact Hdy | ] ].
      assert (Habsent : ∀ key, key ∈ copied LambertGridSpecMaker →
                               vocabulary !! key = None → md !! key = None).
      { intros key Hkey Hvoc. destruct (md !! key) as [v | ] eqn:Hv; [ | reflexivity ].
        destruct (_add_Ok_vocabulary md _ _ _ Hadd key Hkey) as [name Hname];
          [ rewrite Hv; eauto | congruence ]. }
      split; apply Habsent;
        first [ vm_compute; reflexivity
              | unfold copied, scan_keys; cbn [app]; rewrite !elem_of_cons; tauto ].
Qed.

Definition md_octahedral : metadata :=
  list_to_map [
    ("gridType", VStr "reduced_gg");
    ("N", VInt 320);
    ("isOctahedral", VInt 1);
    ("global", VInt 1)
  ]%string.

Lemma make_gridspec_returns_witness :
  (∃ gs, make_gridspec md_octahedral = Ok gs) ∧ (∃ gs, make_gridspec md_polar = Ok gs).
Proof.
  split.
  - apply (proj1 (make_gridspec_returns md_octahedral ReducedGaussianGridSpecMaker
                    ltac:(vm_compute; reflexivity))).
    left. vm_compute. reflexivity.
  - apply (proj1 (make_gridspec_returns md_polar PolarStereographicGridSpecMaker
                    ltac:(vm_compute; reflexivity))).
    split; vm_compute; exact I.
Defined.

(** ** What the new handle of [override] holds *)

Section OverrideResult.
Variable typed_value : ktype → scalar → scalar.
Variable clone : bool → handle → handle.
Variable set_multiple : gmap string pval → handle → result handle.
Variable set_long : string → scalar → handle → result handle.
Variable set_values : list float → handle → result handle.
Variable import_GridSpecConverter : result unit.
Variable to_metadata : pval → pval → result (gmap string pval * option Z).

(** X22. [override] keeps [bitsPerValue].  Take setters that do what
    ecCodes documents: after [set_long] the key has the value set, and
    [set_multiple] leaves alone the keys that are not in the patch.  If the
    patch has neither [gridspec] nor [bitsPerValue], and both the original
    handle and its clone have [bitsPerValue], then in the handle of the
    metadata that [override] returns [bitsPerValue] is the value of the
    original, or one equal to it, whatever value the clone came with. *)
Theorem override_keeps_bitsPerValue (σ σ' : store) (self new : loc)
    (d : gmap string pval) (headers_only_clone : bool) (m : facade) (h : handle)
    (o : scalar) :
  (∀ k x t t', set_long k x t = Ok t' → h_keys t' !! k = Some x) →
  (∀ p t t' k, set_multiple p t = Ok t' → p !! k = None →
               h_keys t' !! k = h_keys t !! k) →
  facades σ !! self = Some m →
  handles σ !! _handle m = Some h →
  default PNone (d !! "gridspec") = PNone →
  d !! "bitsPerValue" = None →
  h_keys h !! "bitsPerValue" = Some o →
  is_Some (h_keys (clone headers_only_clone h) !! "bitsPerValue") →
  override typed_value clone set_multiple set_long set_values
    import_GridSpecConverter to_metadata self d headers_only_clone σ = (Ok new, σ') →
  ∃ c hf w, facades σ' !! new = Some (StandAloneGribMetadata c)
            ∧ handles σ' !! c = Some hf
            ∧ h_keys hf !! "bitsPerValue" = Some w
            ∧ (w = o ∨ py_eq o w = true).
Proof.
  intros Hlong Hmult Hm Hh Hgs Hd Ho [n Hn] Hrun.
  pose proof (override_patched typed_value clone set_multiple set_long set_values
                import_GridSpecConverter to_metadata σ self d headers_only_clone m h
                Hm Hh) as H.
  rewrite Hrun in H. destruct H as (c & hf & Hpatched & Hnew & Hc).
  exists c, hf.
  assert (Hd' : delete "gridspec" d !! "bitsPerValue" = None)
    by (rewrite lookup_delete_ne by discriminate; exact Hd).
  unfold patched, patch_for in Hpatched. rewrite Hgs in Hpatched.
  cbn [mbind result_bind bind] in Hpatched. unfold patch_clone in Hpatched.
  rewrite (bool_decide_eq_true_2 _ Hd') in Hpatched.
  apply bind_Ok in Hpatched as (c1 & Hcopy & Hpatch).
  apply bind_Ok in Hpatch as (c2 & Hpatch & [= <-]).
  assert (H1 : ∃ w, h_keys c1 !! "bitsPerValue" = Some w ∧ (w = o ∨ py_eq o w = true)).
  { unfold copy_key in Hcopy. rewrite Ho, Hn in Hcopy.
    destruct (py_eq o n) eqn:Heq; cbn [negb] in Hcopy.
    - injection Hcopy as <-. eauto.
    - apply Hlong in Hcopy. eauto. }
  destruct H1 as (w & Hw & Hwo). exists w.
  split; [ exact Hnew | split; [ exact Hc | split; [ | exact Hwo ] ] ].
  destruct (bool_decide (delete "gridspec" d = ∅)).
  - injection Hpatch as <-. exact Hw.
  - rewrite (Hmult _ _ _ "bitsPerValue"%string Hpatch Hd'). exact Hw.
Qed.

End OverrideResult.

(** A clone that comes with eight bits per value. *)
Definition clone_8bits (headers_only : bool) (h : handle) : handle :=
  {| h_keys := <["bitsPerValue" := VInt 8]> (h_keys h); h_values := [] |}.

Lemma override_keeps_bitsPerValue_witness :
  ∃ new σ' c hf w,
    override (λ _ v, v) clone_8bits store_keys store_long store_values
      gridspec_module_import no_converter 1%positive {[ "shortName"%string := PScalar (VStr "2t") ]} true σ_msl = (Ok new, σ')
    ∧ facades σ' !! new = Some (StandAloneGribMetadata c)
    ∧ handles σ' !! c = Some hf
    ∧ h_keys hf !! "bitsPerValue" = Some w
    ∧ (w = VInt 16 ∨ py_eq (VInt 16) w = true).
Proof.
  destruct (override_returns (λ _ v, v) clone_8bits store_keys store_long store_values
              gridspec_module_import no_converter σ_msl 1%positive
              {[ "shortName"%string := PScalar (VStr "2t") ]} true
              (GribFieldMetadata 1) h_msl)
    as (new & σ' & Hrun & _).
  - reflexivity.
  - reflexivity.
  - reflexivity.
  - intros k v t. eexists. reflexivity.
  - intros p t. eexists. reflexivity.
  - exists new, σ'.
    destruct (override_keeps_bitsPerValue (λ _ v, v) clone_8bits store_keys store_long
                store_values gridspec_module_import no_converter σ_msl σ' 1%positive new
                {[ "shortName"%string := PScalar (VStr "2t") ]} true
                (GribFieldMetadata 1) h_msl (VInt 16))
      as (c & hf & w & H).
    + intros k x t t' [= <-]. apply lookup_insert_eq.
    + intros p t t' k [= <-] Hk. cbn [h_keys].
      rewrite lookup_union_r; [ reflexivity | ].
      rewrite lookup_omap, Hk. reflexivity.
    + reflexivity.
    + reflexivity.
    + reflexivity.
    + reflexivity.
    + reflexivity.
    + eexists. reflexivity.
    + exact Hrun.
    + exists c, hf, w. split; [ exact Hrun | exact H ].
Defined.

(** ** What [override] asks of the converter and of [set_multiple] *)

Section OverrideCalls.
Variable typed_value : ktype → scalar → scalar.
Variable clone : bool → handle → handle.
Variable set_long : string → scalar → handle → result handle.
Variable set_values : list float → handle → result handle.

(** The edition handed to the converter: that of the patch when it has
    one, else that of the metadata. *)
Definition edition_for (d : gmap string pval) (ed : option scalar) : pval :=
  default (match ed with Some v => PScalar v | None => PNone end)
          (delete "gridspec" d !! "edition").

(** X23. [override] with a [gridspec] in the patch.  The first thing it
    does is import [GridSpecConverter] from the gridspec module: when the
    import raises, as it does with the [gridspec.py] of this repository,
    which defines no [GridSpecConverter], [override] raises that
    [ImportError] and changes nothing, whatever the metadata and the patch
    hold.  When the import returns, the edition of the metadata is read
    next, so without an [edition] key [override] raises [KeyError] and
    changes nothing, even when the patch brings an edition of its own.
    Otherwise the converter is asked for nothing but the gridspec with the
    edition of the patch if it has one and of the metadata if not, and
    [set_multiple] is called with nothing but the keys of the converter
    laid over the patch without [gridspec], those of the converter
    winning: two converters that agree on that one question, and two
    setters that agree on that one patch, give the same result. *)
Theorem override_with_gridspec (σ : store) (self : loc) (d : gmap string pval)
    (headers_only_clone : bool) (g : pval) (m : facade) (h : handle)
    (import_GridSpecConverter : result unit)
    (set_multiple set_multiple' : gmap string pval → handle → result handle)
    (to_metadata to_metadata' : pval → pval → result (gmap string pval * option Z)) :
  d !! "gridspec" = Some g → g ≠ PNone →
  facades σ !! self = Some m →
  handles σ !! _handle m = Some h →
  (∀ e, import_GridSpecConverter = Err e →
        override typed_value clone set_multiple set_long set_values
          import_GridSpecConverter to_metadata self d headers_only_clone σ
        = (Err e, σ))
  ∧ (import_GridSpecConverter = Ok tt →
     h_keys h !! "edition" = None →
     override typed_value clone set_multiple set_long set_values
       import_GridSpecConverter to_metadata self d headers_only_clone σ
     = (Err (KeyError "edition"), σ))
  ∧ (import_GridSpecConverter = Ok tt →
     ∀ ed, h_keys h !! "edition" = Some ed →
       to_metadata g (edition_for d (Some ed)) = to_metadata' g (edition_for d (Some ed)) →
       (∀ md n t, to_metadata g (edition_for d (Some ed)) = Ok (md, n) →
                  set_multiple (md ∪ delete "gridspec" d) t
                  = set_multiple' (md ∪ delete "gridspec" d) t) →
       override typed_value clone set_multiple set_long set_values
         import_GridSpecConverter to_metadata self d headers_only_clone σ
       = override typed_value clone set_multiple' set_long set_values
           import_GridSpecConverter to_metadata' self d headers_only_clone σ).
Proof.
  intros Hd Hg Hm Hh.
  pose proof (is_fresh (dom (handles σ))) as Hfresh.
  apply not_elem_of_dom in Hfresh.
  assert (Hne : fresh (dom (handles σ)) ≠ _handle m) by congruence.
  assert (Hc : ∀ x, <[fresh (dom (handles σ)) := x]> (handles σ) !! _handle m = Some h)
    by (intros x; rewrite lookup_insert_ne by exact Hne; exact Hh).
  unfold override. rewrite Hd. cbn [default from_option id].
  destruct g as [ | v | gs ]; [ contradiction | | ];
    (split;
     [ intros e He; rewrite He;
       unfold mbind, M_bind, mbind', lift; reflexivity
     | split;
       [ intros Himp He; rewrite Himp;
         unfold mbind, M_bind, mbind', getitem, mbind, M_bind, mbind', read_facade,
           read_handle, lift, _get, handle_get;
         cbv beta iota zeta; rewrite Hm; cbv beta iota; rewrite Hh; cbv beta iota;
         change (_key_name "edition") with "edition"%string; rewrite He; reflexivity
       | intros Himp ed He Htm Hsm; rewrite Himp;
         unfold mbind, M_bind, mbind', getitem, mbind, M_bind, mbind', read_facade,
           read_handle, lift, _get, handle_get, ret, new_handle, write_handle,
           new_facade, _copy_key;
         cbv beta iota zeta; rewrite Hm; cbv beta iota; rewrite Hh; cbv beta iota;
         change (_key_name "edition") with "edition"%string; rewrite He;
         cbn [mbind result_bind bind];
         rewrite (bool_decide_eq_false_2 ("edition"%string = "shortName"%string))
           by discriminate;
         cbn [andb]; cbv beta iota;
         fold (edition_for d (Some ed)); rewrite <- Htm;
         destruct (to_metadata _ (edition_for d (Some ed))) as [[md n] | e] eqn:Hconv;
         [ | reflexivity ];
         cbv beta iota; rewrite Hm; cbv beta iota; rewrite Hh; cbv beta iota;
         unfold mbind, M_bind, mbind', read_facade, read_handle, lift, write_handle, ret,
           handle_get;
         destruct (bool_decide ((md ∪ delete "gridspec" d) !! "bitsPerValue" = None));
         run_store Hm Hc;
         repeat match goal with
                | |- context [match h_keys ?x !! "bitsPerValue" with _ => _ end] =>
                    destruct (h_keys x !! "bitsPerValue"); run_store Hm Hc
                | |- context [if negb ?b then _ else _] =>
                    destruct b; cbn [negb]; run_store Hm Hc
                | |- context [match set_long ?k ?o ?t with _ => _ end] =>
                    destruct (set_long k o t); run_store Hm Hc
                end;
         try reflexivity;
         (destruct (bool_decide (md ∪ delete "gridspec" d = ∅)); run_store Hm Hc;
          rewrite ?(Hsm md n _ eq_refl); reflexivity) ] ]).
Qed.

End OverrideCalls.

(** A patch with a gridspec and an edition. *)
Definition patch_gridspec : gmap string pval :=
  <["gridspec" := PGridSpec ∅]> {[ "edition"%string := PScalar (VInt 2) ]}.

Lemma override_with_gridspec_witness :
  override (λ _ v, v) (λ _ h, h) store_keys store_long store_values
    gridspec_module_import no_converter 1%positive patch_gridspec true σ_msl
  = (Err (ImportError "GridSpecConverter"), σ_msl)
  ∧ override (λ _ v, v) (λ _ h, h) store_keys store_long store_values
      (Ok tt) no_converter 1%positive patch_gridspec true σ_msl
    = (Err (KeyError "edition"), σ_msl).
Proof.
  split.
  - destruct (override_with_gridspec (λ _ v, v) (λ _ h, h) store_long store_values
                σ_msl 1%positive patch_gridspec true (PGridSpec ∅)
                (GribFieldMetadata 1) h_msl gridspec_module_import
                store_keys store_keys no_converter no_converter) as [H _].
    + vm_compute. reflexivity.
    + discriminate.
    + vm_compute. reflexivity.
    + vm_compute. reflexivity.
    + apply H. reflexivity.
  - destruct (override_with_gridspec (λ _ v, v) (λ _ h, h) store_long store_values
                σ_msl 1%positive patch_gridspec true (PGridSpec ∅)
                (GribFieldMetadata 1) h_msl (Ok tt)
                store_keys store_keys no_converter no_converter) as (_ & H & _).
    + vm_compute. reflexivity.
    + discriminate.
    + vm_compute. reflexivity.
    + vm_compute. reflexivity.
    + apply H; [ reflexivity | vm_compute; reflexivity ].
Defined.
